(** * Python-for-Epidemiologists: the notebooks' computations, embedded

    The development follows three notebooks:
    - [2_Data-Basics/1_data_management.ipynb]: recoding a column with
      [np.where] and with masked [.loc] assignments;
    - the "Simulating Data with NumPy" notebook: potential outcomes and
      [simulate_data];
    - the "Chapter 13" notebook: the parametric g-formula computed with
      zEpid's [TimeFixedGFormula], and its bootstrap confidence interval.

    Number model.  Columns whose behaviour turns on IEEE comparisons
    (missing values in the recoding cells) hold binary64 floats
    ([PrimFloat.float]).  Where the notebooks do arithmetic on float64
    values (simulation, prediction, standard deviation, confidence
    limits) a float64 is idealised as a real number and rounding is not
    modelled; integer columns are [Z].  Lengths are natural numbers:
    memory limits are not modelled.

    Libraries.  NumPy, pandas and SciPy functions follow their
    documented behaviour on the default RangeIndex.  zEpid's
    [TimeFixedGFormula] and the model-fitting library under it are not
    part of the repository; the Fitter and the Standardizer are
    modelled from the specification, the numerical solver and the
    random generator are collaborators the models take as
    parameters.  The distribution of the bootstrap's index draws is a
    finite law of equally likely outcomes. *)

From Stdlib Require Import String List ZArith Bool Lia.
From Stdlib Require Import Reals Lra.
From Stdlib Require Import Floats.
Import ListNotations.

Set Implicit Arguments.

(* ================================================================== *)
(** * Python exceptions and results *)
(* ================================================================== *)

Module Py.

(** The exception classes: Python's and pandas' own, the three of the
    specification's error taxonomy ([InsufficientDataError],
    [DegenerateResampleError], [MissingCovariateError]), and
    [LibraryError] for what a collaborator raises. *)
Inductive exn : Type :=
| ValueError (msg : string)
| TypeError (msg : string)
| KeyError (key : string)
| IndexError (msg : string)
| IndexingError (msg : string)
| InsufficientDataError (msg : string)
| DegenerateResampleError (msg : string)
| MissingCovariateError (msg : string)
| LibraryError (msg : string).

(** The outcome of evaluating an expression: a value or a raised
    exception. *)
Inductive result (A : Type) : Type :=
| Ok (a : A)
| Raise (e : exn).

Arguments Ok {A} a.
Arguments Raise {A} e.

Definition rbind {A B} (r : result A) (k : A -> result B) : result B :=
  match r with
  | Ok a => k a
  | Raise e => Raise e
  end.

Definition is_ok {A} (r : result A) : bool :=
  match r with Ok _ => true | Raise _ => false end.

(** What [print] writes: the arguments of one call make one line.  A
    float64 is a real number or NaN ([None]); [PRound d x] is the text
    of [np.round(x, d)]. *)
Inductive printed : Type :=
| PStr (s : string)
| PNum (x : option R)
| PRound (decimals : Z) (x : option R).

(** The text Python gives a list of strings: the items in quotes,
    separated by a comma and a space, in brackets. *)
Fixpoint py_items (names : list string) : string :=
  match names with
  | [] => ""
  | [n] => "'" ++ n ++ "'"
  | n :: rest => "'" ++ n ++ "', " ++ py_items rest
  end.

Definition py_list (names : list string) : string :=
  "[" ++ py_items names ++ "]".

End Py.

Export Py.

Declare Scope py_scope.
Delimit Scope py_scope with py.
Notation "'do' x <- c ; k" := (rbind c (fun x => k))
  (at level 10, x name, c at level 100, k at level 200) : py_scope.

(* ================================================================== *)
(** * DataFrames: ordered, named columns *)
(* ================================================================== *)

Module Frame.

Section WithCell.

Variable V : Type.

(** A pandas Series over the default RangeIndex: the values by
    position. *)
Definition Series := list V.

(** A DataFrame over the default RangeIndex: its columns in order,
    each a label and the values by position.  [pd.DataFrame()] is the
    frame without columns. *)
Definition DataFrame := list (string * Series).

Definition empty : DataFrame := [].

(** [df.columns] *)
Definition columns (df : DataFrame) : list string := map fst df.

(** [df.shape[0]]: the length of the index. *)
Definition shape0 (df : DataFrame) : nat :=
  match df with
  | [] => 0
  | (_, c) :: _ => length c
  end.

(** [df[name]]: [KeyError] when there is no such column. *)
Fixpoint get_col (name : string) (df : DataFrame) : result Series :=
  match df with
  | [] => Raise (KeyError name)
  | (k, c) :: rest =>
      if String.eqb k name then Ok c else get_col name rest
  end.

Definition has_col (name : string) (df : DataFrame) : bool :=
  is_ok (get_col name df).

(** Replace the column in place when the label exists, append it at
    the end otherwise: the column order of [df[name] = ...]. *)
Fixpoint put_col (name : string) (c : Series) (df : DataFrame) : DataFrame :=
  match df with
  | [] => [(name, c)]
  | (k, old) :: rest =>
      if String.eqb k name then (k, c) :: rest
      else (k, old) :: put_col name c rest
  end.

(** [df[name] = values] for an array or a Series on the same index: a
    frame without columns takes the length of the values as its index,
    otherwise the lengths must agree. *)
Definition setitem (name : string) (c : Series) (df : DataFrame)
  : result DataFrame :=
  match df with
  | [] => Ok [(name, c)]
  | _ :: _ =>
      if Nat.eqb (length c) (shape0 df) then Ok (put_col name c df)
      else Raise (ValueError "Length of values does not match length of index")
  end.

(** [df[name] = scalar]: the scalar in every row. *)
Definition setitem_scalar (name : string) (v : V) (df : DataFrame)
  : DataFrame :=
  put_col name (repeat v (shape0 df)) df.

(** The listed columns, in the listed order. *)
Fixpoint take_columns (names : list string) (df : DataFrame)
  : result DataFrame :=
  match names with
  | [] => Ok []
  | n :: ns =>
      match get_col n df with
      | Raise e => Raise e
      | Ok c =>
          match take_columns ns df with
          | Raise e => Raise e
          | Ok rest => Ok ((n, c) :: rest)
          end
      end
  end.

(** [df[[n1; ...; nk]]]: the listed columns, in the listed order.
    Labels that are no columns raise one [KeyError] that names them
    all, worded differently when none of the listed labels is a
    column. *)
Definition select (names : list string) (df : DataFrame) : result DataFrame :=
  match filter (fun n => negb (has_col n df)) names with
  | [] => take_columns names df
  | missing =>
      Raise (KeyError
               (if Nat.eqb (length missing) (length names)
                then "None of [Index(" ++ py_list names
                     ++ ", dtype='object')] are in the [columns]"
                else py_list missing ++ " not in index"))
  end.

(** The record at a position: every column's value there, under the
    column's label. *)
Definition row_at (na : V) (i : nat) (df : DataFrame) : list (string * V) :=
  map (fun kc => (fst kc, nth i (snd kc) na)) df.

(** The records of a frame, by position. *)
Definition rows (na : V) (df : DataFrame) : list (list (string * V)) :=
  map (fun i => row_at na i df) (seq 0 (shape0 df)).

(** Every column has the length of the index. *)
Definition rectangular (df : DataFrame) : Prop :=
  Forall (fun kc => length (snd kc) = shape0 df) df.

(** Positional selection of one column, [IndexError] out of range. *)
Fixpoint take_values (idx : list nat) (c : Series) : result Series :=
  match idx with
  | [] => Ok []
  | i :: rest =>
      match nth_error c i with
      | None => Raise (IndexError "indices are out-of-bounds")
      | Some v =>
          match take_values rest c with
          | Raise e => Raise e
          | Ok vs => Ok (v :: vs)
          end
      end
  end.

(** [df.take(idx)]: the same positions out of every column. *)
Fixpoint take_rows (idx : list nat) (df : DataFrame) : result DataFrame :=
  match df with
  | [] => Ok []
  | (k, c) :: rest =>
      match take_values idx c with
      | Raise e => Raise e
      | Ok c' =>
          match take_rows idx rest with
          | Raise e => Raise e
          | Ok rest' => Ok ((k, c') :: rest')
          end
      end
  end.

(** The frame [take_rows] builds when every position is in range:
    column by column, the values at the positions. *)
Definition taken (d : V) (idx : list nat) (df : DataFrame) : DataFrame :=
  map (fun kc => (fst kc, map (fun i => nth i (snd kc) d) idx)) df.

(** Boolean-mask assignment of a scalar to one existing or new column,
    [df.loc[mask, name] = v].  A label that is not a column yet is
    created with the missing marker [na] in the rows the mask leaves
    out; on a frame without rows a scalar cannot create a column. *)
Fixpoint mask_scalar (mask : list bool) (v : V) (old : Series) : Series :=
  match mask, old with
  | m :: ms, o :: os => (if m then v else o) :: mask_scalar ms v os
  | _, _ => []
  end.

(** [df.loc[mask, name] = values]: in the masked rows the value of
    [values] at the same index label. *)
Fixpoint mask_series (mask : list bool) (vs old : Series) : Series :=
  match mask, vs, old with
  | m :: ms, v :: vs', o :: os => (if m then v else o) :: mask_series ms vs' os
  | _, _, _ => []
  end.

Definition column_or_new (na : V) (name : string) (df : DataFrame) : Series :=
  match get_col name df with
  | Ok c => c
  | Raise _ => repeat na (shape0 df)
  end.

Definition loc_set_scalar (na : V) (mask : list bool) (name : string) (v : V)
    (df : DataFrame) : result DataFrame :=
  if Nat.eqb (length mask) (shape0 df) then
    if negb (has_col name df) && Nat.eqb (shape0 df) 0 then
      Raise (ValueError "cannot set a frame with no defined index and a scalar")
    else
      Ok (put_col name (mask_scalar mask v (column_or_new na name df)) df)
  else Raise (IndexingError "Item wrong length").

Definition loc_set_series (na : V) (mask : list bool) (name : string)
    (vs : Series) (df : DataFrame) : result DataFrame :=
  if Nat.eqb (length mask) (shape0 df) then
    if Nat.eqb (length vs) (shape0 df) then
      Ok (put_col name (mask_series mask vs (column_or_new na name df)) df)
    else Raise (ValueError "Length of values does not match length of index")
  else Raise (IndexingError "Item wrong length").

End WithCell.

End Frame.

(* ================================================================== *)
(** * NumPy on columns of numbers *)
(* ================================================================== *)

Module NumPy.

Local Open Scope R_scope.

(** Elementwise application over two arrays of one shape. *)
Fixpoint zip_with {A B C} (f : A -> B -> C) (a : list A) (b : list B)
  : list C :=
  match a, b with
  | x :: a', y :: b' => f x y :: zip_with f a' b'
  | _, _ => []
  end.

Definition rsum (l : list R) : R := fold_right Rplus 0 l.

(** [np.mean] of numbers: NaN ([None]) on an empty array. *)
Definition np_mean (l : list R) : option R :=
  match l with
  | [] => None
  | _ :: _ => Some (rsum l / INR (length l))
  end.

(** A float64 cell: a number, or NaN ([None]) for a missing value. *)
Definition cell : Type := option R.

Definition lift2 (f : R -> R -> R) (a b : cell) : cell :=
  match a, b with
  | Some x, Some y => Some (f x y)
  | _, _ => None
  end.

Definition cadd : cell -> cell -> cell := lift2 Rplus.
Definition csub : cell -> cell -> cell := lift2 Rminus.
Definition cmul : cell -> cell -> cell := lift2 Rmult.

(** The numbers of an array, or [None] when an entry is NaN. *)
Fixpoint all_numbers (l : list cell) : option (list R) :=
  match l with
  | [] => Some []
  | None :: _ => None
  | Some x :: l' =>
      match all_numbers l' with
      | Some xs => Some (x :: xs)
      | None => None
      end
  end.

(** The entries that are numbers. *)
Fixpoint numbers (l : list cell) : list R :=
  match l with
  | [] => []
  | Some x :: l' => x :: numbers l'
  | None :: l' => numbers l'
  end.

(** [np.var(a, ddof)]: the squared deviations from the mean, summed
    and divided by [max(n - ddof, 0)]. *)
Definition var_numbers (ddof : nat) (xs : list R) : R :=
  let arrmean := rsum xs / INR (length xs) in
  let x := map (fun a => a - arrmean) xs in
  let x := map (fun d => d * d) x in
  rsum x / INR (length xs - ddof).

(** [np.std(a)]: the square root of the variance with the default
    [ddof=0].  NaN on an empty array (the mean of nothing) and when an
    entry is NaN. *)
Definition np_std (a : list cell) : cell :=
  match all_numbers a with
  | None => None
  | Some [] => None
  | Some xs => Some (R_sqrt.sqrt (var_numbers 0 xs))
  end.

(** [Series.mean()], which is what [np.mean] of a Series calls: the
    mean of the entries that are not missing. *)
Definition series_mean (c : list cell) : cell := np_mean (numbers c).

End NumPy.

(* ================================================================== *)
(** * Recoding a column (1_data_management.ipynb) *)
(* ================================================================== *)

Module Recode.

Import Frame.

Local Open Scope float_scope.

(** [c > k] and [c <= k] on a float64 column: IEEE comparisons, row by
    row. *)
Definition gt (c : Series float) (k : float) : list bool :=
  map (fun x => PrimFloat.ltb k x) c.

Definition le (c : Series float) (k : float) : list bool :=
  map (fun x => PrimFloat.leb x k) c.

(** [np.where(cond, k, c)] with a scalar second argument: [k] where the
    condition holds, the entry of [c] elsewhere.  The shapes must
    agree. *)
Fixpoint where_zip (cond : list bool) (k : float) (c : Series float)
  : Series float :=
  match cond, c with
  | b :: bs, x :: xs => (if b then k else x) :: where_zip bs k xs
  | _, _ => []
  end.

Definition np_where (cond : list bool) (k : float) (c : Series float)
  : result (Series float) :=
  if Nat.eqb (length cond) (length c) then Ok (where_zip cond k c)
  else Raise (ValueError "operands could not be broadcast together").

(** <<
    df['age2_numpy'] = np.where(df['age0'] > 50, 50, df['age0'])
    >> *)
Definition recode_numpy (df : DataFrame float) : result (DataFrame float) :=
  (do age0 <- get_col "age0" df;
   do a <- np_where (gt age0 50) 50 age0;
   setitem "age2_numpy" a df)%py.

(** <<
    df.loc[df['age0'] > 50, 'age2_pandas'] = 50
    df.loc[df['age0'] <= 50, 'age2_pandas'] = df['age0']
    >> *)
Definition recode_pandas (df : DataFrame float) : result (DataFrame float) :=
  (do age0 <- get_col "age0" df;
   do df1 <- loc_set_scalar nan (gt age0 50) "age2_pandas" 50 df;
   do key <- get_col "age0" df1;
   do rhs <- get_col "age0" df1;
   loc_set_series nan (le key 50) "age2_pandas" rhs df1)%py.

(** What both idioms are meant to compute, entry by entry. *)
Definition cap50 (x : float) : float :=
  if PrimFloat.ltb 50 x then 50 else x.

(** ** Data to run the cells on *)

(** An identifier and ages, one missing. *)
Definition ages : DataFrame float :=
  [("id"%string, [1; 2; 3; 4]); ("age0"%string, [49; 62; nan; 50])].

(** A frame without rows: the column [age0] is there and is empty. *)
Definition no_ages : DataFrame float := [("age0"%string, [])].

End Recode.

(* ================================================================== *)
(** * Effects: global state and exceptions *)
(* ================================================================== *)

Module Eff.

(** A computation over a global state [S]: it returns a value or
    raises, and in both cases leaves a state behind (what a Python
    statement did before it raised stays done). *)
Definition M (S A : Type) : Type := S -> result A * S.

Definition ret {S A} (a : A) : M S A := fun s => (Ok a, s).

Definition raise {S A} (e : exn) : M S A := fun s => (Raise e, s).

Definition bind {S A B} (c : M S A) (k : A -> M S B) : M S B :=
  fun s =>
    match c s with
    | (Ok a, s') => k a s'
    | (Raise e, s') => (Raise e, s')
    end.

Definition lift {S A} (r : result A) : M S A := fun s => (r, s).

Definition modify {S} (f : S -> S) : M S unit := fun s => (Ok tt, f s).

(** [for _ in range(n): body], collecting what each iteration
    appends. *)
Fixpoint repeatM {S A} (n : nat) (body : M S A) : M S (list A) :=
  match n with
  | O => ret []
  | S n' =>
      bind body (fun a => bind (repeatM n' body) (fun rest => ret (a :: rest)))
  end.

(** One action per element, left to right. *)
Fixpoint mapM {S A B} (f : A -> M S B) (l : list A) : M S (list B) :=
  match l with
  | [] => ret []
  | a :: l' =>
      bind (f a) (fun b => bind (mapM f l') (fun rest => ret (b :: rest)))
  end.

End Eff.

Export Eff.

Declare Scope eff_scope.
Delimit Scope eff_scope with eff.
Notation "x <- c ;; k" := (bind c (fun x => k))
  (at level 61, c at next level, right associativity) : eff_scope.
Notation "c ;;; k" := (bind c (fun _ => k))
  (at level 61, right associativity) : eff_scope.

(* ================================================================== *)
(** * The random-variate collaborator ([np.random]) *)
(* ================================================================== *)

Module Random.

(** What the notebooks consume of NumPy's global generator: one
    Bernoulli draw ([np.random.binomial(n=1, p)] counts the successes
    of a single trial), one standard normal draw, and one index below
    a bound (the draw behind [DataFrame.sample(replace=True)]).  The
    generator state is threaded explicitly.  The laws of the class are
    the ranges of the draws: a run of a generator is one outcome and
    shows nothing of a distribution.  The distribution of the index
    draws is modelled apart, as a finite law (see [randint_law]). *)
Class RandomVariate (G : Type) : Type := {
  binomial1 : R -> G -> Z * G;
  normal1 : G -> R * G;
  randint1 : nat -> G -> nat * G;
  binomial1_range :
    forall p g, fst (binomial1 p g) = 0%Z \/ fst (binomial1 p g) = 1%Z;
  randint1_range :
    forall n g, (0 < n)%nat -> (fst (randint1 n g) < n)%nat
}.

Section Draws.

Context {G : Type} {RV : RandomVariate G}.

(** [np.random.binomial(n=1, p=ps, size=len(ps))]: one draw per
    probability, in order. *)
Fixpoint binomial (ps : list R) (g : G) : list Z * G :=
  match ps with
  | [] => ([], g)
  | p :: ps' =>
      let (a, g1) := binomial1 p g in
      let (rest, g2) := binomial ps' g1 in
      (a :: rest, g2)
  end.

(** [np.random.normal(size=n)] *)
Fixpoint normal (n : nat) (g : G) : list R * G :=
  match n with
  | O => ([], g)
  | S n' =>
      let (x, g1) := normal1 g in
      let (rest, g2) := normal n' g1 in
      (x :: rest, g2)
  end.

(** [size] indices below [bound], in order. *)
Fixpoint randint (bound size : nat) (g : G) : list nat * G :=
  match size with
  | O => ([], g)
  | S n' =>
      let (i, g1) := randint1 bound g in
      let (rest, g2) := randint bound n' g1 in
      (i :: rest, g2)
  end.

(** The generator after [k] index draws below [bound]. *)
Fixpoint after_draws (bound k : nat) (g : G) : G :=
  match k with
  | O => g
  | S k' => after_draws bound k' (snd (randint1 bound g))
  end.

End Draws.

(** ** The law of the index draws

    [DataFrame.sample(replace=True)] without weights gives every
    position the same probability at every draw.  A finite law is the
    list of its equally likely outcomes: the indices below the bound
    for one draw, and for [size] draws in a row every index for the
    first draw followed by every outcome of the remaining draws. *)
Definition randint1_law (bound : nat) : list nat := seq 0 bound.

Fixpoint randint_law (bound size : nat) : list (list nat) :=
  match size with
  | O => [[]]
  | S n' =>
      flat_map (fun i => map (cons i) (randint_law bound n'))
        (randint1_law bound)
  end.

(** The number of outcomes in an event, and its probability. *)
Definition favourable {A} (ev : A -> bool) (law : list A) : nat :=
  length (filter ev law).

Definition prob {A} (ev : A -> bool) (law : list A) : R :=
  (INR (favourable ev law) / INR (length law))%R.

(** The events "draw [k] is the index [j]" and "the draws are [v]". *)
Definition draw_is (k j : nat) (idx : list nat) : bool :=
  Nat.eqb (nth k idx 0%nat) j.

Definition draws_are (v idx : list nat) : bool :=
  if list_eq_dec Nat.eq_dec idx v then true else false.

(** A generator that replays a tape of indices, to reach any given
    outcome of the index draws. *)
Definition tape_binomial1 (p : R) (t : list nat) : Z * list nat := (0%Z, t).

Definition tape_normal1 (t : list nat) : R * list nat := (0%R, t).

Definition tape_randint1 (n : nat) (t : list nat) : nat * list nat :=
  ((hd 0 t mod n)%nat, tl t).

(** A generator to run the models on: a counter, whose Bernoulli draw
    is the parity of the count, whose normal draw is the count, and
    whose index is half the count modulo the bound (so that indices
    repeat). *)
Definition counter_binomial1 (p : R) (g : nat) : Z * nat :=
  (Z.of_nat (g mod 2), S g).

Definition counter_normal1 (g : nat) : R * nat := (INR g, S g).

Definition counter_randint1 (n : nat) (g : nat) : nat * nat :=
  ((g / 2) mod n, S g).

End Random.

(* ================================================================== *)
(** * Simulating data with NumPy *)
(* ================================================================== *)

Module Simulate.

Import Frame NumPy Random.

Local Open Scope R_scope.
Local Open Scope string_scope.

(** ** Python values an argument can be *)

Inductive pyval : Type :=
| PyInt (z : Z)
| PyBool (b : bool)
| PyFloat (f : float)
| PyStr (s : string)
| PyNone.

(** [v < 0].  Numbers compare ([bool] is a subclass of [int]; a float
    compares by IEEE rules, so NaN is not below zero); a string or
    [None] against an [int] raises [TypeError]. *)
Definition lt_zero (v : pyval) : result bool :=
  match v with
  | PyInt z => Ok (z <? 0)%Z
  | PyBool _ => Ok false
  | PyFloat f => Ok (PrimFloat.ltb f 0%float)
  | PyStr _ =>
      Raise (TypeError "'<' not supported between instances of 'str' and 'int'")
  | PyNone =>
      Raise (TypeError "'<' not supported between instances of 'NoneType' and 'int'")
  end.

(** [isinstance(v, int)] *)
Definition isinstance_int (v : pyval) : bool :=
  match v with
  | PyInt _ | PyBool _ => true
  | _ => false
  end.

(** [n < 0 or not isinstance(n, int)]: [or] evaluates its right
    operand only when the left one is false. *)
Definition invalid_n (n : pyval) : result bool :=
  (do neg <- lt_zero n;
   if neg then Ok true else Ok (negb (isinstance_int n)))%py.

(** [size=n] as [np.random.binomial] takes it: an [int] is a number
    of draws; anything else, a [bool] included, is refused with
    [TypeError]. *)
Definition as_size (n : pyval) : result nat :=
  match n with
  | PyInt z => Ok (Z.to_nat z)
  | PyBool b =>
      Raise (TypeError
               ("expected a sequence of integers or a single integer, got '"
                ++ (if b then "True" else "False") ++ "'"))
  | _ => Raise (TypeError "expected a sequence of integers or a single integer")
  end.

(** ** Elementwise arithmetic on columns of one index *)

Definition sadd (a b : list R) : list R := zip_with Rplus a b.
Definition ssub (a b : list R) : list R := zip_with Rminus a b.
Definition smul (a b : list R) : list R := zip_with Rmult a b.
(** [k * s], [k + s] and [k - s] for a scalar [k]. *)
Definition scale (k : R) (s : list R) : list R := map (Rmult k) s.
Definition shift (k : R) (s : list R) : list R := map (Rplus k) s.
Definition rsub (k : R) (s : list R) : list R := map (Rminus k) s.

(** The same on the integer columns of the binary simulation.  NumPy
    integers are signed machine integers of [bits] bits (the notebook
    shows [int32]); arithmetic wraps around. *)
Definition wrap (bits z : Z) : Z :=
  ((z + 2 ^ (bits - 1)) mod 2 ^ bits - 2 ^ (bits - 1))%Z.

Definition in_range (bits z : Z) : Prop :=
  (- 2 ^ (bits - 1) <= z < 2 ^ (bits - 1))%Z.

Definition zadd (bits : Z) (a b : list Z) : list Z :=
  zip_with (fun x y => wrap bits (x + y)) a b.
Definition zmul (bits : Z) (a b : list Z) : list Z :=
  zip_with (fun x y => wrap bits (x * y)) a b.
Definition zrsub (bits : Z) (k : Z) (s : list Z) : list Z :=
  map (fun x => wrap bits (k - x)) s.

(** [scipy.stats.logistic.cdf] *)
Definition logistic_cdf (x : R) : R := 1 / (1 + exp (- x)).

(** ** The global state of the notebook *)

Record World (G : Type) : Type := mkWorld {
  rng : G;
  stdout : list (list printed)
}.

Section WithGenerator.

Context {G : Type} {RV : RandomVariate G}.

Definition draw {A} (f : G -> A * G) : M (World G) A :=
  fun w => let (a, g) := f (rng w) in (Ok a, mkWorld g (stdout w)).

(** [print(a, b)] *)
Definition print (line : list printed) : M (World G) unit :=
  modify (fun w => mkWorld (rng w) (stdout w ++ [line])).

(** The observed outcome of the binary simulation, on integer columns:
    <<
    df['Y'] = df['A']*df['Y1'] + (1 - df['A'])*df['Y0']
    >> *)
Definition observed_outcome_int (bits : Z) (A Y1 Y0 : list Z) : list Z :=
  zadd bits (zmul bits A Y1) (zmul bits (zrsub bits 1 A) Y0).

(** The body of [simulate_data] after the check of [n], up to and
    including the observed outcome: the frame with all six columns.
    <<
    df = pd.DataFrame()
    df['W'] = np.random.binomial(n=1, p=0.5, size=n)
    df['L'] = np.random.normal(size=n)
    df['A'] = np.random.binomial(n=1, p=logistic.cdf(-3 + 3*df['W'] - 1.5*df['L']), size=n)
    df['Y0'] = 2*df['W'] + 6*df['L'] + 0.3*df['W']*df['L'] + 5*np.random.normal(size=n)
    df['Y1'] = -10 + 2*df['W'] + 6*df['L'] + 0.3*df['W']*df['L'] + 5*np.random.normal(size=n)
    df['Y'] = df['A']*df['Y1'] + (1 - df['A'])*df['Y0']
    >> *)
Definition simulate_columns (size : nat) : M (World G) (DataFrame R) :=
  (let df := empty R in
   w <- draw (binomial (repeat 0.5 size)) ;;
   df <- lift (setitem "W" (map IZR w) df) ;;
   l <- draw (normal size) ;;
   df <- lift (setitem "L" l df) ;;
   cW <- lift (get_col "W" df) ;;
   cL <- lift (get_col "L" df) ;;
   a <- draw (binomial
                (map logistic_cdf
                   (ssub (shift (-3) (scale 3 cW)) (scale 1.5 cL)))) ;;
   df <- lift (setitem "A" (map IZR a) df) ;;
   cW <- lift (get_col "W" df) ;;
   cL <- lift (get_col "L" df) ;;
   e0 <- draw (normal size) ;;
   df <- lift (setitem "Y0"
                 (sadd (sadd (sadd (scale 2 cW) (scale 6 cL))
                          (smul (scale 0.3 cW) cL))
                    (scale 5 e0)) df) ;;
   cW <- lift (get_col "W" df) ;;
   cL <- lift (get_col "L" df) ;;
   e1 <- draw (normal size) ;;
   df <- lift (setitem "Y1"
                 (sadd (sadd (sadd (shift (-10) (scale 2 cW)) (scale 6 cL))
                          (smul (scale 0.3 cW) cL))
                    (scale 5 e1)) df) ;;
   cA <- lift (get_col "A" df) ;;
   cY1 <- lift (get_col "Y1" df) ;;
   cY0 <- lift (get_col "Y0" df) ;;
   lift (setitem "Y" (sadd (smul cA cY1) (smul (rsub 1 cA) cY0)) df))%eff.

(** <<
    def simulate_data(n, print_ate=True):
        if n < 0 or not isinstance(n, int):
            raise ValueError('n must be a positive integer')
        ...
        if print_ate:
            print('ATE* =', np.mean(df['Y1'] - df['Y0']))
        return df[['Y', 'A', 'W', 'L']]
    >> *)
Definition simulate_data (n : pyval) (print_ate : bool)
  : M (World G) (DataFrame R) :=
  (bad <- lift (invalid_n n) ;;
   if bad : bool then raise (ValueError "n must be a positive integer")
   else
     size <- lift (as_size n) ;;
     df <- simulate_columns size ;;
     (if print_ate then
        cY1 <- lift (get_col "Y1" df) ;;
        cY0 <- lift (get_col "Y0" df) ;;
        print [PStr "ATE* ="; PNum (np_mean (ssub cY1 cY0))]
      else ret tt) ;;;
     lift (select ["Y"; "A"; "W"; "L"] df))%eff.

(** What a call that passes the check returns: a frame with the four
    columns in the order of the selection, each of [size] rows. *)
Definition accepted (n : pyval) (print_ate : bool) (w : World G)
    (size : nat) : Prop :=
  exists df w',
    simulate_data n print_ate w = (Ok df, w') /\
    columns df = ["Y"; "A"; "W"; "L"] /\
    shape0 df = size /\
    Forall (fun kc => length (snd kc) = size) df.

End WithGenerator.

End Simulate.

(* ================================================================== *)
(** * The parametric g-formula and its bootstrap (Chapter 13) *)
(* ================================================================== *)

Module GFormula.

Import Frame NumPy Random.

Local Open Scope R_scope.
Local Open Scope string_scope.

(** ** Model specification *)

(** [outcome_type]: ['normal'] fits a linear model with the identity
    link, ['binomial'] a logistic model with the logit link. *)
Inductive family : Type := Normal | Binomial.

(** The inverse link, from linear predictor to predicted outcome. *)
Definition inv_link (f : family) (eta : R) : R :=
  match f with
  | Normal => eta
  | Binomial => 1 / (1 + exp (- eta))
  end.

(** Modelled from the spec: the expanded terms of a model formula
    (patsy's expansion of the formula string is not in the repository).
    The constant column, a covariate, its square, the indicator of one
    level of a discrete covariate, and the product of two terms. *)
Inductive term : Type :=
| Intercept
| Linear (field : string)
| Squared (field : string)
| Indicator (field : string) (level : R)
| Interaction (t1 t2 : term).

(** The fields a term reads. *)
Fixpoint term_fields (t : term) : list string :=
  match t with
  | Intercept => []
  | Linear f | Squared f | Indicator f _ => [f]
  | Interaction t1 t2 => term_fields t1 ++ term_fields t2
  end.

Definition indicator (level : R) (x : cell) : cell :=
  match x with
  | None => None
  | Some v => Some (if Req_dec_T v level then 1 else 0)
  end.

(** Modelled from the spec: the design column of a term, computed from
    the frame it is given, so a term in the treatment follows the
    treatment of that frame (the design-matrix builder is not in the
    repository). *)
Fixpoint term_column (t : term) (df : DataFrame cell) : result (Series cell) :=
  match t with
  | Intercept => Ok (repeat (Some 1) (shape0 df))
  | Linear f => get_col f df
  | Squared f =>
      (do c <- get_col f df; Ok (map (fun x => cmul x x) c))%py
  | Indicator f level =>
      (do c <- get_col f df; Ok (map (indicator level) c))%py
  | Interaction t1 t2 =>
      (do c1 <- term_column t1 df;
       do c2 <- term_column t2 df;
       Ok (zip_with cmul c1 c2))%py
  end.

Fixpoint term_columns (ts : list term) (df : DataFrame cell)
  : result (list (Series cell)) :=
  match ts with
  | [] => Ok []
  | t :: ts' =>
      (do c <- term_column t df;
       do cs <- term_columns ts' df;
       Ok (c :: cs))%py
  end.

(** What the notebook fixes when it builds a [TimeFixedGFormula] and
    its outcome model. *)
Record spec : Type := mkSpec {
  exposure : string;
  outcome : string;
  outcome_type : family;
  formula : list term
}.

(** ** Fitted model *)

(** Modelled from the spec: a fitted model is a coefficient vector
    aligned with the expanded terms, and the family it was fitted
    with. *)
Record fitted : Type := mkFitted {
  terms : list term;
  fam : family;
  coef : list R
}.

(** Modelled from the spec: the linear predictor, unit by unit: the
    coefficients times the design columns, summed.  A unit with a
    missing design entry has a missing predictor. *)
Fixpoint linear_predictor (beta : list R) (cols : list (Series cell))
    (n : nat) : Series cell :=
  match beta, cols with
  | b :: beta', c :: cols' =>
      zip_with cadd (map (cmul (Some b)) c) (linear_predictor beta' cols' n)
  | _, _ => repeat (Some 0) n
  end.

(** Modelled from the spec: prediction applies the fitted coefficients
    and the inverse link to the design columns of the frame (the
    model-fitting library's [predict] is not in the repository). *)
Definition predict (m : fitted) (df : DataFrame cell) : result (Series cell) :=
  (do cols <- term_columns (terms m) df;
   if Nat.eqb (length (coef m)) (length cols) then
     Ok (map (option_map (inv_link (fam m)))
           (linear_predictor (coef m) cols (shape0 df)))
   else Raise (ValueError "shapes not aligned"))%py.

(** ** Fitting *)

(** Row [i] of the design columns and the outcome, when complete. *)
Definition complete_case (cols : list (Series cell)) (y : Series cell)
    (i : nat) : option (list R * R) :=
  match all_numbers (map (fun c => nth i c None) cols), nth i y None with
  | Some xs, Some yi => Some (xs, yi)
  | _, _ => None
  end.

Fixpoint complete_cases (cols : list (Series cell)) (y : Series cell)
    (positions : list nat) : list (list R * R) :=
  match positions with
  | [] => []
  | i :: rest =>
      match complete_case cols y i with
      | Some r => r :: complete_cases cols y rest
      | None => complete_cases cols y rest
      end
  end.

(** Whether unit [i] is a complete case. *)
Definition in_fit (cols : list (Series cell)) (y : Series cell) (i : nat)
  : bool :=
  match complete_case cols y i with
  | Some _ => true
  | None => false
  end.

(** Modelled from the spec: the fitting sample of a model with terms
    [ts] for the outcome [out], by position: the units of the table
    that are complete on every design column and on the outcome, the
    ones the Fitter keeps (the Fitter is not in the repository). *)
Definition fitting_sample (ts : list term) (out : string)
    (df : DataFrame cell) : result (list nat) :=
  (do cols <- term_columns ts df;
   do y <- get_col out df;
   Ok (filter (in_fit cols y) (seq 0 (shape0 df))))%py.

(** Modelled from the spec: the fitted model's in-sample mean
    prediction: the mean of its per-unit predictions over the fitting
    sample of the table it was fitted on (the model-fitting library's
    fitted values are not in the repository). *)
Definition in_sample_mean (m : fitted) (out : string) (df : DataFrame cell)
  : result cell :=
  (do p <- predict m df;
   do pos <- fitting_sample (terms m) out df;
   Ok (series_mean (map (fun i => nth i p None) pos)))%py.

Section WithSolver.

(** The model-fitting collaborator: from a family, a design matrix
    (one row per complete unit) and a response vector to a coefficient
    vector, or an exception (a rank-deficient design, say). *)
Variable solve : family -> list (list R) -> list R -> result (list R).

(** Modelled from the spec: the Outcome Model Fitter (zEpid's
    [outcome_model] and the library under it are not in the
    repository).  It builds the design on the units that are complete
    on every modelled field, fails with [InsufficientDataError] when
    there is none, and hands the rest to the solver. *)
Definition fit_model (sp : spec) (df : DataFrame cell) : result fitted :=
  (do cols <- term_columns (formula sp) df;
   do y <- get_col (outcome sp) df;
   match complete_cases cols y (seq 0 (shape0 df)) with
   | [] => Raise (InsufficientDataError "no complete case")
   | data =>
       do beta <- solve (outcome_type sp) (map fst data) (map snd data);
       Ok (mkFitted (formula sp) (outcome_type sp) beta)
   end)%py.

End WithSolver.

(** ** Counterfactual policies and standardization *)

(** Modelled from the spec: the policies of the Standardizer.  zEpid
    takes ['all'] and ['none']; the spec adds the observed treatment
    and a user-defined rule giving each unit's treatment value (a
    treatment probability, for a stochastic policy) from its record. *)
Inductive policy : Type :=
| TreatAll
| TreatNone
| NoOp
| UserDefined (rule : list (string * cell) -> cell).

(** Modelled from the spec: the policy-modified table.  The treatment
    column is overwritten; nothing else is assigned. *)
Definition apply_policy (trt : string) (p : policy) (df : DataFrame cell)
  : result (DataFrame cell) :=
  match p with
  | TreatAll => Ok (setitem_scalar trt (Some 1) df)
  | TreatNone => Ok (setitem_scalar trt (Some 0) df)
  | NoOp => (do a <- get_col trt df; setitem trt a df)%py
  | UserDefined rule => setitem trt (map rule (rows None df)) df
  end.

(** Modelled from the spec: the Standardizer.  The mean, over the
    units that have a prediction, of the predictions on the
    policy-modified table. *)
Definition standardize (m : fitted) (trt : string) (p : policy)
    (df : DataFrame cell) : result cell :=
  (do g <- apply_policy trt p df;
   do pred <- predict m g;
   Ok (series_mean pred))%py.

(** The policies the notebook and the spec fix in advance. *)
Definition fixed_policy (q : policy) : Prop :=
  q = TreatAll \/ q = TreatNone \/ q = NoOp.

(** Two tables of the same length that hold the same columns, except
    perhaps for the column [name]. *)
Definition agree_off (name : string) (df df' : DataFrame cell) : Prop :=
  shape0 df' = shape0 df /\
  forall other, other <> name -> get_col other df' = get_col other df.

(** ** The [TimeFixedGFormula] object and the notebook's state *)

(** Modelled from the spec: the state a [TimeFixedGFormula] carries
    across calls, as the notebook uses it (the class is zEpid's).  The
    data it was built on, the specification, the fitted outcome model
    once [outcome_model] ran, and the marginal outcome of the latest
    [fit]. *)
Record TimeFixedGFormula : Type := mkTFGF {
  gf : DataFrame cell;
  tf_exposure : string;
  tf_outcome : string;
  tf_outcome_type : family;
  outcome_model_ : option fitted;
  marginal_outcome : option cell
}.

(** The interpreter state the cells share: NumPy's global generator
    and the objects created so far, addressed by creation order. *)
Record State (G : Type) : Type := mkState {
  rng : G;
  heap : list TimeFixedGFormula
}.

Definition ref : Type := nat.

(** Overwrite position [r] of the heap. *)
Fixpoint update {A} (r : nat) (a : A) (l : list A) : list A :=
  match l, r with
  | [], _ => []
  | _ :: l', O => a :: l'
  | x :: l', S r' => x :: update r' a l'
  end.

Section WithCollaborators.

Context {G : Type} {RV : RandomVariate G}.

Variable solve : family -> list (list R) -> list R -> result (list R).

Definition draw {A} (f : G -> A * G) : M (State G) A :=
  fun s => let (a, g) := f (rng s) in (Ok a, mkState g (heap s)).

Definition read (r : ref) : M (State G) TimeFixedGFormula :=
  fun s =>
    match nth_error (heap s) r with
    | Some o => (Ok o, s)
    | None => (Raise (LibraryError "no such object"), s)
    end.

Definition write (r : ref) (o : TimeFixedGFormula) : M (State G) unit :=
  modify (fun s => mkState (rng s) (update r o (heap s))).

(** Modelled from the spec:
    [TimeFixedGFormula(df, exposure=..., outcome=..., outcome_type=...)],
    zEpid's constructor.  A new object, holding its own copy of the
    data and no model yet. *)
Definition new_TimeFixedGFormula (df : DataFrame cell) (sp : spec)
  : M (State G) ref :=
  fun s =>
    (Ok (length (heap s)),
     mkState (rng s)
       (heap s ++ [mkTFGF df (exposure sp) (outcome sp) (outcome_type sp)
                     None None])).

(** Modelled from the spec:
    [tfgf.outcome_model(formula, print_results=False)], zEpid's method.
    It runs the Fitter on the object's data and keeps the fitted model
    in the object. *)
Definition outcome_model (r : ref) (terms : list term) : M (State G) unit :=
  (o <- read r ;;
   m <- lift (fit_model solve
                (mkSpec (tf_exposure o) (tf_outcome o) (tf_outcome_type o) terms)
                (gf o)) ;;
   write r (mkTFGF (gf o) (tf_exposure o) (tf_outcome o) (tf_outcome_type o)
              (Some m) (marginal_outcome o)))%eff.

(** Modelled from the spec: [tfgf.fit(treatment=...)], zEpid's method.
    It runs the Standardizer with the object's fitted model on the
    object's data and keeps the result in [marginal_outcome]; without
    a fitted model it raises. *)
Definition fit (r : ref) (p : policy) : M (State G) unit :=
  (o <- read r ;;
   match outcome_model_ o with
   | None =>
       raise (ValueError
                "Before the g-formula can be calculated, the outcome model must be specified")
   | Some m =>
       v <- lift (standardize m (tf_exposure o) p (gf o)) ;;
       write r (mkTFGF (gf o) (tf_exposure o) (tf_outcome o)
                  (tf_outcome_type o) (outcome_model_ o) (Some v))
   end)%eff.

(** [tfgf.marginal_outcome]: the attribute, [None] before the first
    [fit]. *)
Definition get_marginal_outcome (r : ref) : M (State G) (option cell) :=
  (o <- read r ;; ret (marginal_outcome o))%eff.

(** [a - b] on what [marginal_outcome] holds: [None] has no
    subtraction. *)
Definition py_sub (a b : option cell) : result cell :=
  match a, b with
  | Some x, Some y => Ok (csub x y)
  | _, _ => Raise (TypeError "unsupported operand type(s) for -")
  end.

(** [df.sample(n=df.shape[0], replace=True)]: as many positions as the
    frame has rows, each drawn below the number of rows, then the rows
    at those positions. *)
Definition sample (df : DataFrame cell) : M (State G) (DataFrame cell) :=
  (idx <- draw (randint (shape0 df) (shape0 df)) ;;
   lift (take_rows idx df))%eff.

(** <<
    tfgf = TimeFixedGFormula(df, exposure='qsmk', outcome='wt82_71', outcome_type='normal')
    tfgf.outcome_model('qsmk + sex + ...', print_results=False)
    tfgf.fit(treatment='all')
    rall = tfgf.marginal_outcome
    tfgf.fit(treatment='none')
    nall = tfgf.marginal_outcome
    >> *)
Definition point_estimate (sp : spec) (df : DataFrame cell)
  : M (State G) (ref * option cell * option cell) :=
  (tfgf <- new_TimeFixedGFormula df sp ;;
   outcome_model tfgf (formula sp) ;;;
   fit tfgf TreatAll ;;;
   rall <- get_marginal_outcome tfgf ;;
   fit tfgf TreatNone ;;;
   nall <- get_marginal_outcome tfgf ;;
   ret (tfgf, rall, nall))%eff.

(** The body of the bootstrap loop: what one iteration appends to
    [ests].
    <<
    dfs = df.sample(n=df.shape[0], replace=True)
    tfgf = TimeFixedGFormula(dfs, ...)
    tfgf.outcome_model(..., print_results=False)
    tfgf.fit(treatment='all')
    rall_b = tfgf.marginal_outcome
    tfgf.fit(treatment='none')
    nall_b = tfgf.marginal_outcome
    ests.append(rall_b - nall_b)
    >> *)
Definition replicate (sp : spec) (df : DataFrame cell) : M (State G) cell :=
  (dfs <- sample df ;;
   tfgf <- new_TimeFixedGFormula dfs sp ;;
   outcome_model tfgf (formula sp) ;;;
   fit tfgf TreatAll ;;;
   rall_b <- get_marginal_outcome tfgf ;;
   fit tfgf TreatNone ;;;
   nall_b <- get_marginal_outcome tfgf ;;
   lift (py_sub rall_b nall_b))%eff.

End WithCollaborators.

(** The law of the resample: the rows at the positions of each equally
    likely outcome of the index draws. *)
Definition sample_law (df : DataFrame cell) : list (result (DataFrame cell)) :=
  map (fun idx => take_rows idx df) (randint_law (shape0 df) (shape0 df)).

(** <<
    se = np.std(ests)
    lcl = (rall - nall) - 1.96*se
    ucl = (rall - nall) + 1.96*se
    >> *)
Definition wald_interval (rall nall : option cell) (ests : list cell)
  : result (cell * cell * cell) :=
  (let se := np_std ests in
   do d <- py_sub rall nall;
   let lcl := csub d (cmul (Some 1.96) se) in
   do d <- py_sub rall nall;
   let ucl := cadd d (cmul (Some 1.96) se) in
   Ok (se, lcl, ucl))%py.

(** <<
    print('Average Causal Effect')
    print('--------------------------------------')
    print('E[Y|A=1] - E[Y|A=0] = ', np.round(rall - nall, 2))
    print('95% CL: '+str(np.round(lcl, 2))+', '+str(np.round(ucl, 2)))
    print('--------------------------------------')
    >> *)
Definition report (rall nall : option cell) (lcl ucl : cell)
  : result (list (list printed)) :=
  (do d <- py_sub rall nall;
   Ok [[PStr "Average Causal Effect"];
       [PStr "--------------------------------------"];
       [PStr "E[Y|A=1] - E[Y|A=0] = "; PRound 2 d];
       [PStr "95% CL: "; PRound 2 lcl; PStr ", "; PRound 2 ucl];
       [PStr "--------------------------------------"]])%py.

Section Bootstrap.

Context {G : Type} {RV : RandomVariate G}.

Variable solve : family -> list (list R) -> list R -> result (list R).

(** The bootstrap cell, for [B] resamples ([range(200)] in the
    notebook): the replicates, then the standard error and the two
    confidence limits. *)
Definition bootstrap (B : nat) (sp : spec) (df : DataFrame cell)
    (rall nall : option cell)
  : M (State G) (list cell * (cell * cell * cell)) :=
  (ests <- repeatM B (replicate solve sp df) ;;
   ci <- lift (wald_interval rall nall ests) ;;
   ret (ests, ci))%eff.

(** An object of the loop holds a resample of the table, and the model
    it holds, if any, is the fit of the specification on that very
    resample. *)
Definition own_fit (sp : spec) (df : DataFrame cell)
    (o : TimeFixedGFormula) : Prop :=
  (exists idx, take_rows idx df = Ok (gf o)) /\
  (forall m, outcome_model_ o = Some m -> fit_model solve sp (gf o) = Ok m).

End Bootstrap.

(** The population standard deviation of the replicates, as the spec
    words it: the root of the mean squared deviation from their
    mean. *)
Definition population_sd (xs : list R) : R :=
  let B := INR (length xs) in
  let xbar := rsum xs / B in
  R_sqrt.sqrt (rsum (map (fun x => (x - xbar) ^ 2) xs) / B).

(** The sample standard deviation ([ddof=1]), for comparison. *)
Definition sample_sd (xs : list R) : R :=
  let B := INR (length xs) in
  let xbar := rsum xs / B in
  R_sqrt.sqrt (rsum (map (fun x => (x - xbar) ^ 2) xs) / (B - 1)).

(** Two states of one object that hold the same data, the same
    specification and the same fitted model: coefficient vector, terms
    and family. *)
Definition same_model (o o' : TimeFixedGFormula) : Prop :=
  outcome_model_ o' = outcome_model_ o /\
  gf o' = gf o /\
  tf_exposure o' = tf_exposure o /\
  tf_outcome o' = tf_outcome o /\
  tf_outcome_type o' = tf_outcome_type o.

(** What an object holds, read through a reference. *)
Definition model_at {G} (r : ref) (s : State G) : option fitted :=
  match nth_error (heap s) r with
  | Some o => outcome_model_ o
  | None => None
  end.


(** The numbers a report prints, in order. *)
Definition numbers_of_line (line : list printed) : list (option R) :=
  flat_map (fun p => match p with
                     | PStr _ => []
                     | PNum x => [x]
                     | PRound _ x => [x]
                     end) line.

Definition printed_numbers (lines : list (list printed)) : list (option R) :=
  flat_map numbers_of_line lines.

(** The bootstrap cell followed by the report cell, on given
    replicates. *)
Definition interval_report (rall nall : option cell) (ests : list cell)
  : result (list (list printed)) :=
  (do ci <- wald_interval rall nall ests;
   report rall nall (snd (fst ci)) (snd ci))%py.

(** ** Solvers to run the cells on *)

(** A solver that fits the mean of the response to the constant column
    and zero to every other column. *)
Definition mean_solver (f : family) (X : list (list R)) (y : list R)
  : result (list R) :=
  match X with
  | [] => Raise (LibraryError "empty design")
  | row :: _ => Ok (rsum y / INR (length y) :: repeat 0 (length row - 1))
  end.

(** A solver that always finds the design singular. *)
Definition singular_solver (f : family) (X : list (list R)) (y : list R)
  : result (list R) :=
  Raise (LibraryError "Singular matrix").

(** ** Data to run the cells on *)

(** A table of three units, tagged by an identifier; the outcome of the
    third is missing. *)
Definition three_units : DataFrame cell :=
  [("id", [Some 1; Some 2; Some 3]);
   ("qsmk", [Some 0; Some 1; Some 0]);
   ("wt82_71", [Some 2; Some 5; None])].

(** The first two of them: every outcome is recorded. *)
Definition two_units : DataFrame cell :=
  [("id", [Some 1; Some 2]);
   ("qsmk", [Some 0; Some 1]);
   ("wt82_71", [Some 2; Some 5])].

(** The same units with no outcome recorded at all. *)
Definition no_outcome : DataFrame cell :=
  [("id", [Some 1; Some 2; Some 3]);
   ("qsmk", [Some 0; Some 1; Some 0]);
   ("wt82_71", [None; None; None])].

(** A specification on that table, and a fitted model for it. *)
Definition small_spec : spec :=
  mkSpec "qsmk" "wt82_71" Normal [Intercept; Linear "qsmk"].

Definition small_model : fitted :=
  mkFitted [Intercept; Linear "qsmk"] Normal [2; 3].

(** The state the witnesses start from: generator at 0, no object. *)
Definition fresh : State nat := mkState 0%nat [].

(** The specification of the notebook: the exposure, the outcome, the
    family and the formula
    <<
    qsmk + sex + race + age + age_sq + C(education) + smokeintensity +
    smokeintensity_sq + smokeyrs + smokeyrs_sq + C(exercise) +
    C(active) + wt71 + wt71_sq
    >>
    with each [C(...)] expanded into the indicators of the levels
    above the first one, for the NHEFS codes (education 1 to 5,
    exercise and active 0 to 2). *)
Definition chapter13 : spec :=
  mkSpec "qsmk" "wt82_71" Normal
    [Intercept; Linear "qsmk"; Linear "sex"; Linear "race"; Linear "age";
     Linear "age_sq";
     Indicator "education" 2; Indicator "education" 3;
     Indicator "education" 4; Indicator "education" 5;
     Linear "smokeintensity"; Linear "smokeintensity_sq";
     Linear "smokeyrs"; Linear "smokeyrs_sq";
     Indicator "exercise" 1; Indicator "exercise" 2;
     Indicator "active" 1; Indicator "active" 2;
     Linear "wt71"; Linear "wt71_sq"].

(** The number of resamples of the notebook, [range(200)]. *)
Definition notebook_B : nat := 200.

End GFormula.

(* ================================================================== *)
(** * Selecting rows and columns *)
(* ================================================================== *)

Module Select.

Import Frame.

Section WithCell.

Variable V : Type.

(** The entries of a column in the rows where a boolean mask on the
    same index is [True], in their order. *)
Fixpoint filter_mask (mask : list bool) (c : Series V) : Series V :=
  match mask, c with
  | m :: ms, x :: xs =>
      if m then x :: filter_mask ms xs else filter_mask ms xs
  | _, _ => []
  end.

(** The selected rows out of every column. *)
Definition masked (mask : list bool) (df : DataFrame V) : DataFrame V :=
  map (fun kc => (fst kc, filter_mask mask (snd kc))) df.

(** [df.loc[mask]] for a boolean Series on the frame's index: the rows
    where the mask is [True], every column kept.  A boolean indexer of
    another length is refused. *)
Definition loc_rows (mask : list bool) (df : DataFrame V)
  : result (DataFrame V) :=
  if Nat.eqb (length mask) (shape0 df) then Ok (masked mask df)
  else Raise (IndexingError "Item wrong length").

(** [df.loc[mask, name]]: the column is looked up first ([KeyError]
    when there is none), then the mask selects among its entries. *)
Definition loc_rows_col (mask : list bool) (name : string) (df : DataFrame V)
  : result (Series V) :=
  (do c <- get_col name df;
   if Nat.eqb (length mask) (length c) then Ok (filter_mask mask c)
   else Raise (IndexingError "Item wrong length"))%py.

(** [s.head(n)] and [s.tail(n)] for [n >= 0]: the first and the last
    [n] entries, all of them when there are fewer. *)
Definition series_head (n : nat) (c : Series V) : Series V := firstn n c.

Definition series_tail (n : nat) (c : Series V) : Series V :=
  skipn (length c - n) c.

(** [df.head(n)] and [df.tail(n)]: the same rows out of every
    column. *)
Definition head (n : nat) (df : DataFrame V) : DataFrame V :=
  map (fun kc => (fst kc, series_head n (snd kc))) df.

Definition tail (n : nat) (df : DataFrame V) : DataFrame V :=
  map (fun kc => (fst kc, series_tail n (snd kc))) df.

(** The first record of a frame, and the frame of its remaining
    rows. *)
Definition first_row (na : V) (df : DataFrame V) : list (string * V) :=
  map (fun kc => (fst kc, hd na (snd kc))) df.

Definition rest_rows (df : DataFrame V) : DataFrame V :=
  map (fun kc => (fst kc, tl (snd kc))) df.

End WithCell.

(** The number of rows a mask selects. *)
Definition count_true (mask : list bool) : nat :=
  length (filter (fun t : bool => t) mask).

End Select.

(* ================================================================== *)
(** * Missing values, selections and operations (1_data_management.ipynb) *)
(* ================================================================== *)

Module DataManagement.

Import Frame NumPy Recode Select.

Local Open Scope float_scope.
Local Open Scope string_scope.
Local Open Scope list_scope.

(** ** Missing data *)

(** [np.isnan(x)] and [pd.isnull(x)] on a float64: the value is a
    NaN. *)
Definition isnan (x : float) : bool :=
  match Prim2SF x with
  | S754_nan => true
  | _ => false
  end.

(** [np.isfinite(x)]: neither NaN nor infinite. *)
Definition isfinite (x : float) : bool :=
  match Prim2SF x with
  | S754_zero _ | S754_finite _ _ _ => true
  | _ => false
  end.

(** [x == y] on two float64 values: the IEEE comparison. *)
Definition np_eq (x y : float) : bool := PrimFloat.eqb x y.

(** ** Masks *)

(** [c == k] on a float64 column, row by row. *)
Definition eq (c : Series float) (k : float) : list bool :=
  map (fun x => PrimFloat.eqb x k) c.

(** [a & b] on two boolean Series of one index. *)
Definition and_ (a b : list bool) : list bool := zip_with andb a b.

(** ** Row and column selection *)

(** [df.loc[df['art']==1]] *)
Definition treated (df : DataFrame float) : result (DataFrame float) :=
  (do art <- get_col "art" df;
   loc_rows (eq art 1) df)%py.

(** [df.loc[(df['art'] == 1) & (df['age0'] > 48)]] *)
Definition treated_above_48 (df : DataFrame float)
  : result (DataFrame float) :=
  (do art <- get_col "art" df;
   do age0 <- get_col "age0" df;
   loc_rows (and_ (eq art 1) (gt age0 48)) df)%py.

(** [df.loc[df['art'] == 1, 'cd40']] *)
Definition cd40_of_treated (df : DataFrame float) : result (Series float) :=
  (do art <- get_col "art" df;
   loc_rows_col (eq art 1) "cd40" df)%py.

(** [df[['art', 'dead']].tail(n)] *)
Definition art_dead_tail (n : nat) (df : DataFrame float)
  : result (DataFrame float) :=
  (do d <- select ["art"; "dead"] df;
   Ok (tail n d))%py.

(** ** Data operations *)

(** A column and a scalar, a column and a column: float64 arithmetic
    row by row.  [c ** 2] is NumPy's square, the product of the entry
    with itself. *)
Definition add_scalar (c : Series float) (k : float) : Series float :=
  map (fun x => x + k) c.
Definition div_scalar (c : Series float) (k : float) : Series float :=
  map (fun x => x / k) c.
Definition mul_scalar (c : Series float) (k : float) : Series float :=
  map (fun x => x * k) c.
Definition square (c : Series float) : Series float :=
  map (fun x => x * x) c.
Definition np_sqrt (c : Series float) : Series float :=
  map PrimFloat.sqrt c.
Definition add_series (a b : Series float) : Series float :=
  zip_with PrimFloat.add a b.

(** <<
    df['art_copy'] = df['art']
    df['cd4_plus5'] = df['cd40'] + 5
    df['cd4_div12'] = df['cd40'] / 12
    df['age_sq'] = df['age0']**2
    df['age_sqrt'] = np.sqrt(df['age0'])
    df['age_plus_cd4'] = df['age0'] + df['cd40']
    df['weird_age'] = (df['age0']*0.5)**2 + (df['cd40']/1000)
    >> *)
Definition data_operations (df : DataFrame float)
  : result (DataFrame float) :=
  (do art <- get_col "art" df;
   do df <- setitem "art_copy" art df;
   do cd40 <- get_col "cd40" df;
   do df <- setitem "cd4_plus5" (add_scalar cd40 5) df;
   do cd40 <- get_col "cd40" df;
   do df <- setitem "cd4_div12" (div_scalar cd40 12) df;
   do age0 <- get_col "age0" df;
   do df <- setitem "age_sq" (square age0) df;
   do age0 <- get_col "age0" df;
   do df <- setitem "age_sqrt" (np_sqrt age0) df;
   do age0 <- get_col "age0" df;
   do cd40 <- get_col "cd40" df;
   do df <- setitem "age_plus_cd4" (add_series age0 cd40) df;
   do age0 <- get_col "age0" df;
   do cd40 <- get_col "cd40" df;
   setitem "weird_age"
     (add_series (square (mul_scalar age0 0.5)) (div_scalar cd40 1000)) df)%py.

(** The labels the cell assigns, in the order of its statements. *)
Definition operation_labels : list string :=
  ["art_copy"; "cd4_plus5"; "cd4_div12"; "age_sq"; "age_sqrt";
   "age_plus_cd4"; "weird_age"].

(** ** The maximum of a column *)

(** [np.max(s)] on a Series, which is [s.max()]: the largest of the
    entries that are not missing, NaN when there is none. *)
Definition larger (m y : float) : float :=
  if PrimFloat.ltb m y then y else m.

Definition series_max (c : Series float) : float :=
  match filter (fun x => negb (isnan x)) c with
  | [] => nan
  | x :: xs => fold_left larger xs x
  end.

(** ** Filling missing values *)

Definition fill (v x : float) : float := if isnan x then v else x.

(** [df.fillna(v, inplace=True)]: the frame [df] names afterwards. *)
Definition fillna (v : float) (df : DataFrame float) : DataFrame float :=
  map (fun kc => (fst kc, map (fill v) (snd kc))) df.

(** ** Counting *)

(** The count [s.value_counts()] holds for the value [x]: the rows
    whose entry equals [x] (no count is held for a missing value). *)
Definition value_count (c : Series float) (x : float) : nat :=
  length (filter (fun a => PrimFloat.eqb a x) c).

(** Whether two entries are one value for [unique] and
    [value_counts]: equal, or both missing. *)
Definition same_value (x y : float) : bool :=
  PrimFloat.eqb x y || (isnan x && isnan y).

(** [s.unique()]: the distinct values in the order of their first
    appearance, a missing value among them when there is one. *)
Fixpoint unique_from (seen : list float) (c : Series float) : list float :=
  match c with
  | [] => []
  | x :: xs =>
      if existsb (same_value x) seen then unique_from seen xs
      else x :: unique_from (x :: seen) xs
  end.

Definition unique (c : Series float) : list float := unique_from [] c.

(** The values [s.value_counts()] holds a count for: the distinct
    values that are not missing (the order of the counts is not
    modelled).  They are also the labels of a [pd.crosstab] axis. *)
Definition value_labels (c : Series float) : list float :=
  filter (fun x => negb (isnan x)) (unique c).

(** [s.count()]: the entries that are not missing. *)
Definition count (c : Series float) : nat :=
  length (filter (fun x => negb (isnan x)) c).

(** The count [pd.crosstab(a, b)] holds in row [x], column [y]: the
    rows where [a] is [x] and [b] is [y].  The layout of the table
    (its sorted labels) is not modelled; a pair the table does not
    show has count 0. *)
Definition crosstab_count (a b : Series float) (x y : float) : nat :=
  length (filter (fun t => t)
            (zip_with (fun u v => PrimFloat.eqb u x && PrimFloat.eqb v y) a b)).

(** The rows where [a] is [x] and [b] is missing. *)
Definition missing_count (a b : Series float) (x : float) : nat :=
  length (filter (fun t => t)
            (zip_with (fun u v => PrimFloat.eqb u x && isnan v) a b)).

(** <<
    df.fillna(-99999, inplace=True)
    print(pd.crosstab(df['art'], df['dead']))
    >>
    at one cell of the table. *)
Definition missing_pattern_count (df : DataFrame float) (x y : float)
  : result nat :=
  (let df := fillna (-99999) df in
   do art <- get_col "art" df;
   do dead <- get_col "dead" df;
   Ok (crosstab_count art dead x y))%py.

(** ** Data to run the cells on *)

(** Four participants; a value is missing in every column. *)
Definition cohort : DataFrame float :=
  [("art", [1; 0; nan; 1]);
   ("age0", [52; 30; 47; nan]);
   ("cd40", [350; nan; 12; 80]);
   ("dead", [0; 1; nan; nan])].

End DataManagement.

(* ================================================================== *)
(** * The seeded cells of the simulation notebook *)
(* ================================================================== *)

Module Cells.

Import Frame NumPy Random Simulate.

Local Open Scope R_scope.
Local Open Scope string_scope.

(** [np.random.seed(k)] puts the global generator in a state that is a
    function of [k]. *)
Class Seedable (G : Type) : Type := {
  seed : Z -> G
}.

(** A column of zeros and ones. *)
Definition binary (l : list Z) : Prop :=
  Forall (fun a => a = 0%Z \/ a = 1%Z) l.

(** The probabilities [np.random.binomial] accepts. *)
Definition valid_p (p : R) : bool :=
  if Rle_dec 0 p then (if Rle_dec p 1 then true else false) else false.

Section WithGenerator.

Context {G : Type} {RV : RandomVariate G} {SD : Seedable G}.

Definition np_random_seed (k : Z) : M (World G) unit :=
  modify (fun w => mkWorld (seed k) (stdout w)).

(** [np.random.binomial(n=1, p=ps, size=len(ps))] with its check of the
    probabilities, which comes before any draw. *)
Definition np_random_binomial (ps : list R) : M (World G) (list Z) :=
  if forallb valid_p ps then draw (binomial ps)
  else raise (ValueError "p < 0, p > 1 or p is NaN").

(** The statements of the first cell that build the frame (the summary
    it prints afterwards with [df.info()] and [df.describe()] is not
    modelled), for a population size [n]:
    <<
    np.random.seed(1859031)
    df = pd.DataFrame()
    df['W'] = np.random.binomial(n=1, p=0.5, size=n)
    df['A'] = np.random.binomial(n=1, p=0.05 + 0.45*df['W'], size = n)
    >> *)
Definition treatment_by_W (n : nat) : M (World G) (DataFrame R) :=
  (np_random_seed 1859031 ;;;
   let df := empty R in
   w <- np_random_binomial (repeat 0.5 n) ;;
   df <- lift (setitem "W" (map IZR w) df) ;;
   cW <- lift (get_col "W" df) ;;
   a <- np_random_binomial (shift 0.05 (scale 0.45 cW)) ;;
   lift (setitem "A" (map IZR a) df))%eff.

(** The second cell:
    <<
    np.random.seed(1859031)
    df = pd.DataFrame()
    df['W'] = np.random.binomial(n=1, p=0.5, size=n)
    df['L'] = np.random.normal(size=n)
    df['A'] = np.random.binomial(n=1, p=logistic.cdf(-2.94 - 1.73*df['W'] - 1.93*df['L']), size=n)
    >> *)
Definition treatment_by_W_L (n : nat) : M (World G) (DataFrame R) :=
  (np_random_seed 1859031 ;;;
   let df := empty R in
   w <- np_random_binomial (repeat 0.5 n) ;;
   df <- lift (setitem "W" (map IZR w) df) ;;
   l <- draw (normal n) ;;
   df <- lift (setitem "L" l df) ;;
   cW <- lift (get_col "W" df) ;;
   cL <- lift (get_col "L" df) ;;
   a <- np_random_binomial
          (map logistic_cdf
             (ssub (rsub (-2.94) (scale 1.73 cW)) (scale 1.93 cL))) ;;
   lift (setitem "A" (map IZR a) df))%eff.

(** The third cell, with binary potential outcomes.  The integer
    columns are stored by their values; the observed outcome is
    computed on the integers, of [bits] bits.
    <<
    np.random.seed(1859031)
    df = pd.DataFrame()
    df['W'] = np.random.binomial(n=1, p=0.5, size=n)
    df['L'] = np.random.normal(size=n)
    df['A'] = np.random.binomial(n=1, p=logistic.cdf(-3 + 3*df['W'] - 1.5*df['L']), size=n)
    df['Y0'] = np.random.binomial(n=1, p=logistic.cdf(-3 + 3*df['W'] + 1.5*df['L']), size=n)
    df['Y1'] = np.random.binomial(n=1, p=logistic.cdf(-3 + 2.5 + 3*df['W'] + 1.5*df['L']), size=n)
    df['Y'] = df['A']*df['Y1'] + (1 - df['A'])*df['Y0']
    >> *)
Definition binary_outcomes (bits : Z) (n : nat) : M (World G) (DataFrame R) :=
  (np_random_seed 1859031 ;;;
   let df := empty R in
   w <- np_random_binomial (repeat 0.5 n) ;;
   df <- lift (setitem "W" (map IZR w) df) ;;
   l <- draw (normal n) ;;
   df <- lift (setitem "L" l df) ;;
   cW <- lift (get_col "W" df) ;;
   cL <- lift (get_col "L" df) ;;
   a <- np_random_binomial
          (map logistic_cdf
             (ssub (shift (-3) (scale 3 cW)) (scale 1.5 cL))) ;;
   df <- lift (setitem "A" (map IZR a) df) ;;
   cW <- lift (get_col "W" df) ;;
   cL <- lift (get_col "L" df) ;;
   y0 <- np_random_binomial
           (map logistic_cdf
              (sadd (shift (-3) (scale 3 cW)) (scale 1.5 cL))) ;;
   df <- lift (setitem "Y0" (map IZR y0) df) ;;
   cW <- lift (get_col "W" df) ;;
   cL <- lift (get_col "L" df) ;;
   y1 <- np_random_binomial
           (map logistic_cdf
              (sadd (shift (-3 + 2.5) (scale 3 cW)) (scale 1.5 cL))) ;;
   df <- lift (setitem "Y1" (map IZR y1) df) ;;
   lift (setitem "Y" (map IZR (observed_outcome_int bits a y1 y0)) df))%eff.

(** The population size of the notebook, [n = 10000]. *)
Definition notebook_n : nat := 100 * 100.

End WithGenerator.

(** Seeding the counter generator: the count starts at a number that
    is a function of the seed. *)
Definition counter_seed (k : Z) : nat := Z.to_nat (k mod 16).

End Cells.

(* ================================================================== *)
(** * Preparing the NHEFS data (Chapter 13) *)
(* ================================================================== *)

Module DataPrep.

Import Frame NumPy Select.

Local Open Scope R_scope.
Local Open Scope string_scope.
Local Open Scope list_scope.

(** Whether the entry of a column at a position is not missing. *)
Definition notna_at (i : nat) (c : Series cell) : bool :=
  match nth i c None with
  | Some _ => true
  | None => false
  end.

(** The rows that are complete on the listed columns, as a mask over
    [n] rows. *)
Definition complete_on (cols : list (Series cell)) (n : nat) : list bool :=
  map (fun i => forallb (notna_at i) cols) (seq 0 n).

(** [df.dropna(subset=names, inplace=True)]: the frame [df] names
    afterwards.  Labels that are no columns raise [KeyError] with the
    list of them; otherwise the rows with a missing value in one of the
    listed columns are dropped from every column. *)
Definition dropna (subset : list string) (df : DataFrame cell)
  : result (DataFrame cell) :=
  match filter (fun n => negb (has_col n df)) subset with
  | [] =>
      (do cols <- select subset df;
       loc_rows (complete_on (map snd cols) (shape0 df)) df)%py
  | unknown => Raise (KeyError (py_list unknown))
  end.

(** [c == k] on a column: a missing value equals nothing. *)
Definition eq (c : Series cell) (k : R) : list bool :=
  map (fun x => match x with
                | Some v => if Req_dec_T v k then true else false
                | None => false
                end) c.

(** [np.where(cond, a, b)] with two scalars. *)
Definition np_where (cond : list bool) (a b : cell) : Series cell :=
  map (fun t : bool => if t then a else b) cond.

(** What [np.where(c == level, 1, 0)] holds for an entry of [c]. *)
Definition level_code (level : R) (x : cell) : cell :=
  match x with
  | Some v => if Req_dec_T v level then Some 1 else Some 0
  | None => Some 0
  end.

(** What [c * c] holds for an entry of [c]. *)
Definition square_cell (x : cell) : cell := cmul x x.

(** [df[name] = np.where(df[source] == level, 1, 0)] *)
Definition recode_level (name source : string) (level : R)
    (df : DataFrame cell) : result (DataFrame cell) :=
  (do c <- get_col source df;
   setitem name (np_where (eq c level) (Some 1) (Some 0)) df)%py.

(** [df[col+'_sq'] = df[col] * df[col]] *)
Definition quadratic_term (col : string) (df : DataFrame cell)
  : result (DataFrame cell) :=
  (do a <- get_col col df;
   do b <- get_col col df;
   setitem (col ++ "_sq") (zip_with cmul a b) df)%py.

(** [for col in names: body]: the frame is rebound by every
    iteration; the first exception ends the loop. *)
Fixpoint for_each (body : string -> DataFrame cell -> result (DataFrame cell))
    (names : list string) (df : DataFrame cell) : result (DataFrame cell) :=
  match names with
  | [] => Ok df
  | n :: rest => (do df <- body n df; for_each body rest df)%py
  end.

(** The columns the cell requires to be complete, and the columns it
    squares. *)
Definition complete_columns : list string :=
  ["sex"; "age"; "race"; "wt82"; "ht"; "school"; "alcoholpy";
   "smokeintensity"].

Definition squared_columns : list string :=
  ["age"; "wt71"; "smokeintensity"; "smokeyrs"].

(** The labels the cell assigns. *)
Definition new_labels : list string :=
  ["inactive"; "no_exercise"; "university";
   "age_sq"; "wt71_sq"; "smokeintensity_sq"; "smokeyrs_sq"].

(** The columns the cell reads. *)
Definition required_columns : list string :=
  complete_columns ++ ["active"; "exercise"; "education"; "wt71"; "smokeyrs"].

(** The data-preparation cell, from the frame [pd.read_csv] returned:
    <<
    df.dropna(subset=['sex', 'age', 'race', 'wt82', 'ht',
                      'school', 'alcoholpy', 'smokeintensity'],
             inplace=True)
    df['inactive'] = np.where(df['active'] == 2, 1, 0)
    df['no_exercise'] = np.where(df['exercise'] == 2, 1, 0)
    df['university'] = np.where(df['education'] == 5, 1, 0)
    for col in ['age', 'wt71', 'smokeintensity', 'smokeyrs']:
        df[col+'_sq'] = df[col] * df[col]
    >> *)
Definition prepare (df : DataFrame cell) : result (DataFrame cell) :=
  (do df <- dropna complete_columns df;
   do df <- recode_level "inactive" "active" 2 df;
   do df <- recode_level "no_exercise" "exercise" 2 df;
   do df <- recode_level "university" "education" 5 df;
   for_each quadratic_term squared_columns df)%py.

(** ** Data to run the cell on *)

(** Three participants with the columns the cell reads.  The second
    has no recorded height; the third has no recorded activity. *)
Definition nhefs_sample : DataFrame cell :=
  [("sex", [Some 0; Some 1; Some 1]);
   ("age", [Some 42; Some 36; Some 56]);
   ("race", [Some 1; Some 0; Some 1]);
   ("wt82", [Some 68; Some 61; Some 66]);
   ("ht", [Some 174; None; Some 168]);
   ("school", [Some 7; Some 9; Some 11]);
   ("alcoholpy", [Some 1; Some 1; Some 0]);
   ("smokeintensity", [Some 30; Some 20; Some 20]);
   ("active", [Some 0; Some 2; None]);
   ("exercise", [Some 2; Some 0; Some 2]);
   ("education", [Some 1; Some 2; Some 5]);
   ("wt71", [Some 79; Some 58; Some 56]);
   ("smokeyrs", [Some 29; Some 24; Some 26])].

End DataPrep.

(* ################################################################## *)
(** * Properties *)
(* ################################################################## *)

(* ================================================================== *)
(** * Facts about frames *)
(* ================================================================== *)

Module FrameFacts.

Import Frame.

Section WithCell.

Variable V : Type.

Implicit Types (df : DataFrame V) (c : Series V) (name : string).

Lemma get_col_put_col_same name c df :
  get_col name (put_col name c df) = Ok c.
Proof.
  induction df as [|[k old] rest IH]; simpl.
  - now rewrite String.eqb_refl.
  - destruct (String.eqb k name) eqn:E; simpl; rewrite E; auto.
Qed.

Lemma get_col_put_col_other name other c df :
  name <> other ->
  get_col other (put_col name c df) = get_col other df.
Proof.
  intros Hne. induction df as [|[k old] rest IH]; simpl.
  - destruct (String.eqb name other) eqn:E; auto.
    apply String.eqb_eq in E. contradiction.
  - destruct (String.eqb k name) eqn:E; simpl.
    + apply String.eqb_eq in E. subst k.
      destruct (String.eqb name other) eqn:E'; auto.
      apply String.eqb_eq in E'. contradiction.
    + now rewrite IH.
Qed.

Lemma put_col_put_col_same name c c' df :
  put_col name c' (put_col name c df) = put_col name c' df.
Proof.
  induction df as [|[k old] rest IH]; simpl.
  - now rewrite String.eqb_refl.
  - destruct (String.eqb k name) eqn:E; simpl; rewrite E; auto.
    now rewrite IH.
Qed.

Lemma shape0_put_col name c df :
  length c = shape0 df -> shape0 (put_col name c df) = shape0 df.
Proof.
  destruct df as [|[k old] rest]; simpl; auto.
  destruct (String.eqb k name); simpl; auto.
Qed.

Lemma get_col_In name c df :
  get_col name df = Ok c -> In (name, c) df.
Proof.
  induction df as [|[k old] rest IH]; simpl; [discriminate|].
  destruct (String.eqb k name) eqn:E.
  - apply String.eqb_eq in E. intros [= ->]. subst. now left.
  - intros H. right. auto.
Qed.

Lemma rectangular_get_col name c df :
  rectangular df -> get_col name df = Ok c -> length c = shape0 df.
Proof.
  intros R H. apply get_col_In in H.
  unfold rectangular in R. rewrite Forall_forall in R.
  exact (R _ H).
Qed.

Lemma Forall_length_put_col name c df (n : nat) :
  Forall (fun kc => length (snd kc) = n) df ->
  length c = n ->
  Forall (fun kc => length (snd kc) = n) (put_col name c df).
Proof.
  intros R Hc. induction R as [|[k old] rest Hk R IH]; simpl.
  - constructor; auto.
  - destruct (String.eqb k name); constructor; auto.
Qed.

Lemma rectangular_put_col name c df :
  rectangular df -> length c = shape0 df -> rectangular (put_col name c df).
Proof.
  intros R Hc. unfold rectangular.
  rewrite (shape0_put_col name c df Hc).
  now apply Forall_length_put_col.
Qed.


(** ** Taking rows by position *)

Lemma take_values_in_range (idx : list nat) c (d : V) :
  Forall (fun i => i < length c) idx ->
  take_values idx c = Ok (map (fun i => nth i c d) idx).
Proof.
  induction 1 as [|i idx Hi _ IH]; simpl; [reflexivity|].
  rewrite IH.
  destruct (nth_error c i) as [v|] eqn:E.
  - now rewrite (nth_error_nth c i d E).
  - apply nth_error_None in E. lia.
Qed.

Lemma take_rows_in_range (idx : list nat) df (d : V) :
  rectangular df ->
  Forall (fun i => i < shape0 df) idx ->
  take_rows idx df = Ok (taken d idx df).
Proof.
  unfold rectangular. generalize (shape0 df) as n. intros n R Hidx.
  induction R as [|[k c] rest Hc R IH]; simpl; [reflexivity|].
  simpl in Hc.
  rewrite (@take_values_in_range idx c d) by now rewrite Hc.
  now rewrite IH.
Qed.

Lemma columns_taken (d : V) idx df : columns (taken d idx df) = columns df.
Proof. unfold columns, taken. rewrite map_map. reflexivity. Qed.

Lemma shape0_taken (d : V) idx df :
  df <> [] -> shape0 (taken d idx df) = length idx.
Proof.
  destruct df as [|[k c] rest]; [congruence|]. intros _. simpl.
  now rewrite length_map.
Qed.

Lemma rectangular_taken (d : V) idx df : rectangular (taken d idx df).
Proof.
  unfold rectangular.
  destruct df as [|[k c] rest]; [constructor|].
  rewrite shape0_taken by discriminate.
  unfold taken. apply Forall_map. apply Forall_forall. intros kc _. simpl.
  now rewrite length_map.
Qed.

(** A taken row is the whole record at the position drawn for it. *)
Lemma row_at_taken (d : V) idx df (i : nat) :
  i < length idx ->
  row_at d i (taken d idx df) = row_at d (nth i idx 0) df.
Proof.
  intros Hi. unfold row_at, taken. rewrite map_map.
  apply map_ext. intros [k c]. simpl. f_equal.
  rewrite (nth_indep _ d ((fun j => nth j c d) 0)) by now rewrite length_map.
  apply (map_nth (fun j => nth j c d)).
Qed.

Lemma row_at_in_rows (d : V) df (i : nat) :
  i < shape0 df -> In (row_at d i df) (rows d df).
Proof.
  intros Hi. unfold rows.
  apply (in_map (fun j => row_at d j df)). apply in_seq. lia.
Qed.

End WithCell.

End FrameFacts.

(* ================================================================== *)
(** * The two recoding idioms agree *)
(* ================================================================== *)

Module RecodeFacts.

Import Frame FrameFacts Recode.

Local Open Scope float_scope.
Local Open Scope string_scope.

(** ** IEEE comparison facts *)

Lemma SFcompare_antisym (x y : spec_float) :
  SFcompare y x = option_map CompOpp (SFcompare x y).
Proof.
  destruct x as [s1|s1| |s1 m1 e1], y as [s2|s2| |s2 m2 e2]; simpl;
    try reflexivity;
    try (destruct s1; reflexivity); try (destruct s2; reflexivity);
    try (destruct s1, s2; reflexivity).
  destruct s1, s2; simpl; try reflexivity;
    rewrite (Z.compare_antisym e1 e2);
    destruct (e1 ?= e2)%Z; simpl; try reflexivity;
    change (PosDef.Pos.compare_cont Eq m2 m1) with (Pos.compare m2 m1);
    change (PosDef.Pos.compare_cont Eq m1 m2) with (Pos.compare m1 m2);
    rewrite (Pos.compare_antisym m1 m2); reflexivity.
Qed.

Lemma SFcompare_unordered (x y : spec_float) :
  SFcompare x y = None -> x = S754_nan \/ y = S754_nan.
Proof. destruct x, y; simpl; try discriminate; auto. Qed.

Lemma nan_unique (x : float) : Prim2SF x = S754_nan -> x = nan.
Proof. intros H. rewrite <- (SF2Prim_Prim2SF x), H. reflexivity. Qed.

(** A value above the threshold is not at most the threshold. *)
Lemma above_not_le (k x : float) :
  PrimFloat.ltb k x = true -> PrimFloat.leb x k = false.
Proof.
  rewrite ltb_spec, leb_spec. unfold SFltb, SFleb.
  rewrite (SFcompare_antisym (Prim2SF k) (Prim2SF x)).
  destruct (SFcompare (Prim2SF k) (Prim2SF x)) as [[ | | ]|];
    simpl; congruence.
Qed.

(** Only a missing value fails both comparisons against a number. *)
Lemma unordered_is_nan (k x : float) :
  Prim2SF k <> S754_nan ->
  PrimFloat.ltb k x = false -> PrimFloat.leb x k = false -> x = nan.
Proof.
  intros Hk. rewrite ltb_spec, leb_spec. unfold SFltb, SFleb.
  rewrite (SFcompare_antisym (Prim2SF k) (Prim2SF x)).
  destruct (SFcompare (Prim2SF k) (Prim2SF x)) as [[ | | ]|] eqn:E;
    simpl; try congruence.
  intros _ _. apply nan_unique.
  destruct (SFcompare_unordered _ _ E); congruence.
Qed.

Lemma fifty_is_number : Prim2SF 50 <> S754_nan.
Proof. vm_compute. discriminate. Qed.

(** ** The columns each idiom builds *)

Lemma where_zip_gt (k : float) (c : Series float) :
  where_zip (gt c k) k c = map (fun x => if PrimFloat.ltb k x then k else x) c.
Proof. induction c as [|x c IH]; simpl; [reflexivity | now rewrite IH]. Qed.

Lemma mask_scalar_new (k : float) (c : Series float) :
  mask_scalar (gt c k) k (repeat nan (length c))
  = map (fun x => if PrimFloat.ltb k x then k else nan) c.
Proof. induction c as [|x c IH]; simpl; [reflexivity | now rewrite IH]. Qed.

Lemma mask_series_le (k : float) (c : Series float) :
  Prim2SF k <> S754_nan ->
  mask_series (le c k) c
    (map (fun x => if PrimFloat.ltb k x then k else nan) c)
  = map (fun x => if PrimFloat.ltb k x then k else x) c.
Proof.
  intros Hk. induction c as [|x c IH]; simpl; [reflexivity|].
  rewrite IH. f_equal.
  destruct (PrimFloat.ltb k x) eqn:G, (PrimFloat.leb x k) eqn:L; auto.
  - apply above_not_le in G. congruence.
  - symmetry. exact (unordered_is_nan Hk G L).
Qed.

Lemma gt_length (c : Series float) k : length (gt c k) = length c.
Proof. apply length_map. Qed.

Lemma le_length (c : Series float) k : length (le c k) = length c.
Proof. apply length_map. Qed.

Lemma recode_numpy_run (df : DataFrame float) (c : Series float) :
  rectangular df ->
  get_col "age0" df = Ok c ->
  recode_numpy df = Ok (put_col "age2_numpy" (map cap50 c) df).
Proof.
  intros R Hc.
  pose proof (@rectangular_get_col _ _ _ _ R Hc) as Hlen.
  unfold recode_numpy. rewrite Hc. simpl.
  unfold np_where. rewrite gt_length, Nat.eqb_refl. simpl.
  rewrite where_zip_gt. unfold setitem.
  destruct df as [|kc rest]; [discriminate|].
  rewrite length_map, Hlen, Nat.eqb_refl. reflexivity.
Qed.

Lemma recode_pandas_run (df : DataFrame float) (c : Series float) :
  rectangular df ->
  get_col "age0" df = Ok c ->
  has_col "age2_pandas" df = false ->
  shape0 df <> 0%nat ->
  recode_pandas df = Ok (put_col "age2_pandas" (map cap50 c) df).
Proof.
  intros R Hc Hnew Hrows.
  pose proof (@rectangular_get_col _ _ _ _ R Hc) as Hlen.
  assert (Hnew' := Hnew). unfold has_col in Hnew.
  destruct (get_col "age2_pandas" df) as [?|e] eqn:Hp; [discriminate|].
  set (col1 := map (fun x => if PrimFloat.ltb 50 x then 50 else nan) c).
  assert (H1 : loc_set_scalar nan (gt c 50) "age2_pandas" 50 df
               = Ok (put_col "age2_pandas" col1 df)).
  { unfold loc_set_scalar, column_or_new.
    rewrite gt_length, Hlen, Nat.eqb_refl, Hnew'.
    apply Nat.eqb_neq in Hrows. rewrite Hrows. cbn [negb andb].
    rewrite Hp, <- Hlen.
    now rewrite mask_scalar_new. }
  assert (L1 : length col1 = shape0 df).
  { unfold col1. now rewrite length_map. }
  unfold recode_pandas. rewrite Hc. simpl. rewrite H1. simpl.
  rewrite get_col_put_col_other by discriminate.
  rewrite Hc. simpl.
  unfold loc_set_series, column_or_new.
  rewrite (shape0_put_col _ _ _ L1).
  rewrite le_length, Hlen, Nat.eqb_refl.
  rewrite get_col_put_col_same.
  unfold col1. rewrite mask_series_le by apply fifty_is_number.
  now rewrite put_col_put_col_same.
Qed.

(** On a frame without rows the first masked assignment cannot create
    the column: the [.loc] cell raises, where the [np.where] cell
    builds an empty column. *)
Lemma recode_pandas_no_rows (df : DataFrame float) (c : Series float) :
  rectangular df ->
  get_col "age0" df = Ok c ->
  has_col "age2_pandas" df = false ->
  shape0 df = 0%nat ->
  recode_pandas df
  = Raise (ValueError "cannot set a frame with no defined index and a scalar").
Proof.
  intros R Hc Hnew Hrows.
  pose proof (@rectangular_get_col _ _ _ _ R Hc) as Hlen.
  unfold recode_pandas. rewrite Hc. cbn [rbind].
  unfold loc_set_scalar.
  now rewrite gt_length, Hlen, Nat.eqb_refl, Hnew, Hrows.
Qed.

(** C9.  On a frame with at least one row whose column [age0] is [c]
    and that has no column [age2_pandas] yet, the [np.where] cell and
    the two masked [.loc] assignments both succeed and build the same
    column, entry by entry: [50] where the entry is above 50, the
    entry itself where it is at most 50, and a missing entry (NaN, for
    which both [>] and [<=] are false) where the entry is missing.
    Run one after the other, as in the notebook, they leave the two
    equal columns in one frame.  On a frame without rows the idioms
    part: [np.where] builds an empty column, the first [.loc]
    assignment raises [ValueError]. *)
Theorem recode_idioms_agree (df : DataFrame float) (c : Series float) :
  rectangular df ->
  get_col "age0" df = Ok c ->
  has_col "age2_pandas" df = false ->
  (shape0 df <> 0%nat ->
   exists d1 d2 d col,
     recode_numpy df = Ok d1 /\ recode_pandas df = Ok d2 /\
     recode_pandas d1 = Ok d /\
     get_col "age2_numpy" d1 = Ok col /\
     get_col "age2_pandas" d2 = Ok col /\
     get_col "age2_numpy" d = Ok col /\
     get_col "age2_pandas" d = Ok col /\
     col = map cap50 c /\
     (forall x, PrimFloat.ltb 50 x = true -> cap50 x = 50) /\
     (forall x, PrimFloat.leb x 50 = true -> cap50 x = x) /\
     (PrimFloat.ltb 50 nan = false /\ PrimFloat.leb nan 50 = false /\
      cap50 nan = nan)) /\
  (shape0 df = 0%nat ->
   c = [] /\
   recode_numpy df = Ok (put_col "age2_numpy" [] df) /\
   recode_pandas df
   = Raise (ValueError
              "cannot set a frame with no defined index and a scalar")).
Proof.
  intros R Hc Hnew.
  pose proof (@rectangular_get_col _ _ _ _ R Hc) as Hlen.
  split.
  2:{ intros Hrows.
      assert (Hnil : c = []).
      { rewrite Hrows in Hlen. now destruct c. }
      split; [exact Hnil|]. split.
      - rewrite (recode_numpy_run R Hc). now rewrite Hnil.
      - now apply (recode_pandas_no_rows R Hc). }
  intros Hrows.
  set (col := map cap50 c).
  assert (Lcol : length col = shape0 df) by (unfold col; now rewrite length_map).
  set (d1 := put_col "age2_numpy" col df).
  assert (R1 : rectangular d1) by now apply rectangular_put_col.
  assert (C1 : get_col "age0" d1 = Ok c).
  { unfold d1. now rewrite get_col_put_col_other by discriminate. }
  assert (N1 : has_col "age2_pandas" d1 = false).
  { unfold has_col, d1 in *.
    now rewrite get_col_put_col_other by discriminate. }
  exists d1, (put_col "age2_pandas" col df), (put_col "age2_pandas" col d1), col.
  assert (S1 : shape0 d1 <> 0%nat).
  { unfold d1. now rewrite (shape0_put_col _ _ _ Lcol). }
  split; [now apply recode_numpy_run|].
  split; [now apply recode_pandas_run|].
  split; [now apply recode_pandas_run|].
  split; [apply get_col_put_col_same|].
  split; [apply get_col_put_col_same|].
  split.
  { rewrite get_col_put_col_other by discriminate.
    apply get_col_put_col_same. }
  split; [apply get_col_put_col_same|].
  split; [reflexivity|].
  split.
  { intros x H. unfold cap50. now rewrite H. }
  split.
  { intros x H. unfold cap50.
    destruct (PrimFloat.ltb 50 x) eqn:G; auto.
    apply above_not_le in G. congruence. }
  repeat split.
Qed.

Example recode_numpy_ages :
  recode_numpy ages
  = Ok [("id", [1; 2; 3; 4]); ("age0", [49; 62; nan; 50]);
        ("age2_numpy", [49; 50; nan; 50])].
Proof. reflexivity. Qed.

Example recode_pandas_ages :
  recode_pandas ages
  = Ok [("id", [1; 2; 3; 4]); ("age0", [49; 62; nan; 50]);
        ("age2_pandas", [49; 50; nan; 50])].
Proof. reflexivity. Qed.

(** On the frame without rows the two idioms part: [np.where] builds
    an empty column, the first masked assignment raises, so the two
    cells do not both produce a column. *)
Lemma recode_idioms_part_on_no_rows :
  recode_numpy no_ages = Ok [("age0", []); ("age2_numpy", [])] /\
  recode_pandas no_ages
  = Raise (ValueError "cannot set a frame with no defined index and a scalar") /\
  ~ (exists d1 d2 col,
        recode_numpy no_ages = Ok d1 /\ recode_pandas no_ages = Ok d2 /\
        get_col "age2_numpy" d1 = Ok col /\
        get_col "age2_pandas" d2 = Ok col).
Proof.
  split; [reflexivity|]. split; [reflexivity|].
  intros (d1 & d2 & col & _ & H & _). discriminate H.
Qed.

Lemma recode_idioms_agree_witness :
  exists d1 d2 d col,
    recode_numpy ages = Ok d1 /\ recode_pandas ages = Ok d2 /\
    recode_pandas d1 = Ok d /\
    get_col "age2_numpy" d1 = Ok col /\
    get_col "age2_pandas" d2 = Ok col /\
    get_col "age2_numpy" d = Ok col /\
    get_col "age2_pandas" d = Ok col /\
    col = map cap50 [49; 62; nan; 50] /\
    (forall x, PrimFloat.ltb 50 x = true -> cap50 x = 50) /\
    (forall x, PrimFloat.leb x 50 = true -> cap50 x = x) /\
    (PrimFloat.ltb 50 nan = false /\ PrimFloat.leb nan 50 = false /\
     cap50 nan = nan).
Proof.
  apply (@recode_idioms_agree ages [49; 62; nan; 50]).
  - repeat constructor.
  - reflexivity.
  - reflexivity.
  - discriminate.
Defined.

End RecodeFacts.

(* ================================================================== *)
(** * The random-variate collaborator: draws and an instance *)
(* ================================================================== *)

Module RandomFacts.

Import Random.

Lemma counter_binomial1_range (p : R) (g : nat) :
  fst (counter_binomial1 p g) = 0%Z \/ fst (counter_binomial1 p g) = 1%Z.
Proof.
  unfold counter_binomial1, fst.
  assert (H : (g mod 2 < 2)%nat) by (apply Nat.mod_upper_bound; lia).
  destruct (g mod 2)%nat as [|[|k]]; [now left | now right | lia].
Qed.

Lemma counter_randint1_range (n g : nat) :
  (0 < n)%nat -> (fst (counter_randint1 n g) < n)%nat.
Proof. intros H. unfold counter_randint1, fst. apply Nat.mod_upper_bound. lia. Qed.

#[export] Instance counter_generator : RandomVariate nat := {|
  binomial1 := counter_binomial1;
  normal1 := counter_normal1;
  randint1 := counter_randint1;
  binomial1_range := counter_binomial1_range;
  randint1_range := counter_randint1_range
|}.

Lemma tape_binomial1_range (p : R) (t : list nat) :
  fst (tape_binomial1 p t) = 0%Z \/ fst (tape_binomial1 p t) = 1%Z.
Proof. now left. Qed.

Lemma tape_randint1_range (n : nat) (t : list nat) :
  (0 < n)%nat -> (fst (tape_randint1 n t) < n)%nat.
Proof. intros H. unfold tape_randint1, fst. apply Nat.mod_upper_bound. lia. Qed.

Definition tape_generator : RandomVariate (list nat) := {|
  binomial1 := tape_binomial1;
  normal1 := tape_normal1;
  randint1 := tape_randint1;
  binomial1_range := tape_binomial1_range;
  randint1_range := tape_randint1_range
|}.

Section Draws.

Context {G : Type} {RV : RandomVariate G}.

Lemma binomial_length (ps : list R) (g : G) :
  length (fst (binomial ps g)) = length ps.
Proof.
  revert g. induction ps as [|p ps IH]; intros g; simpl; [reflexivity|].
  destruct (binomial1 p g) as [a g1].
  specialize (IH g1). destruct (binomial ps g1) as [rest g2].
  simpl in *. now rewrite IH.
Qed.

Lemma binomial_values (ps : list R) (g : G) :
  Forall (fun a => a = 0%Z \/ a = 1%Z) (fst (binomial ps g)).
Proof.
  revert g. induction ps as [|p ps IH]; intros g; simpl; [constructor|].
  pose proof (binomial1_range p g) as Hr.
  destruct (binomial1 p g) as [a g1].
  specialize (IH g1). destruct (binomial ps g1) as [rest g2].
  simpl in *. constructor; assumption.
Qed.

Lemma normal_length (n : nat) (g : G) :
  length (fst (normal n g)) = n.
Proof.
  revert g. induction n as [|n IH]; intros g; simpl; [reflexivity|].
  destruct (normal1 g) as [x g1].
  specialize (IH g1). destruct (normal n g1) as [rest g2].
  simpl in *. now rewrite IH.
Qed.

Lemma randint_length (bound size : nat) (g : G) :
  length (fst (randint bound size g)) = size.
Proof.
  revert g. induction size as [|n IH]; intros g; simpl; [reflexivity|].
  destruct (randint1 bound g) as [x g1].
  specialize (IH g1). destruct (randint bound n g1) as [rest g2].
  simpl in *. now rewrite IH.
Qed.

Lemma randint_values (bound size : nat) (g : G) :
  (0 < bound)%nat ->
  Forall (fun i => (i < bound)%nat) (fst (randint bound size g)).
Proof.
  intros Hb. revert g.
  induction size as [|n IH]; intros g; simpl; [constructor|].
  pose proof (@randint1_range _ _ bound g Hb) as Hr.
  destruct (randint1 bound g) as [x g1].
  specialize (IH g1). destruct (randint bound n g1) as [rest g2].
  simpl in *. constructor; assumption.
Qed.

(** The indices are the successive draws, and the generator is left
    after the last of them. *)
Lemma randint_draws (bound size : nat) (g : G) :
  snd (randint bound size g) = after_draws bound size g /\
  forall k, (k < size)%nat ->
    nth k (fst (randint bound size g)) 0%nat
    = fst (randint1 bound (after_draws bound k g)).
Proof.
  revert g. induction size as [|n IH]; intros g.
  - split; [reflexivity | intros k Hk; lia].
  - cbn [randint after_draws].
    destruct (randint1 bound g) as [i g1] eqn:E1.
    destruct (IH g1) as [IHs IHn].
    destruct (randint bound n g1) as [rest g2] eqn:E2.
    cbn [fst snd] in *. split; [exact IHs|].
    intros [|k] Hk; cbn [nth after_draws].
    + now rewrite E1.
    + rewrite E1. cbn [snd]. apply IHn. lia.
Qed.

End Draws.

(** The tape generator replays its tape: every vector of indices below
    the bound is drawn by some generator. *)
Lemma tape_replays (bound : nat) (v : list nat) :
  Forall (fun i => (i < bound)%nat) v ->
  fst (@randint (list nat) tape_generator bound (length v) v) = v.
Proof.
  induction 1 as [|i v Hi _ IH]; [reflexivity|].
  cbn [length randint randint1 tape_generator tape_randint1 hd tl].
  destruct (randint bound (length v) v) as [rest g2].
  cbn [fst] in *. rewrite IH. now rewrite Nat.mod_small.
Qed.

(** ** The law of the index draws *)

Section Law.

Local Open Scope nat_scope.

Lemma favourable_flat_map {A B} (ev : B -> bool) (f : A -> list B) (l : list A) :
  favourable ev (flat_map f l)
  = list_sum (map (fun x => favourable ev (f x)) l).
Proof.
  unfold favourable. induction l as [|x l IH]; simpl; [reflexivity|].
  now rewrite filter_app, length_app, IH.
Qed.

Lemma sum_indicator (c j a b : nat) :
  a <= j < a + b ->
  list_sum (map (fun i => if Nat.eqb i j then c else 0) (seq a b)) = c.
Proof.
  revert a. induction b as [|b IH]; intros a H; [lia|].
  simpl. destruct (Nat.eqb a j) eqn:E.
  - apply Nat.eqb_eq in E. subst a.
    assert (Z : forall b a, j < a ->
              list_sum (map (fun i => if Nat.eqb i j then c else 0) (seq a b)) = 0).
    { clear. intros b. induction b as [|b IH]; intros a H; simpl; [reflexivity|].
      destruct (Nat.eqb a j) eqn:E; [apply Nat.eqb_eq in E; lia|].
      apply IH. lia. }
    rewrite Z by lia. lia.
  - apply Nat.eqb_neq in E. rewrite IH by lia. reflexivity.
Qed.

Lemma sum_constant (c a b : nat) :
  list_sum (map (fun _ => c) (seq a b)) = b * c.
Proof.
  revert a. induction b as [|b IH]; intros a; simpl; [reflexivity|].
  now rewrite IH.
Qed.

Lemma randint_law_length (bound size : nat) :
  length (randint_law bound size) = bound ^ size.
Proof.
  induction size as [|n IH]; simpl; [reflexivity|].
  rewrite (flat_map_constant_length (c := bound ^ n)).
  - unfold randint1_law. now rewrite length_seq.
  - intros i _. now rewrite length_map.
Qed.

Lemma randint_law_In (bound size : nat) (v : list nat) :
  In v (randint_law bound size)
  <-> length v = size /\ Forall (fun i => i < bound) v.
Proof.
  revert v. induction size as [|n IH]; intros v; simpl.
  - split.
    + intros [<- | []]. split; [reflexivity | constructor].
    + intros [L _]. left. destruct v; [reflexivity | discriminate].
  - rewrite in_flat_map. unfold randint1_law. split.
    + intros (i & Hi & Hv). apply in_seq in Hi.
      apply in_map_iff in Hv. destruct Hv as (w & <- & Hw).
      apply IH in Hw. destruct Hw as [L F]. simpl. split; [now rewrite L|].
      constructor; [lia | assumption].
    + intros [L F]. destruct v as [|i w]; [discriminate|].
      exists i. inversion F; subst. split; [apply in_seq; lia|].
      apply in_map. apply IH. split; [now injection L | assumption].
Qed.

Lemma favourable_cons_head (i j : nat) (L : list (list nat)) :
  favourable (draw_is 0 j) (map (cons i) L)
  = if Nat.eqb i j then length L else 0.
Proof.
  unfold favourable, draw_is.
  induction L as [|w L IH]; simpl.
  - now destruct (Nat.eqb i j).
  - destruct (Nat.eqb i j); simpl; [now rewrite IH | exact IH].
Qed.

Lemma favourable_cons_tail (i k j : nat) (L : list (list nat)) :
  favourable (draw_is (S k) j) (map (cons i) L)
  = favourable (draw_is k j) L.
Proof.
  unfold favourable, draw_is.
  induction L as [|w L IH]; simpl; [reflexivity|].
  destruct (Nat.eqb (nth k w 0) j); simpl; now rewrite IH.
Qed.

Lemma favourable_cons_vector (i i' : nat) (v : list nat) (L : list (list nat)) :
  favourable (draws_are (i :: v)) (map (cons i') L)
  = if Nat.eqb i' i then favourable (draws_are v) L else 0.
Proof.
  unfold favourable.
  assert (H : forall w, draws_are (i :: v) (i' :: w)
                        = Nat.eqb i' i && draws_are v w).
  { intros w. unfold draws_are.
    destruct (list_eq_dec Nat.eq_dec (i' :: w) (i :: v)) as [E | E].
    - injection E as -> ->. rewrite Nat.eqb_refl.
      now destruct (list_eq_dec Nat.eq_dec v v).
    - destruct (Nat.eqb i' i) eqn:Ei; [|reflexivity].
      apply Nat.eqb_eq in Ei. subst i'.
      destruct (list_eq_dec Nat.eq_dec w v); [congruence | reflexivity]. }
  induction L as [|w L IH]; cbn [map filter length].
  - now destruct (Nat.eqb i' i).
  - rewrite H. destruct (Nat.eqb i' i); cbn [andb].
    + destruct (draws_are v w); cbn [length]; now rewrite IH.
    + exact IH.
Qed.

(** Each position is each index in the same number of outcomes. *)
Lemma marginal_count (bound size k j : nat) :
  k < size -> j < bound ->
  favourable (draw_is k j) (randint_law bound size) = bound ^ (size - 1).
Proof.
  revert k. induction size as [|n IH]; intros k Hk Hj; [lia|].
  simpl randint_law. rewrite favourable_flat_map. unfold randint1_law.
  replace (S n - 1) with n by lia.
  destruct k as [|k].
  - rewrite (map_ext _ (fun i => if Nat.eqb i j then bound ^ n else 0)).
    + apply sum_indicator. lia.
    + intros i. now rewrite favourable_cons_head, randint_law_length.
  - rewrite (map_ext _ (fun _ => bound ^ (n - 1))).
    + rewrite sum_constant. destruct n as [|n]; [lia|].
      simpl. now rewrite Nat.sub_0_r.
    + intros i. rewrite favourable_cons_tail. apply IH; lia.
Qed.

(** Each vector of indices below the bound is one outcome, once. *)
Lemma joint_count (bound size : nat) (v : list nat) :
  length v = size -> Forall (fun i => i < bound) v ->
  favourable (draws_are v) (randint_law bound size) = 1.
Proof.
  revert v. induction size as [|n IH]; intros v L F.
  - destruct v; [reflexivity | discriminate].
  - destruct v as [|i v]; [discriminate|]. inversion F; subst.
    simpl randint_law. rewrite favourable_flat_map. unfold randint1_law.
    rewrite (map_ext _ (fun i' => if Nat.eqb i' i then 1 else 0)).
    + apply sum_indicator. lia.
    + intros i'. rewrite favourable_cons_vector.
      rewrite IH; [reflexivity | now injection L | assumption].
Qed.


Local Open Scope R_scope.

(** Each draw is uniform over the indices below the bound. *)
Lemma marginal_prob (bound size k j : nat) :
  (k < size)%nat -> (j < bound)%nat ->
  prob (draw_is k j) (randint_law bound size) = 1 / INR bound.
Proof.
  intros Hk Hj. unfold prob.
  rewrite marginal_count, randint_law_length by assumption.
  destruct size as [|n]; [lia|]. replace (S n - 1)%nat with n by lia.
  rewrite !pow_INR. simpl.
  assert (Hb : INR bound <> 0) by (apply not_0_INR; lia).
  field. split; [|apply pow_nonzero]; assumption.
Qed.

(** Every vector of indices has the same probability. *)
Lemma joint_prob (bound size : nat) (v : list nat) :
  length v = size -> Forall (fun i => (i < bound)%nat) v ->
  prob (draws_are v) (randint_law bound size) = (1 / INR bound) ^ size.
Proof.
  intros L F. unfold prob.
  rewrite joint_count, randint_law_length by assumption.
  rewrite pow_INR. simpl INR.
  unfold Rdiv. rewrite !Rmult_1_l. now rewrite pow_inv.
Qed.

(** That probability is the product of the probabilities of its
    entries, draw by draw: the draws are independent. *)
Lemma product_of_marginals (bound size : nat) (v : list nat) :
  length v = size -> Forall (fun i => (i < bound)%nat) v ->
  fold_right Rmult 1
    (map (fun k => prob (draw_is k (nth k v 0%nat)) (randint_law bound size))
       (seq 0 size))
  = (1 / INR bound) ^ size.
Proof.
  intros L F.
  rewrite (map_ext_in _ (fun _ => 1 / INR bound)).
  - generalize 0%nat. clear. induction size as [|n IH]; intros a; simpl;
      [reflexivity | now rewrite IH].
  - intros k Hk. apply in_seq in Hk. apply marginal_prob; [lia|].
    rewrite Forall_forall in F. apply F. apply nth_In. lia.
Qed.

End Law.

End RandomFacts.

(* ================================================================== *)
(** * Facts about arrays *)
(* ================================================================== *)

Module NumPyFacts.

Import NumPy.

Local Open Scope R_scope.

Lemma zip_with_length {A B C} (f : A -> B -> C) (a : list A) (b : list B) :
  length b = length a -> length (zip_with f a b) = length a.
Proof.
  revert b. induction a as [|x a IH]; intros [|y b]; simpl; try discriminate;
    auto.
Qed.

Lemma zip_with_nth {A B C} (f : A -> B -> C) (a : list A) (b : list B)
    (da : A) (db : B) (dc : C) (i : nat) :
  (i < length a)%nat -> (i < length b)%nat ->
  nth i (zip_with f a b) dc = f (nth i a da) (nth i b db).
Proof.
  revert b i. induction a as [|x a IH]; intros [|y b] [|i] Ha Hb;
    simpl in *; try lia; auto.
  apply IH; lia.
Qed.

Lemma map_nth_in {A B} (f : A -> B) (l : list A) (da : A) (db : B) (i : nat) :
  (i < length l)%nat -> nth i (map f l) db = f (nth i l da).
Proof.
  revert i. induction l as [|x l IH]; intros [|i] Hi; simpl in *;
    try lia; auto.
  apply IH. lia.
Qed.

End NumPyFacts.

(* ================================================================== *)
(** * Simulated data: properties *)
(* ================================================================== *)

Module SimulateFacts.

Import Frame FrameFacts NumPy NumPyFacts Random RandomFacts Simulate.

Local Open Scope R_scope.
Local Open Scope string_scope.

Create HintDb len discriminated.

Lemma sadd_length (a b : list R) n :
  length a = n -> length b = n -> length (sadd a b) = n.
Proof. intros Ha Hb. unfold sadd. rewrite zip_with_length; congruence. Qed.

Lemma ssub_length (a b : list R) n :
  length a = n -> length b = n -> length (ssub a b) = n.
Proof. intros Ha Hb. unfold ssub. rewrite zip_with_length; congruence. Qed.

Lemma smul_length (a b : list R) n :
  length a = n -> length b = n -> length (smul a b) = n.
Proof. intros Ha Hb. unfold smul. rewrite zip_with_length; congruence. Qed.

Lemma scale_length k (a : list R) n : length a = n -> length (scale k a) = n.
Proof. intros; unfold scale; now rewrite length_map. Qed.

Lemma shift_length k (a : list R) n : length a = n -> length (shift k a) = n.
Proof. intros; unfold shift; now rewrite length_map. Qed.

Lemma rsub_length k (a : list R) n : length a = n -> length (rsub k a) = n.
Proof. intros; unfold rsub; now rewrite length_map. Qed.

Lemma map_IZR_length (a : list Z) n : length a = n -> length (map IZR a) = n.
Proof. intros; now rewrite length_map. Qed.

#[local] Hint Resolve sadd_length ssub_length smul_length scale_length
  shift_length rsub_length map_IZR_length : len.

Section WithGenerator.

Context {G : Type} {RV : RandomVariate G}.

Lemma simulate_columns_run (size : nat) (w : World G) :
  exists (cw ca : list Z) (cl e0 e1 : list R) (g : G),
    length cw = size /\ length ca = size /\ length cl = size /\
    length e0 = size /\ length e1 = size /\
    Forall (fun a => a = 0%Z \/ a = 1%Z) ca /\
    let cW := map IZR cw in
    let cA := map IZR ca in
    let cY0 := sadd (sadd (sadd (scale 2 cW) (scale 6 cl))
                          (smul (scale 0.3 cW) cl)) (scale 5 e0) in
    let cY1 := sadd (sadd (sadd (shift (-10) (scale 2 cW)) (scale 6 cl))
                          (smul (scale 0.3 cW) cl)) (scale 5 e1) in
    simulate_columns size w =
      (Ok [("W", cW); ("L", cl); ("A", cA); ("Y0", cY0); ("Y1", cY1);
           ("Y", sadd (smul cA cY1) (smul (rsub 1 cA) cY0))],
       mkWorld g (stdout w)).
Proof.
  unfold simulate_columns, bind, draw, lift.
  pose proof (binomial_length (repeat 0.5 size) (rng w)) as Lw.
  destruct (binomial (repeat 0.5 size) (rng w)) as [cw g1].
  simpl in Lw. rewrite repeat_length in Lw.
  cbn [rng stdout setitem empty get_col].
  pose proof (normal_length size g1) as Ll.
  destruct (normal size g1) as [cl g2]. simpl in Ll.
  cbn [rng stdout setitem empty get_col shape0].
  assert (LW : length (map IZR cw) = size) by auto with len.
  rewrite LW, Ll, Nat.eqb_refl.
  simpl.
  set (ps := map logistic_cdf _).
  pose proof (binomial_length ps g2) as La.
  pose proof (binomial_values ps g2) as Va.
  destruct (binomial ps g2) as [ca g3]. simpl in La, Va.
  assert (Lps : length ps = size).
  { unfold ps. rewrite length_map. auto with len. }
  rewrite Lps in La.
  assert (LA : length (map IZR ca) = size) by auto with len.
  rewrite LA, LW, Nat.eqb_refl. simpl.
  pose proof (normal_length size g3) as L0.
  destruct (normal size g3) as [e0 g4]. simpl in L0.
  set (cY0 := sadd (sadd (sadd _ _) _) (scale 5 e0)).
  assert (LY0 : length cY0 = size) by (unfold cY0; auto 10 with len).
  rewrite LY0, LW, Nat.eqb_refl. simpl.
  pose proof (normal_length size g4) as L1.
  destruct (normal size g4) as [e1 g5]. simpl in L1.
  set (cY1 := sadd (sadd (sadd _ _) _) (scale 5 e1)).
  assert (LY1 : length cY1 = size) by (unfold cY1; auto 10 with len).
  rewrite LY1, LW, Nat.eqb_refl. simpl.
  set (cY := sadd _ _).
  assert (LY : length cY = size) by (unfold cY; auto 10 with len).
  rewrite LY, LW, Nat.eqb_refl. simpl.
  exists cw, ca, cl, e0, e1, g5.
  repeat split; auto.
Qed.

(** What [simulate_columns] builds, draw by draw. *)
Lemma simulate_columns_draws (size : nat) (w : World G)
    cw g1 cl g2 ca g3 e0 g4 e1 g5 :
  binomial (repeat 0.5 size) (rng w) = (cw, g1) ->
  normal size g1 = (cl, g2) ->
  binomial (map logistic_cdf
              (ssub (shift (-3) (scale 3 (map IZR cw))) (scale 1.5 cl)))
    g2 = (ca, g3) ->
  normal size g3 = (e0, g4) ->
  normal size g4 = (e1, g5) ->
  let cW := map IZR cw in
  let cA := map IZR ca in
  let cY0 := sadd (sadd (sadd (scale 2 cW) (scale 6 cl))
                        (smul (scale 0.3 cW) cl)) (scale 5 e0) in
  let cY1 := sadd (sadd (sadd (shift (-10) (scale 2 cW)) (scale 6 cl))
                        (smul (scale 0.3 cW) cl)) (scale 5 e1) in
  simulate_columns size w =
    (Ok [("W", cW); ("L", cl); ("A", cA); ("Y0", cY0); ("Y1", cY1);
         ("Y", sadd (smul cA cY1) (smul (rsub 1 cA) cY0))],
     mkWorld g5 (stdout w)).
Proof.
  intros E1 E2 E3 E4 E5.
  pose proof (binomial_length (repeat 0.5 size) (rng w)) as Lw.
  rewrite E1 in Lw. simpl in Lw. rewrite repeat_length in Lw.
  pose proof (normal_length size g1) as Ll. rewrite E2 in Ll. simpl in Ll.
  pose proof (binomial_length
                (map logistic_cdf
                   (ssub (shift (-3) (scale 3 (map IZR cw))) (scale 1.5 cl)))
                g2) as La.
  rewrite E3 in La. simpl in La.
  assert (LW : length (map IZR cw) = size) by auto with len.
  rewrite length_map in La.
  assert (La' : length ca = size) by (rewrite La; auto with len).
  assert (LA : length (map IZR ca) = size) by auto with len.
  pose proof (normal_length size g3) as L0. rewrite E4 in L0. simpl in L0.
  pose proof (normal_length size g4) as L1. rewrite E5 in L1. simpl in L1.
  intros cW cA cY0 cY1. subst cW cA cY0 cY1.
  unfold simulate_columns, bind, draw, lift.
  rewrite E1. cbn [rng stdout setitem empty get_col].
  rewrite E2. cbn [rng stdout setitem empty get_col shape0].
  rewrite LW, Ll, Nat.eqb_refl. simpl.
  rewrite E3. cbn [rng stdout].
  rewrite LA, LW, Nat.eqb_refl. simpl.
  rewrite E4. cbn [rng stdout].
  set (cY0 := sadd (sadd (sadd _ _) _) (scale 5 e0)).
  assert (LY0 : length cY0 = size) by (unfold cY0; auto 10 with len).
  rewrite LY0, LW, Nat.eqb_refl. simpl.
  rewrite E5. cbn [rng stdout].
  set (cY1 := sadd (sadd (sadd _ _) _) (scale 5 e1)).
  assert (LY1 : length cY1 = size) by (unfold cY1; auto 10 with len).
  rewrite LY1, LW, Nat.eqb_refl. simpl.
  set (cY := sadd _ _).
  assert (LY : length cY = size) by (unfold cY; auto 10 with len).
  rewrite LY, LW, Nat.eqb_refl. reflexivity.
Qed.

(** What one generated unit looks like: its treatment is 0 or 1, its
    potential outcomes are the systematic part plus five times a
    normal draw, and its observed outcome is the one of the two
    potential outcomes that its treatment selects. *)
Lemma unit_consistency (a y1 y0 : R) :
  a = 0 \/ a = 1 ->
  let y := a * y1 + (1 - a) * y0 in
  (a = 1 -> y = y1) /\ (a = 0 -> y = y0) /\
  (y1 <> y0 -> (y = y1 <-> a = 1) /\ (y = y0 <-> a = 0)).
Proof.
  intros [-> | ->] y; subst y; repeat split; intros; try lra.
Qed.

Lemma wrap_in_range (bits z : Z) :
  (0 < bits)%Z -> in_range bits z -> wrap bits z = z.
Proof.
  intros Hb [Hlo Hhi]. unfold wrap.
  assert (E : (2 ^ bits = 2 * 2 ^ (bits - 1))%Z).
  { replace bits with (Z.succ (bits - 1)) at 1 by lia.
    rewrite Z.pow_succ_r by lia. reflexivity. }
  rewrite Z.mod_small; lia.
Qed.

Lemma unit_consistency_int (bits a y1 y0 : Z) :
  (1 < bits)%Z -> a = 0%Z \/ a = 1%Z ->
  in_range bits y1 -> in_range bits y0 ->
  wrap bits (wrap bits (a * y1) + wrap bits (wrap bits (1 - a) * y0))
  = if (a =? 1)%Z then y1 else y0.
Proof.
  intros Hb Ha H1 H0.
  assert (Hz : in_range bits 0).
  { unfold in_range.
    assert (0 < 2 ^ (bits - 1))%Z by (apply Z.pow_pos_nonneg; lia). lia. }
  destruct Ha as [-> | ->]; simpl (_ =? _)%Z.
  - replace (0 * y1)%Z with 0%Z by lia.
    replace (1 - 0)%Z with 1%Z by lia.
    assert (Ho : in_range bits 1).
    { unfold in_range.
      assert (2 ^ 1 <= 2 ^ (bits - 1))%Z
        by (apply Z.pow_le_mono_r; lia).
      change (2 ^ 1)%Z with 2%Z in *. lia. }
    rewrite (wrap_in_range (z := 0)) by (auto; lia).
    rewrite (wrap_in_range (z := 1)) by (auto; lia).
    replace (1 * y0)%Z with y0 by lia.
    rewrite (wrap_in_range (z := y0)) by (auto; lia).
    replace (0 + y0)%Z with y0 by lia.
    apply wrap_in_range; auto; lia.
  - replace (1 * y1)%Z with y1 by lia.
    replace (1 - 1)%Z with 0%Z by lia.
    rewrite (wrap_in_range (z := 0)) by (auto; lia).
    replace (0 * y0)%Z with 0%Z by lia.
    rewrite (wrap_in_range (z := y1)) by (auto; lia).
    rewrite (wrap_in_range (z := 0)) by (auto; lia).
    replace (y1 + 0)%Z with y1 by lia.
    apply wrap_in_range; auto; lia.
Qed.


Lemma sadd_nth (a b : list R) (i n : nat) :
  length a = n -> length b = n -> (i < n)%nat ->
  nth i (sadd a b) 0 = nth i a 0 + nth i b 0.
Proof. intros. unfold sadd. apply zip_with_nth; lia. Qed.

Lemma smul_nth (a b : list R) (i n : nat) :
  length a = n -> length b = n -> (i < n)%nat ->
  nth i (smul a b) 0 = nth i a 0 * nth i b 0.
Proof. intros. unfold smul. apply zip_with_nth; lia. Qed.

Lemma scale_nth (k : R) (a : list R) (i n : nat) :
  length a = n -> (i < n)%nat -> nth i (scale k a) 0 = k * nth i a 0.
Proof. intros. unfold scale. apply map_nth_in. lia. Qed.

Lemma shift_nth (k : R) (a : list R) (i n : nat) :
  length a = n -> (i < n)%nat -> nth i (shift k a) 0 = k + nth i a 0.
Proof. intros. unfold shift. apply map_nth_in. lia. Qed.

Lemma rsub_nth (k : R) (a : list R) (i n : nat) :
  length a = n -> (i < n)%nat -> nth i (rsub k a) 0 = k - nth i a 0.
Proof. intros. unfold rsub. apply map_nth_in. lia. Qed.

Lemma observed_outcome_int_nth (bits : Z) (A Y1 Y0 : list Z) (i : nat) :
  length Y1 = length A -> length Y0 = length A -> (i < length A)%nat ->
  nth i (observed_outcome_int bits A Y1 Y0) 0%Z
  = wrap bits (wrap bits (nth i A 0 * nth i Y1 0)
               + wrap bits (wrap bits (1 - nth i A 0) * nth i Y0 0))%Z.
Proof.
  intros H1 H0 Hi. unfold observed_outcome_int, zadd, zmul, zrsub.
  rewrite (zip_with_nth _ _ _ 0%Z 0%Z 0%Z).
  - rewrite (zip_with_nth _ _ _ 0%Z 0%Z 0%Z) by lia.
    rewrite (zip_with_nth _ _ _ 0%Z 0%Z 0%Z)
      by (rewrite ?length_map; lia).
    now rewrite (map_nth_in _ _ 0%Z 0%Z) by lia.
  - rewrite zip_with_length; lia.
  - rewrite zip_with_length; rewrite ?length_map; lia.
Qed.

(** C8.  Counterfactual consistency of the simulated outcome.  In the
    binary simulation (machine-integer columns) every unit's observed
    outcome [A*Y1 + (1-A)*Y0] is exactly [Y1] when [A = 1] and exactly
    [Y0] when [A = 0].  In the frame that [simulate_data] builds from
    its five draws (W, L, A and the two noise vectors, in this order,
    one generator state after the other), the columns are the draws
    and what the cell computes from them: every unit's [A] is 0 or 1;
    its [Y0] is [s0 = 2 W + 6 L + 0.3 W L] plus five times its entry of
    the fourth draw and its [Y1] is [s1 = -10 + 2 W + 6 L + 0.3 W L]
    plus five times its entry of the fifth draw, and the systematic
    parts [s0] and [s1] differ by -10; and its [Y] is [A*Y1 + (1-A)*Y0], which is
    [Y1] when [A = 1] and [Y0] when [A = 0] (and, when the two
    potential outcomes differ, only then). *)
Theorem observed_outcome_consistency :
  (forall (bits : Z) (A Y1 Y0 : list Z) (i : nat),
      (1 < bits)%Z ->
      length Y1 = length A -> length Y0 = length A -> (i < length A)%nat ->
      (nth i A 0 = 0 \/ nth i A 0 = 1)%Z ->
      in_range bits (nth i Y1 0%Z) -> in_range bits (nth i Y0 0%Z) ->
      let y := nth i (observed_outcome_int bits A Y1 Y0) 0%Z in
      (nth i A 0%Z = 1%Z -> y = nth i Y1 0%Z) /\
      (nth i A 0%Z = 0%Z -> y = nth i Y0 0%Z))
  /\
  (forall (size : nat) (w : World G) cw g1 cl g2 ca g3 e0 g4 e1 g5,
      binomial (repeat 0.5 size) (rng w) = (cw, g1) ->
      normal size g1 = (cl, g2) ->
      binomial (map logistic_cdf
                  (ssub (shift (-3) (scale 3 (map IZR cw))) (scale 1.5 cl)))
        g2 = (ca, g3) ->
      normal size g3 = (e0, g4) ->
      normal size g4 = (e1, g5) ->
      exists df cY0 cY1 cY,
        simulate_columns size w = (Ok df, mkWorld g5 (stdout w)) /\
        columns df = ["W"; "L"; "A"; "Y0"; "Y1"; "Y"] /\
        shape0 df = size /\
        get_col "W" df = Ok (map IZR cw) /\ get_col "L" df = Ok cl /\
        get_col "A" df = Ok (map IZR ca) /\ get_col "Y0" df = Ok cY0 /\
        get_col "Y1" df = Ok cY1 /\ get_col "Y" df = Ok cY /\
        length cY0 = size /\ length cY1 = size /\ length cY = size /\
        forall i, (i < size)%nat ->
          let wi := IZR (nth i cw 0%Z) in
          let li := nth i cl 0 in
          let a := IZR (nth i ca 0%Z) in
          let y0 := nth i cY0 0 in
          let y1 := nth i cY1 0 in
          let y := nth i cY 0 in
          let s0 := 2 * wi + 6 * li + 0.3 * wi * li in
          let s1 := -10 + 2 * wi + 6 * li + 0.3 * wi * li in
          (a = 0 \/ a = 1) /\
          y0 = s0 + 5 * nth i e0 0 /\
          y1 = s1 + 5 * nth i e1 0 /\
          s1 - s0 = -10 /\
          y = a * y1 + (1 - a) * y0 /\
          (a = 1 -> y = y1) /\ (a = 0 -> y = y0) /\
          (y1 <> y0 -> (y = y1 <-> a = 1) /\ (y = y0 <-> a = 0))).
Proof.
  split.
  - intros bits A Y1 Y0 i Hb H1 H0 Hi Ha R1 R0 y. subst y.
    rewrite observed_outcome_int_nth by assumption.
    rewrite (unit_consistency_int Hb Ha R1 R0).
    split; intros E; rewrite E; reflexivity.
  - intros size w cw g1 cl g2 ca g3 e0 g4 e1 g5 E1 E2 E3 E4 E5.
    pose proof (simulate_columns_draws size w E1 E2 E3 E4 E5) as Hrun.
    cbv zeta in Hrun.
    pose proof (binomial_length (repeat 0.5 size) (rng w)) as Lw.
    rewrite E1 in Lw. simpl in Lw. rewrite repeat_length in Lw.
    pose proof (normal_length size g1) as Ll. rewrite E2 in Ll. simpl in Ll.
    pose proof (binomial_length
                  (map logistic_cdf
                     (ssub (shift (-3) (scale 3 (map IZR cw)))
                        (scale 1.5 cl))) g2) as La.
    pose proof (binomial_values
                  (map logistic_cdf
                     (ssub (shift (-3) (scale 3 (map IZR cw)))
                        (scale 1.5 cl))) g2) as Va.
    rewrite E3 in La, Va. simpl in La, Va.
    assert (LW : length (map IZR cw) = size) by auto with len.
    rewrite length_map in La.
    assert (La' : length ca = size) by (rewrite La; auto with len).
    assert (LA : length (map IZR ca) = size) by auto with len.
    pose proof (normal_length size g3) as L0. rewrite E4 in L0. simpl in L0.
    pose proof (normal_length size g4) as L1. rewrite E5 in L1. simpl in L1.
    set (cW := map IZR cw) in *. set (cA := map IZR ca) in *.
    set (cY0 := sadd (sadd (sadd (scale 2 cW) (scale 6 cl))
                        (smul (scale 0.3 cW) cl)) (scale 5 e0)) in *.
    set (cY1 := sadd (sadd (sadd (shift (-10) (scale 2 cW)) (scale 6 cl))
                        (smul (scale 0.3 cW) cl)) (scale 5 e1)) in *.
    set (cY := sadd (smul cA cY1) (smul (rsub 1 cA) cY0)) in *.
    assert (LY0 : length cY0 = size) by (unfold cY0; auto 10 with len).
    assert (LY1 : length cY1 = size) by (unfold cY1; auto 10 with len).
    assert (LY : length cY = size) by (unfold cY; auto 10 with len).
    exists [("W", cW); ("L", cl); ("A", cA); ("Y0", cY0); ("Y1", cY1);
            ("Y", cY)], cY0, cY1, cY.
    split; [exact Hrun|].
    split; [reflexivity|]. split; [exact LW|].
    do 6 (split; [reflexivity|]).
    do 3 (split; [assumption|]).
    intros i Hi.
    assert (Ew : nth i cW 0 = IZR (nth i cw 0%Z)).
    { unfold cW. apply map_nth_in. lia. }
    assert (Ea : nth i cA 0 = IZR (nth i ca 0%Z)).
    { unfold cA. apply map_nth_in. lia. }
    assert (Ha : IZR (nth i ca 0%Z) = 0 \/ IZR (nth i ca 0%Z) = 1).
    { rewrite Forall_forall in Va.
      destruct (Va (nth i ca 0%Z)) as [E | E];
        [apply nth_In; lia | rewrite E; now left | rewrite E; now right]. }
    assert (E0 : nth i cY0 0
                 = 2 * IZR (nth i cw 0%Z) + 6 * nth i cl 0
                   + 0.3 * IZR (nth i cw 0%Z) * nth i cl 0
                   + 5 * nth i e0 0).
    { unfold cY0.
      rewrite (@sadd_nth _ _ _ size) by auto 10 with len.
      rewrite (@sadd_nth _ _ _ size) by auto 10 with len.
      rewrite (@sadd_nth _ _ _ size) by auto 10 with len.
      rewrite (@smul_nth _ _ _ size) by auto 10 with len.
      rewrite !(@scale_nth _ _ _ size) by auto.
      rewrite Ew. lra. }
    assert (E1' : nth i cY1 0
                  = -10 + 2 * IZR (nth i cw 0%Z) + 6 * nth i cl 0
                    + 0.3 * IZR (nth i cw 0%Z) * nth i cl 0
                    + 5 * nth i e1 0).
    { unfold cY1.
      rewrite (@sadd_nth _ _ _ size) by auto 10 with len.
      rewrite (@sadd_nth _ _ _ size) by auto 10 with len.
      rewrite (@sadd_nth _ _ _ size) by auto 10 with len.
      rewrite (@smul_nth _ _ _ size) by auto 10 with len.
      rewrite (@shift_nth _ _ _ size) by auto 10 with len.
      rewrite !(@scale_nth _ _ _ size) by auto.
      rewrite Ew. lra. }
    assert (EY : nth i cY 0
                 = IZR (nth i ca 0%Z) * nth i cY1 0
                   + (1 - IZR (nth i ca 0%Z)) * nth i cY0 0).
    { unfold cY.
      rewrite (@sadd_nth _ _ _ size) by auto 10 with len.
      rewrite !(@smul_nth _ _ _ size) by auto 10 with len.
      rewrite (@rsub_nth _ _ _ size) by auto.
      now rewrite Ea. }
    cbv zeta.
    destruct (unit_consistency (nth i cY1 0) (nth i cY0 0) Ha)
      as (C1 & C0 & Cd).
    cbv zeta in C1, C0, Cd. rewrite <- EY in C1, C0, Cd.
    split; [exact Ha|]. split; [exact E0|]. split; [exact E1'|].
    split; [lra|]. split; [exact EY|].
    split; [exact C1|]. split; [exact C0 | exact Cd].
Qed.


(** ** The check of [n] *)

Lemma simulate_data_accepts (n : pyval) (print_ate : bool) (w : World G)
    (size : nat) :
  invalid_n n = Ok false -> as_size n = Ok size ->
  accepted n print_ate w size.
Proof.
  intros Hv Hs. unfold accepted, simulate_data.
  destruct (simulate_columns_run size w)
    as (cw & ca & cl & e0 & e1 & g & Lw & La & Ll & L0 & L1 & Va & Hrun).
  cbv zeta in Hrun.
  assert (LW : length (map IZR cw) = size) by auto with len.
  assert (LA : length (map IZR ca) = size) by auto with len.
  unfold bind at 1. unfold lift at 1. rewrite Hv.
  unfold bind at 1. unfold lift at 1. rewrite Hs.
  unfold bind at 1. rewrite Hrun.
  destruct print_ate.
  - unfold bind, lift, print, modify; simpl.
    eexists _, _. split; [reflexivity|].
    split; [reflexivity|]. split; [simpl; auto 10 with len|].
    repeat constructor; simpl; auto 10 with len.
  - unfold bind, lift, ret; simpl.
    eexists _, _. split; [reflexivity|].
    split; [reflexivity|]. split; [simpl; auto 10 with len|].
    repeat constructor; simpl; auto 10 with len.
Qed.

(** Every outcome of a call.  [simulate_data] raises [ValueError]
    when [n] is a number that is negative or is not an [int] (every
    float); an argument that cannot be ordered against an [int] (a
    string, [None]) makes the check itself raise [TypeError]; a [bool]
    passes the check, being an [int] to [isinstance], and is then
    refused as a size by [np.random.binomial], with [TypeError] again;
    an [int] that is not negative is accepted and a table with the
    columns [Y], [A], [W], [L], in that order, and [n] rows comes back,
    so [n = 0] gives an empty table. *)
Lemma simulate_data_outcomes (n : pyval) (print_ate : bool) (w : World G) :
  match n with
  | PyStr _ | PyNone =>
      exists msg, simulate_data n print_ate w = (Raise (TypeError msg), w)
  | PyFloat _ =>
      simulate_data n print_ate w
      = (Raise (ValueError "n must be a positive integer"), w)
  | PyInt z =>
      if (z <? 0)%Z then
        simulate_data n print_ate w
        = (Raise (ValueError "n must be a positive integer"), w)
      else accepted n print_ate w (Z.to_nat z)
  | PyBool b =>
      invalid_n n = Ok false /\
      exists msg, simulate_data n print_ate w = (Raise (TypeError msg), w)
  end.
Proof.
  destruct n as [z|b|f| |].
  - destruct (z <? 0)%Z eqn:E.
    + unfold simulate_data, bind, lift, invalid_n; simpl. now rewrite E.
    + apply simulate_data_accepts; [|reflexivity].
      unfold invalid_n; simpl. now rewrite E.
  - split; [reflexivity|]. eexists. reflexivity.
  - unfold simulate_data, bind, lift, invalid_n; simpl.
    destruct (PrimFloat.ltb f 0); reflexivity.
  - eexists. reflexivity.
  - eexists. reflexivity.
Qed.

End WithGenerator.

(** The binary cell on two units, and [simulate_columns] on two units
    with the counter generator: its five draws are 0, 1; 2, 3; 0, 1;
    6, 7 and 8, 9, and the generator is left at 10. *)
Lemma observed_outcome_consistency_witness :
  (let y := nth 1 (observed_outcome_int 32 [0; 1] [1; 1] [0; 0])%Z 0%Z in
   (nth 1 [0; 1]%Z 0%Z = 1%Z -> y = nth 1 [1; 1]%Z 0%Z) /\
   (nth 1 [0; 1]%Z 0%Z = 0%Z -> y = nth 1 [0; 0]%Z 0%Z)) /\
  (exists df cY0 cY1 cY,
      simulate_columns 2 (mkWorld 0%nat []) = (Ok df, mkWorld 10%nat []) /\
      columns df = ["W"; "L"; "A"; "Y0"; "Y1"; "Y"] /\
      shape0 df = 2%nat /\
      get_col "W" df = Ok (map IZR [0; 1]%Z) /\
      get_col "L" df = Ok [INR 2; INR 3] /\
      get_col "A" df = Ok (map IZR [0; 1]%Z) /\
      get_col "Y0" df = Ok cY0 /\
      get_col "Y1" df = Ok cY1 /\ get_col "Y" df = Ok cY /\
      length cY0 = 2%nat /\ length cY1 = 2%nat /\ length cY = 2%nat /\
      forall i, (i < 2)%nat ->
        let wi := IZR (nth i [0; 1]%Z 0%Z) in
        let li := nth i [INR 2; INR 3] 0 in
        let a := IZR (nth i [0; 1]%Z 0%Z) in
        let y0 := nth i cY0 0 in
        let y1 := nth i cY1 0 in
        let y := nth i cY 0 in
        let s0 := 2 * wi + 6 * li + 0.3 * wi * li in
        let s1 := -10 + 2 * wi + 6 * li + 0.3 * wi * li in
        (a = 0 \/ a = 1) /\
        y0 = s0 + 5 * nth i [INR 6; INR 7] 0 /\
        y1 = s1 + 5 * nth i [INR 8; INR 9] 0 /\
        s1 - s0 = -10 /\
        y = a * y1 + (1 - a) * y0 /\
        (a = 1 -> y = y1) /\ (a = 0 -> y = y0) /\
        (y1 <> y0 -> (y = y1 <-> a = 1) /\ (y = y0 <-> a = 0))).
Proof.
  split.
  - apply (proj1 (@observed_outcome_consistency nat counter_generator)
             32%Z [0; 1]%Z [1; 1]%Z [0; 0]%Z 1%nat).
    + reflexivity.
    + reflexivity.
    + reflexivity.
    + simpl. lia.
    + right. reflexivity.
    + unfold in_range. simpl. lia.
    + unfold in_range. simpl. lia.
  - apply (proj2 (@observed_outcome_consistency nat counter_generator)
             2%nat (mkWorld 0%nat []) [0; 1]%Z 2%nat [INR 2; INR 3] 4%nat
             [0; 1]%Z 6%nat [INR 6; INR 7] 8%nat [INR 8; INR 9] 10%nat).
    + reflexivity.
    + reflexivity.
    + reflexivity.
    + reflexivity.
    + reflexivity.
Defined.

(** With the counter generator: no row for [n = 0], and the mean of an
    empty difference is printed as NaN. *)
Example simulate_data_zero :
  simulate_data (PyInt 0) true (mkWorld 0%nat [])
  = (Ok [("Y", []); ("A", []); ("W", []); ("L", [])],
     mkWorld 0%nat [[PStr "ATE* ="; PNum None]]).
Proof. reflexivity. Qed.

Example simulate_data_negative :
  simulate_data (PyInt (-1)) true (mkWorld 0%nat [])
  = (Raise (ValueError "n must be a positive integer"), mkWorld 0%nat []).
Proof. reflexivity. Qed.

Example simulate_data_float :
  simulate_data (PyFloat 2.5%float) true (mkWorld 0%nat [])
  = (Raise (ValueError "n must be a positive integer"), mkWorld 0%nat []).
Proof. reflexivity. Qed.

Example simulate_data_two :
  match fst (simulate_data (PyInt 2) false (mkWorld 0%nat [])) with
  | Ok df => columns df = ["Y"; "A"; "W"; "L"] /\ shape0 df = 2%nat
  | Raise _ => False
  end.
Proof. split; reflexivity. Qed.

Example simulate_data_True :
  simulate_data (PyBool true) true (mkWorld 0%nat [])
  = (Raise (TypeError
              "expected a sequence of integers or a single integer, got 'True'"),
     mkWorld 0%nat []).
Proof. reflexivity. Qed.

Example simulate_data_None :
  simulate_data PyNone true (mkWorld 0%nat [])
  = (Raise (TypeError
              "'<' not supported between instances of 'NoneType' and 'int'"),
     mkWorld 0%nat []).
Proof. reflexivity. Qed.

(** C10.  The call [simulate_data('ten')]: a string is not an integer,
    [isinstance] says so, and yet the call raises [TypeError], not
    [ValueError]: the comparison [n < 0] is evaluated first and raises
    before [isinstance] is consulted. *)
Lemma simulate_data_str_raises_TypeError :
  let w := mkWorld 0%nat [] in
  isinstance_int (PyStr "ten") = false /\
  simulate_data (PyStr "ten") true w
  = (Raise (TypeError "'<' not supported between instances of 'str' and 'int'"),
     w) /\
  (forall msg,
      fst (simulate_data (PyStr "ten") true w) <> Raise (ValueError msg)).
Proof.
  repeat split. intros msg. discriminate.
Qed.

End SimulateFacts.

(* ================================================================== *)
(** * The bootstrap confidence interval *)
(* ================================================================== *)

Module IntervalFacts.

Import Frame NumPy NumPyFacts GFormula.

Local Open Scope R_scope.

Lemma all_numbers_Some (xs : list R) : all_numbers (map Some xs) = Some xs.
Proof.
  induction xs as [|x xs IH]; simpl; [reflexivity | now rewrite IH].
Qed.

Lemma rsum_map_ext (f g : R -> R) (xs : list R) :
  (forall x, f x = g x) -> rsum (map f xs) = rsum (map g xs).
Proof.
  intros E. induction xs as [|x xs IH]; simpl; [reflexivity|].
  now rewrite E, IH.
Qed.

(** NumPy's variance with [ddof=0] is the mean squared deviation. *)
Lemma var_numbers_population (xs : list R) :
  R_sqrt.sqrt (var_numbers 0 xs) = population_sd xs.
Proof.
  unfold var_numbers, population_sd. cbv zeta.
  rewrite Nat.sub_0_r, map_map. f_equal. f_equal.
  apply rsum_map_ext. intros x. ring.
Qed.

Lemma np_std_numbers (xs : list R) :
  np_std (map Some xs)
  = match xs with [] => None | _ :: _ => Some (population_sd xs) end.
Proof.
  unfold np_std. rewrite all_numbers_Some.
  destruct xs as [|x xs]; [reflexivity|].
  now rewrite var_numbers_population.
Qed.

(** Two lists of replicates of different means and one standard
    deviation. *)
Lemma two_pairs_of_replicates :
  np_mean [0; 2] = Some 1 /\ np_mean [5; 7] = Some 6 /\
  np_std [Some 0; Some 2] = Some 1 /\ np_std [Some 5; Some 7] = Some 1.
Proof.
  split; [unfold np_mean; simpl; f_equal; field|].
  split; [unfold np_mean; simpl; f_equal; field|].
  split.
  - change [Some 0; Some 2] with (map Some [0; 2]).
    rewrite (np_std_numbers [0; 2]). f_equal.
    unfold population_sd. simpl.
    replace ((0 + (2 + 0)) / (1 + 1)) with 1 by field.
    replace (((0 - 1) * ((0 - 1) * 1) + ((2 - 1) * ((2 - 1) * 1) + 0)) / (1 + 1))
      with 1 by field.
    apply sqrt_1.
  - change [Some 5; Some 7] with (map Some [5; 7]).
    rewrite (np_std_numbers [5; 7]). f_equal.
    unfold population_sd. simpl.
    replace ((5 + (7 + 0)) / (1 + 1)) with 6 by field.
    replace (((5 - 6) * ((5 - 6) * 1) + ((7 - 6) * ((7 - 6) * 1) + 0)) / (1 + 1))
      with 1 by field.
    apply sqrt_1.
Qed.


(** Two replicates, 0 and 2: their mean is 1, their population
    standard deviation is 1 (the sample one would be the root of 2),
    and the interval sits around the estimate 3, not around 1. *)
Example wald_interval_two_replicates :
  wald_interval (Some (Some 10)) (Some (Some 7)) [Some 0; Some 2]
  = Ok (Some 1, Some (3 - 1.96), Some (3 + 1.96)).
Proof.
  unfold wald_interval.
  change [Some 0; Some 2] with (map Some [0; 2]).
  rewrite (np_std_numbers [0; 2]).
  assert (S : population_sd [0; 2] = 1).
  { unfold population_sd. simpl.
    replace ((0 + (2 + 0)) / (1 + 1)) with 1 by field.
    replace (((0 - 1) * ((0 - 1) * 1) + ((2 - 1) * ((2 - 1) * 1) + 0)) / (1 + 1))
      with 1 by field.
    apply sqrt_1. }
  rewrite S. simpl. repeat f_equal; lra.
Qed.

(** On those two replicates the sample standard deviation ([ddof=1])
    is the root of 2: the two conventions differ, and the interval is
    built with the population one. *)
Example population_and_sample_sd_differ :
  population_sd [0; 2] = 1 /\ sample_sd [0; 2] = R_sqrt.sqrt 2 /\
  sample_sd [0; 2] <> population_sd [0; 2].
Proof.
  assert (P : population_sd [0; 2] = 1).
  { unfold population_sd. simpl.
    replace ((0 + (2 + 0)) / (1 + 1)) with 1 by field.
    replace (((0 - 1) * ((0 - 1) * 1) + ((2 - 1) * ((2 - 1) * 1) + 0)) / (1 + 1))
      with 1 by field.
    apply sqrt_1. }
  assert (S : sample_sd [0; 2] = R_sqrt.sqrt 2).
  { unfold sample_sd. simpl. f_equal.
    replace ((0 + (2 + 0)) / (1 + 1)) with 1 by field. field. }
  split; [exact P|]. split; [exact S|].
  rewrite P, S. intros H.
  assert (H2 : R_sqrt.sqrt 2 * R_sqrt.sqrt 2 = 2) by (apply sqrt_sqrt; lra).
  rewrite H in H2. lra.
Qed.

End IntervalFacts.

(* ================================================================== *)
(** * Resampling with replacement *)
(* ================================================================== *)

Module ResampleFacts.

Import Frame FrameFacts NumPy Random RandomFacts GFormula.

Local Open Scope string_scope.

Section WithGenerator.

Context {G : Type} {RV : RandomVariate G}.

(** The rows at positions in range: the whole records, in the order
    of the positions. *)
Lemma take_rows_whole_rows (df : DataFrame cell) (idx : list nat) :
  rectangular df ->
  Forall (fun i => i < shape0 df) idx ->
  take_rows idx df = Ok (taken None idx df) /\
  columns (taken None idx df) = columns df /\
  rectangular (taken None idx df) /\
  (length idx = shape0 df -> shape0 (taken None idx df) = shape0 df) /\
  (forall i, i < length idx ->
     row_at None i (taken None idx df) = row_at None (nth i idx 0) df /\
     In (row_at None i (taken None idx df)) (rows None df)).
Proof.
  intros R Hidx.
  split; [apply (@take_rows_in_range cell idx df None R Hidx)|].
  split; [apply columns_taken|].
  split; [apply rectangular_taken|].
  split.
  - intros L. destruct df as [|kc rest]; [reflexivity|].
    rewrite shape0_taken by discriminate. exact L.
  - intros i Hi. rewrite row_at_taken by exact Hi.
    split; [reflexivity|]. apply row_at_in_rows.
    rewrite Forall_forall in Hidx. apply Hidx. now apply nth_In.
Qed.

(** C2.  A bootstrap resample of a table of [N] rows has exactly [N]
    rows and the columns of the table; each of its rows is the whole
    record of the table at the position drawn for it (one position per
    row serves every column), so it is one of the table's records.
    The positions are [N] successive draws of the generator below [N],
    used as they come: nothing filters or deduplicates them.  The law
    of the positions is uniform over the [N ^ N] vectors of positions:
    each draw is each position with probability [1 / N], and the
    probability of a vector is the product of the probabilities of its
    entries, so the draws are independent.  Every vector of positions,
    repeated positions included, is drawn by some generator and gives a
    resample of whole records. *)
Theorem resample_rows (df : DataFrame cell) (s : State G) :
  rectangular df ->
  let N := shape0 df in
  let law := randint_law N N in
  (exists idx dfs s',
     sample df s = (Ok dfs, s') /\
     heap s' = heap s /\
     (idx, rng s') = randint N N (rng s) /\
     length idx = N /\
     Forall (fun i => i < N) idx /\
     (forall k, k < N ->
        nth k idx 0 = fst (randint1 N (after_draws N k (rng s)))) /\
     rng s' = after_draws N N (rng s) /\
     In idx law /\ In (Ok dfs) (sample_law df) /\
     columns dfs = columns df /\
     shape0 dfs = N /\
     rectangular dfs /\
     (forall i, i < N ->
        row_at None i dfs = row_at None (nth i idx 0) df /\
        In (row_at None i dfs) (rows None df))) /\
  (length law = N ^ N /\
   (forall v, In v law <-> length v = N /\ Forall (fun i => i < N) v) /\
   (forall k j, k < N -> j < N ->
      prob (draw_is k j) law = (1 / INR N)%R) /\
   (forall v, In v law ->
      favourable (draws_are v) law = 1 /\
      prob (draws_are v) law = ((1 / INR N) ^ N)%R /\
      prob (draws_are v) law
      = fold_right Rmult 1%R
          (map (fun k => prob (draw_is k (nth k v 0)) law) (seq 0 N)))) /\
  (forall v, In v law ->
     fst (@randint (list nat) tape_generator N N v) = v /\
     exists d,
       take_rows v df = Ok d /\ In (Ok d) (sample_law df) /\
       columns d = columns df /\ shape0 d = N /\
       forall i, i < N ->
         row_at None i d = row_at None (nth i v 0) df /\
         In (row_at None i d) (rows None df)).
Proof.
  intros R N law.
  assert (Hlaw : forall v, In v law ->
            length v = N /\ Forall (fun i => i < N) v).
  { intros v Hv. now apply randint_law_In. }
  assert (Hrows : forall v, In v law ->
            exists d,
              take_rows v df = Ok d /\ In (Ok d) (sample_law df) /\
              columns d = columns df /\ shape0 d = N /\ rectangular d /\
              forall i, i < N ->
                row_at None i d = row_at None (nth i v 0) df /\
                In (row_at None i d) (rows None df)).
  { intros v Hv. destruct (Hlaw v Hv) as [L F].
    destruct (take_rows_whole_rows R F) as (T & C & Rt & Sh & Rw).
    exists (taken None v df).
    split; [exact T|]. split.
    { unfold sample_law. apply in_map_iff. exists v.
      split; [exact T | exact Hv]. }
    split; [exact C|]. split; [now apply Sh|]. split; [exact Rt|].
    intros i Hi. apply Rw. now rewrite L. }
  split; [|split].
  - unfold sample, bind, draw, lift.
    pose proof (randint_length N N (rng s)) as L.
    destruct (randint_draws N N (rng s)) as [Hs Hn].
    assert (Hidx : Forall (fun i => i < N) (fst (randint N N (rng s)))).
    { destruct (Nat.eq_dec N 0) as [Z | NZ].
      - rewrite Z in *. destruct (randint 0 0 (rng s)) as [l g]. simpl in *.
        destruct l; [constructor | discriminate].
      - apply randint_values. lia. }
    fold N. destruct (randint N N (rng s)) as [idx g].
    cbn [fst snd] in L, Hidx, Hs, Hn.
    assert (Hin : In idx law) by (apply randint_law_In; now split).
    destruct (Hrows idx Hin) as (d & T & Hd & C & Sh & Rt & Rw).
    exists idx, d, (mkState g (heap s)).
    cbv beta iota. cbn [GFormula.rng GFormula.heap].
    rewrite T. repeat (split; [first [reflexivity | assumption]|]).
    exact Rw.
  - split; [apply randint_law_length|].
    split; [intros v; apply randint_law_In|].
    split; [intros k j Hk Hj; now apply marginal_prob|].
    intros v Hv. destruct (Hlaw v Hv) as [L F].
    split; [now apply joint_count|].
    split; [now apply joint_prob|].
    unfold law. rewrite (product_of_marginals L F). now apply joint_prob.
  - intros v Hv. destruct (Hlaw v Hv) as [L F]. split.
    + rewrite <- L at 2. now apply tape_replays.
    + destruct (Hrows v Hv) as (d & T & Hd & C & Sh & _ & Rw).
      exists d. repeat (split; [assumption|]). exact Rw.
Qed.

End WithGenerator.

(** With the counter generator the first resample draws the positions
    0, 0, 1: three rows again, the first unit twice, whole records. *)
Example resample_three_units :
  sample three_units (mkState 0 [])
  = (Ok [("id", [Some 1; Some 1; Some 2]%R);
         ("qsmk", [Some 0; Some 0; Some 1]%R);
         ("wt82_71", [Some 2; Some 2; Some 5]%R)],
     mkState 3 []).
Proof. reflexivity. Qed.

(** The three-unit table has 27 equally likely vectors of positions;
    the one that takes the first unit three times is among them. *)
Example resample_law_three_units :
  length (sample_law three_units) = 27 /\
  In [0; 0; 0] (randint_law 3 3) /\
  nth 0 (sample_law three_units) (Ok [])
  = Ok [("id", [Some 1; Some 1; Some 1]%R);
        ("qsmk", [Some 0; Some 0; Some 0]%R);
        ("wt82_71", [Some 2; Some 2; Some 2]%R)].
Proof. split; [reflexivity|]. split; [left|]; reflexivity. Qed.

Lemma resample_rows_witness :
  (exists idx dfs s',
     sample three_units (mkState 0 []) = (Ok dfs, s') /\
     heap s' = [] /\
     (idx, rng s') = randint 3 3 0 /\
     length idx = 3 /\
     Forall (fun i => i < 3) idx /\
     (forall k, k < 3 ->
        nth k idx 0 = fst (randint1 3 (after_draws 3 k 0))) /\
     rng s' = after_draws 3 3 0 /\
     In idx (randint_law 3 3) /\ In (Ok dfs) (sample_law three_units) /\
     columns dfs = columns three_units /\
     shape0 dfs = 3 /\
     rectangular dfs /\
     (forall i, i < 3 ->
        row_at None i dfs = row_at None (nth i idx 0) three_units /\
        In (row_at None i dfs) (rows None three_units))) /\
  (forall k j, k < 3 -> j < 3 ->
     prob (draw_is k j) (randint_law 3 3) = (1 / INR 3)%R).
Proof.
  assert (R : rectangular three_units) by repeat constructor.
  pose proof (@resample_rows nat counter_generator three_units
                (mkState 0 []) R) as H.
  cbv zeta in H. destruct H as (A & (_ & _ & M & _) & _).
  exact (conj A M).
Defined.

End ResampleFacts.

(* ================================================================== *)
(** * Policies, prediction and standardization *)
(* ================================================================== *)

Module StandardizerFacts.

Import Frame FrameFacts NumPy NumPyFacts GFormula.

Local Open Scope R_scope.
Local Open Scope string_scope.

Implicit Types (df g : DataFrame cell) (trt name : string).

(** ** Frames that agree except for one column *)

Lemma columns_put_col_present name (c : Series cell) df :
  has_col name df = true -> columns (put_col name c df) = columns df.
Proof.
  unfold has_col, columns.
  induction df as [|[k old] rest IH]; simpl; [discriminate|].
  destruct (String.eqb k name) eqn:E; simpl; [reflexivity|].
  intros H. now rewrite IH.
Qed.

Lemma put_col_same name (c : Series cell) df :
  get_col name df = Ok c -> put_col name c df = df.
Proof.
  induction df as [|[k old] rest IH]; simpl; [discriminate|].
  destruct (String.eqb k name) eqn:E.
  - now intros [= ->].
  - intros H. now rewrite IH.
Qed.

Lemma setitem_ok name (c : Series cell) df g :
  setitem name c df = Ok g ->
  g = put_col name c df /\ (df <> [] -> length c = shape0 df).
Proof.
  unfold setitem. destruct df as [|kc rest]; [intros [= <-]; split; auto; congruence|].
  destruct (Nat.eqb (length c) (shape0 (kc :: rest))) eqn:E; [|discriminate].
  intros [= <-]. split; auto. intros _. now apply Nat.eqb_eq.
Qed.


Lemma rows_length (df : DataFrame cell) :
  length (rows None df) = shape0 df.
Proof. unfold rows. now rewrite length_map, length_seq. Qed.

(** Every policy assigns the treatment column and nothing else. *)
Lemma apply_policy_assigns trt (p : policy) df g :
  apply_policy trt p df = Ok g ->
  exists c, g = put_col trt c df /\ length c = shape0 df.
Proof.
  destruct p as [ | | |rule]; simpl.
  - intros [= <-]. exists (repeat (Some 1) (shape0 df)). unfold setitem_scalar.
    split; [reflexivity | apply repeat_length].
  - intros [= <-]. exists (repeat (Some 0) (shape0 df)). unfold setitem_scalar.
    split; [reflexivity | apply repeat_length].
  - destruct (get_col trt df) as [a|e] eqn:E; simpl; [|discriminate].
    intros H. apply setitem_ok in H. destruct H as [-> L].
    exists a. split; [reflexivity|]. apply L. intros ->. discriminate.
  - intros H. apply setitem_ok in H. destruct H as [-> L].
    eexists. split; [reflexivity|]. now rewrite length_map, rows_length.
Qed.

Lemma put_col_agree (out trt : string) (c : Series cell) df df' :
  out <> trt -> agree_off out df df' -> length c = shape0 df ->
  agree_off out (put_col trt c df) (put_col trt c df').
Proof.
  intros Hne [Hs Hc] L. split.
  - assert (L' : length c = shape0 df') by congruence.
    rewrite (shape0_put_col trt c df L), (shape0_put_col trt c df' L').
    exact Hs.
  - intros other Ho. destruct (string_dec other trt) as [-> | Hd].
    + now rewrite !get_col_put_col_same.
    + rewrite !get_col_put_col_other by congruence. auto.
Qed.

Lemma apply_policy_agree (out trt : string) (q : policy) df df' :
  fixed_policy q -> out <> trt -> agree_off out df df' ->
  match apply_policy trt q df, apply_policy trt q df' with
  | Ok g, Ok g' => agree_off out g g'
  | Raise e, Raise e' => e = e'
  | _, _ => False
  end.
Proof.
  intros Hq Hne A. pose proof A as [Hs Hc].
  pose proof Hs as Hs'. unfold cell in Hs'.
  destruct Hq as [-> | [-> | ->]]; cbn [apply_policy].
  - unfold setitem_scalar. rewrite Hs'.
    apply put_col_agree; [assumption | assumption | apply repeat_length].
  - unfold setitem_scalar. rewrite Hs'.
    apply put_col_agree; [assumption | assumption | apply repeat_length].
  - rewrite (Hc trt) by congruence.
    destruct (get_col trt df) as [a|e] eqn:E; simpl; [|reflexivity].
    assert (E' : get_col trt df' = Ok a) by (rewrite Hc; congruence).
    unfold setitem.
    destruct df as [|kc rest]; [discriminate|].
    destruct df' as [|kc' rest']; [discriminate|].
    rewrite Hs.
    destruct (Nat.eqb (length a) (shape0 (kc :: rest))) eqn:L; [|reflexivity].
    apply put_col_agree; [assumption | assumption | now apply Nat.eqb_eq].
Qed.

(** ** Prediction reads the fields of the model's terms only *)

Lemma term_column_agree (out : string) (t : term) df df' :
  ~ In out (term_fields t) -> agree_off out df df' ->
  term_column t df' = term_column t df.
Proof.
  intros Hout [Hs Hc]. induction t as [ |f|f|f lv|t1 IH1 t2 IH2]; simpl in *.
  - now rewrite Hs.
  - apply Hc. intuition congruence.
  - rewrite Hc by intuition congruence. reflexivity.
  - rewrite Hc by intuition congruence. reflexivity.
  - rewrite IH1, IH2; auto; intros H; apply Hout; apply in_or_app; auto.
Qed.

Lemma term_columns_agree (out : string) (ts : list term) df df' :
  ~ In out (flat_map term_fields ts) -> agree_off out df df' ->
  term_columns ts df' = term_columns ts df.
Proof.
  intros Hout A. induction ts as [|t ts IH]; simpl in *; [reflexivity|].
  rewrite (term_column_agree (out := out) t (df := df)), IH; auto;
    intros H; apply Hout; apply in_or_app; auto.
Qed.

Lemma predict_agree (out : string) (m : fitted) df df' :
  ~ In out (flat_map term_fields (terms m)) -> agree_off out df df' ->
  predict m df' = predict m df.
Proof.
  intros Hout A. unfold predict.
  rewrite (term_columns_agree (out := out) _ (df := df)) by assumption.
  destruct A as [-> _]. reflexivity.
Qed.


(** C3.  The table a policy derives differs from the original in the
    treatment column only: every other column, the outcome among them,
    is read back unchanged, and the table keeps its columns and rows.
    Prediction does not read the outcome: a model whose terms do not
    name the outcome predicts the same on any two tables that differ in
    the outcome column only, and so the standardized mean under a fixed
    policy is the same on both. *)
Theorem policy_changes_treatment_only (trt : string) (p : policy)
    (df g : DataFrame cell) :
  apply_policy trt p df = Ok g ->
  (forall other, other <> trt -> get_col other g = get_col other df) /\
  shape0 g = shape0 df /\
  (has_col trt df = true -> columns g = columns df) /\
  (rectangular df -> rectangular g) /\
  (forall (m : fitted) (out : string) (df' : DataFrame cell),
      ~ In out (flat_map term_fields (terms m)) ->
      agree_off out df df' ->
      predict m df' = predict m df /\
      (out <> trt ->
       forall q, fixed_policy q ->
         standardize m trt q df' = standardize m trt q df)).
Proof.
  intros H. destruct (apply_policy_assigns _ _ _ H) as (c & -> & L).
  repeat split.
  - intros other Hne. apply get_col_put_col_other. congruence.
  - now apply shape0_put_col.
  - now apply columns_put_col_present.
  - intros R. now apply rectangular_put_col.
  - now apply (predict_agree (out := out)).
  - intros Hne q Hq. unfold standardize.
    pose proof (apply_policy_agree Hq Hne H1) as A.
    destruct (apply_policy trt q df) as [g0|e0],
             (apply_policy trt q df') as [g1|e1]; simpl;
      try contradiction; [|congruence].
    now rewrite (predict_agree (out := out) m (df := g0)).
Qed.


(** ** Predictions, unit by unit *)

Lemma term_column_length (t : term) df (c : Series cell) :
  rectangular df -> term_column t df = Ok c -> length c = shape0 df.
Proof.
  intros R. revert c.
  induction t as [ |f|f|f lv|t1 IH1 t2 IH2]; intros c; simpl.
  - intros [= <-]. apply repeat_length.
  - apply (@rectangular_get_col _ _ _ _ R).
  - destruct (get_col f df) as [c0|e] eqn:E; simpl; [|discriminate].
    intros [= <-]. rewrite length_map.
    apply (@rectangular_get_col _ _ _ _ R E).
  - destruct (get_col f df) as [c0|e] eqn:E; simpl; [|discriminate].
    intros [= <-]. rewrite length_map.
    apply (@rectangular_get_col _ _ _ _ R E).
  - destruct (term_column t1 df) as [c1|e]; simpl; [|discriminate].
    destruct (term_column t2 df) as [c2|e]; simpl; [|discriminate].
    intros [= <-]. rewrite zip_with_length.
    + now apply IH1.
    + rewrite (IH1 c1), (IH2 c2); reflexivity.
Qed.

Lemma term_columns_length (ts : list term) df (cols : list (Series cell)) :
  rectangular df -> term_columns ts df = Ok cols ->
  Forall (fun c => length c = shape0 df) cols.
Proof.
  intros R. revert cols. induction ts as [|t ts IH]; intros cols; simpl.
  - intros [= <-]. constructor.
  - destruct (term_column t df) as [c|e] eqn:E; simpl; [|discriminate].
    destruct (term_columns ts df) as [cs|e]; simpl; [|discriminate].
    intros [= <-]. constructor; [|now apply IH].
    now apply (term_column_length t R).
Qed.

Lemma linear_predictor_length (beta : list R) (cols : list (Series cell))
    (n : nat) :
  Forall (fun c => length c = n) cols ->
  length (linear_predictor beta cols n) = n.
Proof.
  intros H. revert beta.
  induction H as [|c cols Hc _ IH]; intros [|b beta]; simpl;
    try apply repeat_length.
  rewrite zip_with_length; rewrite length_map; [assumption|].
  now rewrite IH.
Qed.

(** One prediction per unit of the table. *)
Lemma predict_length (m : fitted) df (preds : Series cell) :
  rectangular df -> predict m df = Ok preds -> length preds = shape0 df.
Proof.
  intros R. unfold predict.
  destruct (term_columns (terms m) df) as [cols|e] eqn:E; simpl;
    [|discriminate].
  destruct (Nat.eqb (length (coef m)) (length cols)); [|discriminate].
  intros [= <-]. rewrite length_map.
  apply linear_predictor_length. now apply (term_columns_length (terms m) R).
Qed.

Lemma map_nth_seq {A} (d : A) (l : list A) :
  map (fun i => nth i l d) (seq 0 (length l)) = l.
Proof.
  induction l as [|x l IH]; simpl; [reflexivity|].
  f_equal. rewrite <- seq_shift, map_map. exact IH.
Qed.

(** The no-op policy gives the table back. *)
Lemma apply_policy_noop trt df :
  rectangular df -> has_col trt df = true ->
  apply_policy trt NoOp df = Ok df.
Proof.
  intros R H. unfold has_col in H.
  destruct (get_col trt df) as [a|e] eqn:E; [clear H | discriminate].
  simpl. rewrite E. simpl. unfold setitem.
  destruct df as [|kc rest] eqn:D; [discriminate|]. rewrite <- D in *.
  rewrite (@rectangular_get_col _ _ _ _ R E), Nat.eqb_refl.
  now rewrite (@put_col_same _ _ _ E).
Qed.

(** The Fitter's data are the complete cases at the positions of the
    fitting sample, one per position. *)
Lemma complete_cases_in_fit (cols : list (Series cell)) (y : Series cell)
    (positions : list nat) :
  complete_cases cols y positions
  = complete_cases cols y (filter (in_fit cols y) positions) /\
  length (complete_cases cols y positions)
  = length (filter (in_fit cols y) positions).
Proof.
  induction positions as [|i rest [IH1 IH2]]; [split; reflexivity|].
  cbn [complete_cases filter].
  assert (F : in_fit cols y i
              = match complete_case cols y i with
                | Some _ => true
                | None => false
                end) by reflexivity.
  rewrite F.
  destruct (complete_case cols y i) as [r|] eqn:E.
  - cbn [complete_cases length]. rewrite E.
    split; [now rewrite <- IH1 | now rewrite IH2].
  - split; assumption.
Qed.

(** C7, as the Standardizer has it.  Under the no-op policy the
    policy-modified table is the table itself, and the Standardizer
    returns the arithmetic mean of the model's per-unit predictions at
    the observed rows of every unit of the table that has a prediction,
    whether the unit entered the fit or not.  The in-sample mean
    prediction is the mean of the same predictions over the fitting
    sample; the two are equal when every unit of the table is in the
    fitting sample. *)
Theorem noop_standardization_is_in_sample_mean (m : fitted)
    (trt out : string) (df : DataFrame cell) :
  rectangular df -> has_col trt df = true ->
  apply_policy trt NoOp df = Ok df /\
  (forall preds, predict m df = Ok preds ->
     length preds = shape0 df /\
     standardize m trt NoOp df
     = Ok (match numbers preds with
           | [] => None
           | xs => Some (rsum xs / INR (length xs))
           end) /\
     forall pos, fitting_sample (terms m) out df = Ok pos ->
       in_sample_mean m out df
       = Ok (series_mean (map (fun i => nth i preds None) pos))) /\
  (forall e, predict m df = Raise e ->
     standardize m trt NoOp df = Raise e) /\
  (fitting_sample (terms m) out df = Ok (seq 0 (shape0 df)) ->
   standardize m trt NoOp df = in_sample_mean m out df).
Proof.
  intros R H. pose proof (@apply_policy_noop trt df R H) as P.
  split; [exact P|]. unfold standardize, in_sample_mean. rewrite P.
  cbn [rbind]. split; [|split].
  - intros preds E. rewrite E. cbn [rbind].
    split; [exact (@predict_length m df preds R E)|]. split.
    + unfold series_mean, np_mean. destruct (numbers preds); reflexivity.
    + intros pos ->. reflexivity.
  - intros e ->. reflexivity.
  - intros ->. destruct (predict m df) as [preds|e] eqn:E; cbn [rbind];
      [|reflexivity].
    rewrite <- (@predict_length m df preds R E), map_nth_seq. reflexivity.
Qed.

(** On the table of two units every unit is in the fitting sample, and
    the no-op Standardizer returns the in-sample mean prediction. *)
Lemma noop_standardization_witness :
  apply_policy "qsmk" NoOp two_units = Ok two_units /\
  fitting_sample (terms small_model) "wt82_71" two_units
  = Ok (seq 0 (shape0 two_units)) /\
  standardize small_model "qsmk" NoOp two_units
  = in_sample_mean small_model "wt82_71" two_units.
Proof.
  assert (R : rectangular two_units) by repeat constructor.
  assert (H : has_col "qsmk" two_units = true) by reflexivity.
  assert (F : fitting_sample (terms small_model) "wt82_71" two_units
              = Ok (seq 0 (shape0 two_units))) by reflexivity.
  destruct (@noop_standardization_is_in_sample_mean small_model "qsmk"
              "wt82_71" two_units R H) as (A & _ & _ & E).
  exact (conj A (conj F (E F))).
Defined.

(** The table of three units and the model that fits its two complete
    units exactly.  The predictions are 2, 5 and 2; the third unit has
    no outcome and is not in the fitting sample.  The Standardizer
    averages the three predictions, the in-sample mean the first two. *)
Lemma noop_standardization_differs_from_in_sample_mean :
  predict small_model three_units = Ok [Some 2; Some 5; Some 2] /\
  fitting_sample (terms small_model) "wt82_71" three_units = Ok [0; 1]%nat /\
  standardize small_model "qsmk" NoOp three_units = Ok (Some 3) /\
  in_sample_mean small_model "wt82_71" three_units = Ok (Some 3.5) /\
  standardize small_model "qsmk" NoOp three_units
  <> in_sample_mean small_model "wt82_71" three_units.
Proof.
  assert (P : predict small_model three_units = Ok [Some 2; Some 5; Some 2]).
  { unfold predict. simpl. repeat f_equal; lra. }
  assert (F : fitting_sample (terms small_model) "wt82_71" three_units
              = Ok [0; 1]%nat) by reflexivity.
  assert (S : standardize small_model "qsmk" NoOp three_units = Ok (Some 3)).
  { unfold standardize.
    change (apply_policy "qsmk" NoOp three_units) with (Ok three_units).
    cbn [rbind]. rewrite P. cbn [rbind].
    unfold series_mean, np_mean. simpl. do 2 f_equal. lra. }
  assert (I : in_sample_mean small_model "wt82_71" three_units
              = Ok (Some 3.5)).
  { unfold in_sample_mean. rewrite P. cbn [rbind]. rewrite F. cbn [rbind].
    unfold series_mean, np_mean. simpl. do 2 f_equal. lra. }
  repeat (split; [assumption|]).
  rewrite S, I. intros [= E]. lra.
Qed.

Lemma policy_changes_treatment_only_witness :
  let g := [("id", [Some 1; Some 2; Some 3]);
            ("qsmk", [Some 1; Some 1; Some 1]);
            ("wt82_71", [Some 2; Some 5; None])] in
  (forall other, other <> "qsmk" -> get_col other g = get_col other three_units) /\
  shape0 g = shape0 three_units /\
  (has_col "qsmk" three_units = true -> columns g = columns three_units) /\
  (rectangular three_units -> rectangular g) /\
  (forall (m : fitted) (out : string) (df' : DataFrame cell),
      ~ In out (flat_map term_fields (terms m)) ->
      agree_off out three_units df' ->
      predict m df' = predict m three_units /\
      (out <> "qsmk" ->
       forall q, fixed_policy q ->
         standardize m "qsmk" q df' = standardize m "qsmk" q three_units)).
Proof.
  apply (@policy_changes_treatment_only "qsmk" TreatAll three_units).
  reflexivity.
Defined.

End StandardizerFacts.

(* ================================================================== *)
(** * The [TimeFixedGFormula] object and the bootstrap loop *)
(* ================================================================== *)

Module BootstrapFacts.

Import Frame FrameFacts NumPy NumPyFacts Random RandomFacts GFormula.

Local Open Scope string_scope.
Local Open Scope list_scope.

(** ** The heap *)

Lemma update_length {A} (r : nat) (a : A) (l : list A) :
  length (update r a l) = length l.
Proof.
  revert r. induction l as [|x l IH]; intros [|r]; simpl; auto.
Qed.

Lemma nth_error_update_same {A} (r : nat) (a : A) (l : list A) :
  r < length l -> nth_error (update r a l) r = Some a.
Proof.
  revert r. induction l as [|x l IH]; intros [|r] H; simpl in *;
    try lia; auto.
  apply IH. lia.
Qed.

Lemma nth_error_update_other {A} (r r' : nat) (a : A) (l : list A) :
  r <> r' -> nth_error (update r a l) r' = nth_error l r'.
Proof.
  revert r r'. induction l as [|x l IH]; intros [|r] [|r'] H; simpl;
    try congruence; auto.
Qed.

Lemma update_last {A} (a x : A) (l : list A) :
  update (length l) a (l ++ [x]) = l ++ [a].
Proof. induction l as [|y l IH]; simpl; [reflexivity | now rewrite IH]. Qed.

Lemma same_model_refl (o : TimeFixedGFormula) : same_model o o.
Proof. repeat split. Qed.

Lemma same_model_trans (o1 o2 o3 : TimeFixedGFormula) :
  same_model o1 o2 -> same_model o2 o3 -> same_model o1 o3.
Proof.
  unfold same_model. intros (a & b & c & d & e) (a' & b' & c' & d' & e').
  repeat split; congruence.
Qed.

Lemma Forall2_same_model_refl (h : list TimeFixedGFormula) :
  Forall2 same_model h h.
Proof. induction h; constructor; auto using same_model_refl. Qed.

Lemma Forall2_same_model_trans (h1 h2 h3 : list TimeFixedGFormula) :
  Forall2 same_model h1 h2 -> Forall2 same_model h2 h3 ->
  Forall2 same_model h1 h3.
Proof.
  intros H. revert h3. induction H as [|o1 o2 h1 h2 S _ IH]; intros h3 H23;
    inversion H23; subst; constructor; eauto using same_model_trans.
Qed.

(** Overwriting an object by a state of it with the same model.  *)
Lemma Forall2_same_model_update (r : nat) (o o' : TimeFixedGFormula)
    (h : list TimeFixedGFormula) :
  nth_error h r = Some o -> same_model o o' ->
  Forall2 same_model h (update r o' h).
Proof.
  revert r. induction h as [|x h IH]; intros [|r] E S; simpl in *;
    try discriminate.
  - injection E as ->. constructor; auto using Forall2_same_model_refl.
  - constructor; auto using same_model_refl.
Qed.


Section WithCollaborators.

Context {G : Type} {RV : RandomVariate G}.

Variable solve : family -> list (list R) -> list R -> result (list R).

(** ** What the methods do to the state *)

Lemma fit_run (r : ref) (p : policy) (s : State G) :
  fit r p s =
  match nth_error (heap s) r with
  | None => (Raise (LibraryError "no such object"), s)
  | Some o =>
      match outcome_model_ o with
      | None =>
          (Raise (ValueError
                    "Before the g-formula can be calculated, the outcome model must be specified"),
           s)
      | Some m =>
          match standardize m (tf_exposure o) p (gf o) with
          | Raise e => (Raise e, s)
          | Ok v =>
              (Ok tt,
               mkState (rng s)
                 (update r
                    (mkTFGF (gf o) (tf_exposure o) (tf_outcome o)
                       (tf_outcome_type o) (outcome_model_ o) (Some v))
                    (heap s)))
          end
      end
  end.
Proof.
  unfold fit, bind, read, lift, write, modify, raise.
  destruct (nth_error (heap s) r) as [o|]; [|reflexivity].
  destruct (outcome_model_ o) as [m|]; [|reflexivity].
  destruct (standardize m (tf_exposure o) p (gf o)); reflexivity.
Qed.

Lemma outcome_model_run (r : ref) (ts : list term) (s : State G) :
  outcome_model solve r ts s =
  match nth_error (heap s) r with
  | None => (Raise (LibraryError "no such object"), s)
  | Some o =>
      match fit_model solve
              (mkSpec (tf_exposure o) (tf_outcome o) (tf_outcome_type o) ts)
              (gf o) with
      | Raise e => (Raise e, s)
      | Ok m =>
          (Ok tt,
           mkState (rng s)
             (update r
                (mkTFGF (gf o) (tf_exposure o) (tf_outcome o)
                   (tf_outcome_type o) (Some m) (marginal_outcome o))
                (heap s)))
      end
  end.
Proof.
  unfold outcome_model, bind, read, lift, write, modify.
  destruct (nth_error (heap s) r) as [o|]; [|reflexivity].
  destruct (fit_model solve _ (gf o)); reflexivity.
Qed.

(** A standardization leaves the generator alone and every object
    with the model it had. *)
Lemma fit_preserves (r : ref) (p : policy) (s : State G) :
  rng (snd (fit r p s)) = rng s /\
  Forall2 same_model (heap s) (heap (snd (fit r p s))).
Proof.
  rewrite fit_run.
  destruct (nth_error (heap s) r) as [o|] eqn:E;
    [|split; [reflexivity | apply Forall2_same_model_refl]].
  destruct (outcome_model_ o) as [m|] eqn:Em;
    [|split; [reflexivity | apply Forall2_same_model_refl]].
  destruct (standardize m (tf_exposure o) p (gf o)) as [v|e];
    [|split; [reflexivity | apply Forall2_same_model_refl]].
  split; [reflexivity|]. simpl.
  eapply Forall2_same_model_update;
    [exact E | unfold same_model; simpl; repeat split; congruence].
Qed.

(** Any sequence of standardizations, of any objects under any
    policies. *)
Lemma fits_preserve (calls : list (ref * policy)) (s : State G) :
  let s' := snd (mapM (fun c => fit (fst c) (snd c)) calls s) in
  rng s' = rng s /\ Forall2 same_model (heap s) (heap s').
Proof.
  revert s. induction calls as [|[r p] calls IH]; intros s; simpl.
  - split; [reflexivity | apply Forall2_same_model_refl].
  - unfold bind. destruct (fit_preserves r p s) as [Hr Hh].
    destruct (fit r p s) as [[[]|e] s1]; simpl in *; [|split; assumption].
    specialize (IH s1). simpl in IH. destruct IH as [Hr' Hh'].
    destruct (mapM _ calls s1) as [[l|e] s2]; simpl in *;
      split; try congruence;
      eapply Forall2_same_model_trans; eassumption.
Qed.

End WithCollaborators.


Section Loop.

Context {G : Type} {RV : RandomVariate G}.

Variable solve : family -> list (list R) -> list R -> result (list R).

Lemma nth_error_last {A} (h : list A) (o : A) :
  nth_error (h ++ [o]) (length h) = Some o.
Proof. induction h; simpl; auto. Qed.

Lemma sample_run (df : DataFrame cell) (s : State G) :
  sample df s =
  (take_rows (fst (randint (shape0 df) (shape0 df) (rng s))) df,
   mkState (snd (randint (shape0 df) (shape0 df) (rng s))) (heap s)).
Proof.
  unfold sample, bind, draw, lift.
  destruct (randint (shape0 df) (shape0 df) (rng s)) as [idx g]. simpl.
  destruct (take_rows idx df); reflexivity.
Qed.

(** What a standardization does to the newest object. *)
Lemma fit_last (p : policy) (g : G) (h : list TimeFixedGFormula)
    (o : TimeFixedGFormula) :
  exists o',
    snd (fit (length h) p (mkState g (h ++ [o]))) = mkState g (h ++ [o']) /\
    gf o' = gf o /\ outcome_model_ o' = outcome_model_ o.
Proof.
  rewrite fit_run. cbn [heap rng]. rewrite nth_error_last.
  destruct (outcome_model_ o) as [m|] eqn:Em; [|exists o; auto].
  destruct (standardize m (tf_exposure o) p (gf o)) as [v|e];
    [|exists o; auto].
  rewrite update_last. eexists. split; [reflexivity|]. simpl. auto.
Qed.

Lemma get_marginal_outcome_state (r : ref) (s : State G) :
  snd (get_marginal_outcome r s) = s.
Proof.
  unfold get_marginal_outcome, bind, read, ret.
  destruct (nth_error (heap s) r); reflexivity.
Qed.

(** One iteration of the loop: the objects that were there stay as
    they are, and at most one object is added, which holds the
    resample and the model fitted on it. *)
Lemma replicate_heap (sp : spec) (df : DataFrame cell) (s s' : State G)
    (res : result cell) :
  replicate solve sp df s = (res, s') ->
  exists objs,
    heap s' = heap s ++ objs /\
    length objs <= 1 /\
    Forall (own_fit solve sp df) objs /\
    (is_ok res = true ->
     length objs = 1 /\
     Forall (fun o => exists m, outcome_model_ o = Some m) objs).
Proof.
  unfold replicate. unfold bind at 1. rewrite sample_run.
  set (idx := fst (randint _ _ _)). set (g := snd (randint _ _ _)).
  destruct (take_rows idx df) as [dfs|e] eqn:Et.
  2:{ intros [= <- <-]. exists []. cbn [heap is_ok]. rewrite app_nil_r.
      repeat split; auto; intros; discriminate. }
  unfold bind at 1. unfold new_TimeFixedGFormula at 1. cbn [heap rng].
  set (h := heap s).
  unfold bind at 1. rewrite outcome_model_run. cbn [heap rng].
  rewrite nth_error_last.
  cbn [gf tf_exposure tf_outcome tf_outcome_type marginal_outcome].
  replace (mkSpec (exposure sp) (outcome sp) (outcome_type sp) (formula sp))
    with sp by (destruct sp; reflexivity).
  destruct (fit_model solve sp dfs) as [m|e] eqn:Ef.
  2:{ intros [= <- <-]. eexists [_]. cbn [heap is_ok].
      repeat split; auto; try (intros; discriminate).
      constructor; [|constructor]. split; [exists idx; exact Et|].
      simpl. discriminate. }
  rewrite update_last.
  set (o1 := mkTFGF dfs (exposure sp) (outcome sp) (outcome_type sp)
               (Some m) None).
  assert (Hown : forall o, gf o = dfs -> outcome_model_ o = Some m ->
                           own_fit solve sp df o).
  { intros o Hg Hm. split; [exists idx; congruence|].
    intros m' Hm'. rewrite Hg. congruence. }
  assert (Hfin : forall o (r : result cell),
            gf o = dfs -> outcome_model_ o = Some m ->
            exists objs,
              h ++ [o] = h ++ objs /\ length objs <= 1 /\
              Forall (own_fit solve sp df) objs /\
              (is_ok r = true ->
               length objs = 1 /\
               Forall (fun o => exists m, outcome_model_ o = Some m) objs)).
  { intros o r Hg Hm. exists [o]. repeat split; auto.
    constructor; [eauto | constructor]. }
  assert (G1 : gf o1 = dfs) by reflexivity.
  assert (M1 : outcome_model_ o1 = Some m) by reflexivity.
  destruct (fit_last TreatAll g h o1) as (o2 & E2 & G2 & M2).
  unfold bind at 1.
  destruct (fit (length h) TreatAll (mkState g (h ++ [o1])))
    as [[[]|e] s2] eqn:F1; simpl in E2; subst s2.
  2:{ intros [= <- <-]. apply Hfin; congruence. }
  unfold bind at 1.
  pose proof (get_marginal_outcome_state (length h) (mkState g (h ++ [o2])))
    as S1.
  destruct (get_marginal_outcome (length h) (mkState g (h ++ [o2])))
    as [[rall_b|e] s3]; simpl in S1; subst s3.
  2:{ intros [= <- <-]. apply Hfin; congruence. }
  destruct (fit_last TreatNone g h o2) as (o3 & E3 & G3 & M3).
  unfold bind at 1.
  destruct (fit (length h) TreatNone (mkState g (h ++ [o2])))
    as [[[]|e] s4] eqn:F2; simpl in E3; subst s4.
  2:{ intros [= <- <-]. apply Hfin; congruence. }
  unfold bind at 1.
  pose proof (get_marginal_outcome_state (length h) (mkState g (h ++ [o3])))
    as S2.
  destruct (get_marginal_outcome (length h) (mkState g (h ++ [o3])))
    as [[nall_b|e] s5]; simpl in S2; subst s5;
    unfold lift; intros [= <- <-]; apply Hfin; congruence.
Qed.

End Loop.


(** ** The loop *)

Lemma repeatM_S {S A} (n : nat) (body : M S A) (s : S) :
  repeatM (Datatypes.S n) body s =
  match body s with
  | (Ok a, s1) =>
      match repeatM n body s1 with
      | (Ok rest, s2) => (Ok (a :: rest), s2)
      | (Raise e, s2) => (Raise e, s2)
      end
  | (Raise e, s1) => (Raise e, s1)
  end.
Proof.
  simpl. unfold bind, ret.
  destruct (body s) as [[a|e] s1]; [|reflexivity].
  destruct (repeatM n body s1) as [[rest|e] s2]; reflexivity.
Qed.

Lemma repeatM_length {S A} (n : nat) (body : M S A) (s s' : S)
    (vs : list A) :
  repeatM n body s = (Ok vs, s') -> length vs = n.
Proof.
  revert s vs. induction n as [|n IH]; intros s vs.
  - simpl. unfold ret. now intros [= <- <-].
  - rewrite repeatM_S.
    destruct (body s) as [[a|e] s1]; [|discriminate].
    destruct (repeatM n body s1) as [[rest|e] s2] eqn:E; [|discriminate].
    intros [= <- <-]. simpl. f_equal. eapply IH. exact E.
Qed.

(** A loop that raises stopped at its first failing iteration. *)
Lemma repeatM_first_failure {S A} (n : nat) (body : M S A) (s s' : S)
    (e : exn) :
  repeatM n body s = (Raise e, s') ->
  exists k vs sk,
    k < n /\ repeatM k body s = (Ok vs, sk) /\ body sk = (Raise e, s').
Proof.
  revert s. induction n as [|n IH]; intros s.
  - simpl. unfold ret. discriminate.
  - rewrite repeatM_S.
    destruct (body s) as [[a|e0] s1] eqn:Eb.
    + destruct (repeatM n body s1) as [[rest|e1] s2] eqn:E; [discriminate|].
      intros [= -> ->].
      destruct (IH s1 E) as (k & vs & sk & Hk & Hr & Hb).
      exists (Datatypes.S k), (a :: vs), sk. split; [lia|]. split; [|exact Hb].
      rewrite repeatM_S, Eb, Hr. reflexivity.
    + intros [= -> ->]. exists 0, [], s. split; [lia|]. split; auto.
Qed.

Section LoopHeap.

Context {G : Type} {RV : RandomVariate G}.

Variable solve : family -> list (list R) -> list R -> result (list R).

(** The objects the loop creates: the heap grows at its end by at most
    one object per iteration, by exactly one when the loop completes,
    and every new object holds the fit of its own resample. *)
Lemma loop_heap (B : nat) (sp : spec) (df : DataFrame cell)
    (s s' : State G) (res : result (list cell)) :
  repeatM B (replicate solve sp df) s = (res, s') ->
  exists objs,
    heap s' = heap s ++ objs /\
    length objs <= B /\
    Forall (own_fit solve sp df) objs /\
    (is_ok res = true ->
     length objs = B /\
     Forall (fun o => exists m, outcome_model_ o = Some m) objs).
Proof.
  revert s s' res. induction B as [|B IH]; intros s s' res.
  - simpl. unfold ret. intros [= <- <-]. exists []. rewrite app_nil_r.
    repeat split; auto.
  - rewrite repeatM_S.
    destruct (replicate solve sp df s) as [r1 s1] eqn:E1.
    destruct (replicate_heap _ _ _ _ E1) as (o1 & H1 & L1 & F1 & K1).
    destruct r1 as [a|e].
    + destruct (repeatM B (replicate solve sp df) s1) as [r2 s2] eqn:E2.
      destruct (IH _ _ _ E2) as (o2 & H2 & L2 & F2 & K2).
      destruct (K1 eq_refl) as [K1l K1m].
      assert (Hres : (res, s') = (match r2 with
                                  | Ok rest => Ok (a :: rest)
                                  | Raise e => Raise e
                                  end, s2) ->
                     exists objs,
                       heap s' = heap s ++ objs /\
                       length objs <= Datatypes.S B /\
                       Forall (own_fit solve sp df) objs /\
                       (is_ok res = true ->
                        length objs = Datatypes.S B /\
                        Forall (fun o => exists m, outcome_model_ o = Some m)
                          objs)).
      { intros [= -> ->]. exists (o1 ++ o2).
        rewrite H2, H1, app_assoc. split; [reflexivity|].
        rewrite length_app. split; [lia|].
        split; [apply Forall_app; auto|].
        intros Hok. destruct r2 as [rest|e]; [|discriminate].
        destruct (K2 eq_refl) as [K2l K2m].
        split; [lia | apply Forall_app; auto]. }
      destruct r2; intros H; apply Hres; now rewrite H.
    + intros [= <- <-]. exists o1. repeat split; auto; try lia;
        intros; discriminate.
Qed.

End LoopHeap.


Section Claims.

Context {G : Type} {RV : RandomVariate G}.

Variable solve : family -> list (list R) -> list R -> result (list R).

Lemma fit_last_value (p : policy) (g : G) (h : list TimeFixedGFormula)
    (o : TimeFixedGFormula) (m : fitted) :
  outcome_model_ o = Some m ->
  fit (length h) p (mkState g (h ++ [o])) =
  match standardize m (tf_exposure o) p (gf o) with
  | Ok v =>
      (Ok tt,
       mkState g
         (h ++ [mkTFGF (gf o) (tf_exposure o) (tf_outcome o)
                  (tf_outcome_type o) (Some m) (Some v)]))
  | Raise e => (Raise e, mkState g (h ++ [o]))
  end.
Proof.
  intros Hm. rewrite fit_run. cbn [heap rng]. rewrite nth_error_last, Hm.
  destruct (standardize m (tf_exposure o) p (gf o)); [|reflexivity].
  now rewrite update_last.
Qed.

Lemma get_marginal_outcome_last (g : G) (h : list TimeFixedGFormula)
    (o : TimeFixedGFormula) :
  get_marginal_outcome (length h) (mkState g (h ++ [o]))
  = (Ok (marginal_outcome o), mkState g (h ++ [o])).
Proof.
  unfold get_marginal_outcome, bind, read, ret. cbn [heap].
  now rewrite nth_error_last.
Qed.

(** The point-estimate cell: [rall] and [nall] are the standardized
    means, under all-treated and all-untreated, of the model fitted on
    the full table. *)
Lemma point_estimate_values (sp : spec) (df : DataFrame cell) (s : State G) :
  match fst (point_estimate solve sp df s) with
  | Ok (_, rall, nall) =>
      exists m a b,
        fit_model solve sp df = Ok m /\
        standardize m (exposure sp) TreatAll df = Ok a /\
        standardize m (exposure sp) TreatNone df = Ok b /\
        rall = Some a /\ nall = Some b
  | Raise _ => True
  end.
Proof.
  unfold point_estimate. unfold bind at 1.
  unfold new_TimeFixedGFormula at 1. cbn [heap rng].
  unfold bind at 1. rewrite outcome_model_run. cbn [heap rng].
  rewrite nth_error_last.
  cbn [gf tf_exposure tf_outcome tf_outcome_type marginal_outcome].
  replace (mkSpec (exposure sp) (outcome sp) (outcome_type sp) (formula sp))
    with sp by (destruct sp; reflexivity).
  destruct (fit_model solve sp df) as [m|e] eqn:Em; [|exact I].
  rewrite update_last.
  unfold bind at 1. rewrite (fit_last_value _ _ _ _ (m := m)) by reflexivity.
  cbn [gf tf_exposure tf_outcome tf_outcome_type].
  destruct (standardize m (exposure sp) TreatAll df) as [a|e] eqn:Ea;
    [|exact I].
  unfold bind at 1. rewrite get_marginal_outcome_last. cbn [marginal_outcome].
  unfold bind at 1. rewrite (fit_last_value _ _ _ _ (m := m)) by reflexivity.
  cbn [gf tf_exposure tf_outcome tf_outcome_type].
  destruct (standardize m (exposure sp) TreatNone df) as [b|e] eqn:Eb;
    [|exact I].
  unfold bind at 1. rewrite get_marginal_outcome_last. cbn [marginal_outcome].
  unfold ret. cbn [fst].
  exists m, a, b. repeat split; assumption.
Qed.

(** C1.  The interval the bootstrap cell reports is the full-sample
    estimate [rall - nall] plus and minus 1.96 times the standard
    deviation of the replicates, the standard deviation being the
    population one ([np.std], [ddof=0]: the squared deviations are
    divided by the number [B] of replicates).  Both limits are written
    around [rall - nall]; the replicates enter through [np_std] alone,
    also when an entry is NaN or there is no replicate, so two lists of
    replicates with the same standard deviation give the same interval.
    The replicates 5 and 7 have mean 6 and the standard deviation of
    the replicates 0 and 2, whose mean is 1: the interval is the same
    for both lists.  [rall] and [nall] are the all-treated and
    all-untreated standardized means of the model fitted on the full
    table, and the bootstrap cell's interval is [wald_interval] of them
    and of its [B] replicates. *)
Theorem bootstrap_interval_is_wald (rall nall x : R) (xs : list R) :
  let reps := x :: xs in
  let pt := (rall - nall)%R in
  let sd := population_sd reps in
  wald_interval (Some (Some rall)) (Some (Some nall)) (map Some reps)
  = Ok (Some sd, Some (pt - 1.96 * sd)%R, Some (pt + 1.96 * sd)%R) /\
  (forall (r n : cell) (ests : list cell),
      wald_interval (Some r) (Some n) ests
      = Ok (np_std ests,
            csub (csub r n) (cmul (Some 1.96%R) (np_std ests)),
            cadd (csub r n) (cmul (Some 1.96%R) (np_std ests)))) /\
  (forall (r n : option cell) (ests ests' : list cell),
      np_std ests = np_std ests' ->
      wald_interval r n ests = wald_interval r n ests') /\
  (np_mean [0; 2]%R = Some 1%R /\ np_mean [5; 7]%R = Some 6%R /\
   np_std [Some 0; Some 2]%R = Some 1%R /\
   np_std [Some 5; Some 7]%R = Some 1%R /\
   wald_interval (Some (Some rall)) (Some (Some nall)) [Some 5; Some 7]%R
   = wald_interval (Some (Some rall)) (Some (Some nall)) [Some 0; Some 2]%R) /\
  (forall (sp : spec) (df : DataFrame cell) (s : State G),
      match fst (point_estimate solve sp df s) with
      | Ok (_, r, n) =>
          exists m a b,
            fit_model solve sp df = Ok m /\
            standardize m (exposure sp) TreatAll df = Ok a /\
            standardize m (exposure sp) TreatNone df = Ok b /\
            r = Some a /\ n = Some b
      | Raise _ => True
      end) /\
  (forall (B : nat) (sp : spec) (df : DataFrame cell) (r n : option cell)
          (s : State G),
      match fst (bootstrap solve B sp df r n s) with
      | Ok (ests, ci) => length ests = B /\ wald_interval r n ests = Ok ci
      | Raise _ => True
      end).
Proof.
  intros reps pt sd.
  split.
  { unfold wald_interval. subst sd pt reps.
    rewrite (IntervalFacts.np_std_numbers (x :: xs)). reflexivity. }
  split; [reflexivity|].
  split.
  { intros r n ests ests' E. unfold wald_interval. now rewrite E. }
  split.
  { destruct IntervalFacts.two_pairs_of_replicates as (M1 & M2 & S1 & S2).
    repeat (split; [assumption|]).
    unfold wald_interval. now rewrite S1, S2. }
  split; [exact (point_estimate_values)|].
  intros B sp df r n s. unfold bootstrap, bind.
  destruct (repeatM B (replicate solve sp df) s) as [[ests|e] s'] eqn:El;
    [|exact I].
  unfold lift, ret.
  destruct (wald_interval r n ests) as [ci|e] eqn:Ew; [|exact I].
  cbn [fst]. split; [exact (repeatM_length _ _ _ El) | exact Ew].
Qed.


(** One iteration of the loop: the replicate is the contrast of the
    two standardized means of the model fitted on the resample, both
    taken on the resample. *)
Lemma replicate_value (sp : spec) (df : DataFrame cell) (s : State G) :
  match fst (replicate solve sp df s) with
  | Ok v =>
      exists dfs s1 m a b,
        sample df s = (Ok dfs, s1) /\
        fit_model solve sp dfs = Ok m /\
        standardize m (exposure sp) TreatAll dfs = Ok a /\
        standardize m (exposure sp) TreatNone dfs = Ok b /\
        v = csub a b
  | Raise _ => True
  end.
Proof.
  unfold replicate. unfold bind at 1.
  destruct (sample df s) as [[dfs|e] s1] eqn:Es; [|exact I].
  unfold bind at 1. unfold new_TimeFixedGFormula at 1. cbn [heap rng].
  unfold bind at 1. rewrite outcome_model_run. cbn [heap rng].
  rewrite nth_error_last.
  cbn [gf tf_exposure tf_outcome tf_outcome_type marginal_outcome].
  replace (mkSpec (exposure sp) (outcome sp) (outcome_type sp) (formula sp))
    with sp by (destruct sp; reflexivity).
  destruct (fit_model solve sp dfs) as [m|e] eqn:Em; [|exact I].
  rewrite update_last.
  unfold bind at 1. rewrite (fit_last_value _ _ _ _ (m := m)) by reflexivity.
  cbn [gf tf_exposure tf_outcome tf_outcome_type].
  destruct (standardize m (exposure sp) TreatAll dfs) as [a|e] eqn:Ea;
    [|exact I].
  unfold bind at 1. rewrite get_marginal_outcome_last. cbn [marginal_outcome].
  unfold bind at 1. rewrite (fit_last_value _ _ _ _ (m := m)) by reflexivity.
  cbn [gf tf_exposure tf_outcome tf_outcome_type].
  destruct (standardize m (exposure sp) TreatNone dfs) as [b|e] eqn:Eb;
    [|exact I].
  unfold bind at 1. rewrite get_marginal_outcome_last. cbn [marginal_outcome].
  unfold lift, py_sub. cbn [fst].
  exists dfs, s1, m, a, b. repeat split; assumption.
Qed.

(** C4.  A fitted model stays as it was produced.  No standardization,
    of any object under any policy, and no sequence of them (all-treated
    then all-untreated in particular), changes the coefficient vector,
    the terms or the family of any object, or the generator.  Every
    iteration of the bootstrap loop builds a new object: the objects
    that existed stay in place, and each new object's model is the fit
    of the specification on that object's own resample, and the
    replicate it contributes is the contrast of that model's two
    standardized means on that resample. *)
Theorem fitted_model_is_immutable :
  (forall (calls : list (ref * policy)) (s : State G),
      let s' := snd (mapM (fun c => fit (fst c) (snd c)) calls s) in
      rng s' = rng s /\ Forall2 same_model (heap s) (heap s')) /\
  (forall (r : ref) (s : State G),
      let s' := snd ((fit r TreatAll ;;; fit r TreatNone)%eff s) in
      Forall2 same_model (heap s) (heap s') /\
      model_at r s' = model_at r s) /\
  (forall (B : nat) (sp : spec) (df : DataFrame cell)
          (rall nall : option cell) (s : State G),
      let run := bootstrap solve B sp df rall nall s in
      exists objs,
        heap (snd run) = heap s ++ objs /\
        length objs <= B /\
        Forall (own_fit solve sp df) objs /\
        (is_ok (fst run) = true ->
         length objs = B /\
         Forall (fun o => exists m, outcome_model_ o = Some m) objs)) /\
  (forall (sp : spec) (df : DataFrame cell) (s : State G),
      match fst (replicate solve sp df s) with
      | Ok v =>
          exists dfs s1 m a b,
            sample df s = (Ok dfs, s1) /\
            fit_model solve sp dfs = Ok m /\
            standardize m (exposure sp) TreatAll dfs = Ok a /\
            standardize m (exposure sp) TreatNone dfs = Ok b /\
            v = csub a b
      | Raise _ => True
      end).
Proof.
  split; [exact fits_preserve|]. split; [|split; [|exact replicate_value]].
  - intros r s s'.
    assert (H : Forall2 same_model (heap s) (heap s')).
    { pose proof (fits_preserve [(r, TreatAll); (r, TreatNone)] s) as [_ H].
      cbv zeta in H. unfold s'. simpl in H. unfold bind, ret in *.
      destruct (fit r TreatAll s) as [[[]|e] s1]; simpl in *; [|exact H].
      destruct (fit r TreatNone s1) as [[[]|e] s2]; simpl in *; exact H. }
    split; [exact H|]. unfold model_at.
    generalize dependent (heap s'). generalize (heap s). clear.
    intros h h' H. revert r.
    induction H as [|o o' h h' S _ IH]; intros [|r]; simpl; auto.
    destruct S as [S _]. exact S.
  - intros B sp df rall nall s run. unfold run, bootstrap, bind.
    destruct (repeatM B (replicate solve sp df) s) as [res s'] eqn:E.
    edestruct loop_heap as (objs & H & L & F & K); [exact E|].
    exists objs. destruct res as [ests|e]; simpl.
    + unfold lift, ret.
      destruct (wald_interval rall nall ests); simpl; repeat split; auto;
        try (apply K; reflexivity); intros; discriminate.
    + repeat split; auto; intros; discriminate.
Qed.

Lemma replicate_fit_failure (sp : spec) (df dfs : DataFrame cell)
    (s s1 : State G) (e : exn) :
  sample df s = (Ok dfs, s1) ->
  fit_model solve sp dfs = Raise e ->
  fst (replicate solve sp df s) = Raise e.
Proof.
  intros Hs Hf. unfold replicate. unfold bind at 1. rewrite Hs.
  unfold bind at 1. unfold new_TimeFixedGFormula at 1.
  unfold bind at 1. rewrite outcome_model_run. cbn [heap rng].
  rewrite nth_error_last.
  cbn [gf tf_exposure tf_outcome tf_outcome_type marginal_outcome].
  replace (mkSpec (exposure sp) (outcome sp) (outcome_type sp) (formula sp))
    with sp by (destruct sp; reflexivity).
  now rewrite Hf.
Qed.

(** C5, as the code has it.  The loop has no handler.  If an iteration
    raises (a fit that fails on its resample raises out of the
    iteration), the bootstrap cell ends with that very exception at the
    first failing iteration: the iterations before it succeeded, none
    after it runs, and no standard error or limit is computed.  If no
    iteration raises, all [B] replicates go into the interval.  The
    report prints three numbers, the estimate and the two limits. *)
Theorem bootstrap_failure_aborts (B : nat) (sp : spec) (df : DataFrame cell)
    (rall nall : option cell) (s : State G) :
  match repeatM B (replicate solve sp df) s with
  | (Raise e, s') =>
      bootstrap solve B sp df rall nall s = (Raise e, s') /\
      exists k vs sk,
        k < B /\
        repeatM k (replicate solve sp df) s = (Ok vs, sk) /\
        replicate solve sp df sk = (Raise e, s')
  | (Ok ests, s') =>
      length ests = B /\
      bootstrap solve B sp df rall nall s
      = (match wald_interval rall nall ests with
         | Ok ci => Ok (ests, ci)
         | Raise e => Raise e
         end, s')
  end /\
  match sample df s with
  | (Ok dfs, s1) =>
      forall e, fit_model solve sp dfs = Raise e ->
                fst (replicate solve sp df s) = Raise e
  | (Raise e, s1) => replicate solve sp df s = (Raise e, s1)
  end /\
  (forall lcl ucl : cell,
      match py_sub rall nall with
      | Ok d =>
          exists lines,
            report rall nall lcl ucl = Ok lines /\
            length lines = 5 /\
            printed_numbers lines = [d; lcl; ucl]
      | Raise e => report rall nall lcl ucl = Raise e
      end).
Proof.
  split; [|split].
  - destruct (repeatM B (replicate solve sp df) s) as [[ests|e] s'] eqn:E.
    + split; [exact (repeatM_length _ _ _ E)|].
      unfold bootstrap, bind. rewrite E. unfold lift, ret.
      destruct (wald_interval rall nall ests); reflexivity.
    + split; [unfold bootstrap, bind; now rewrite E|].
      exact (repeatM_first_failure _ _ _ E).
  - destruct (sample df s) as [[dfs|e] s1] eqn:Es.
    + intros e Hf. eapply replicate_fit_failure; eassumption.
    + unfold replicate. unfold bind at 1. now rewrite Es.
  - intros lcl ucl. unfold report.
    destruct (py_sub rall nall) as [d|e]; simpl; [|reflexivity].
    eexists. repeat split.
Qed.

End Claims.


(** ** Runs on the three-unit table *)

Local Open Scope R_scope.

(** With a solver that finds every design singular the notebook's loop
    of 200 iterations ends in the first one, with the solver's own
    exception. *)
Example singular_bootstrap_aborts :
  fst (bootstrap singular_solver 200 small_spec three_units
         (Some (Some 3)) (Some (Some 1)) fresh)
  = Raise (LibraryError "Singular matrix").
Proof. reflexivity. Qed.

Example point_estimate_three_units :
  is_ok (fst (point_estimate mean_solver small_spec three_units fresh)) = true /\
  is_ok (fst (bootstrap mean_solver notebook_B small_spec three_units
                (Some (Some 3)) (Some (Some 1)) fresh)) = true.
Proof. split; reflexivity. Qed.

Lemma bootstrap_interval_is_wald_witness :
  wald_interval (Some (Some 10)) (Some (Some 7)) [Some 0; Some 2]
  = Ok (Some (population_sd [0; 2]),
        Some (10 - 7 - 1.96 * population_sd [0; 2]),
        Some (10 - 7 + 1.96 * population_sd [0; 2])).
Proof.
  exact (proj1 (@bootstrap_interval_is_wald nat counter_generator mean_solver
                  10 7 0 [2])).
Defined.

Lemma fitted_model_is_immutable_witness :
  let run := bootstrap mean_solver 2 small_spec three_units
               (Some (Some 3)) (Some (Some 1)) fresh in
  is_ok (fst run) = true /\
  exists objs,
    heap (snd run) = heap fresh ++ objs /\
    (length objs <= 2)%nat /\
    Forall (own_fit mean_solver small_spec three_units) objs /\
    (is_ok (fst run) = true ->
     length objs = 2%nat /\
     Forall (fun o => exists m, outcome_model_ o = Some m) objs).
Proof.
  split.
  - reflexivity.
  - apply (proj1 (proj2 (proj2 (@fitted_model_is_immutable nat
                                  counter_generator mean_solver)))
             2%nat small_spec three_units (Some (Some 3)) (Some (Some 1))
             fresh).
Defined.

Lemma bootstrap_failure_aborts_witness :
  fit_model singular_solver small_spec (fst (Frame.taken None [0; 0; 1]%nat three_units, 0%nat))
  = Raise (LibraryError "Singular matrix") /\
  match repeatM 3 (replicate singular_solver small_spec three_units) fresh with
  | (Raise e, s') =>
      bootstrap singular_solver 3 small_spec three_units
        (Some (Some 3)) (Some (Some 1)) fresh = (Raise e, s') /\
      exists k vs sk,
        (k < 3)%nat /\
        repeatM k (replicate singular_solver small_spec three_units) fresh
        = (Ok vs, sk) /\
        replicate singular_solver small_spec three_units sk = (Raise e, s')
  | (Ok ests, s') =>
      length ests = 3%nat /\
      bootstrap singular_solver 3 small_spec three_units
        (Some (Some 3)) (Some (Some 1)) fresh
      = (match wald_interval (Some (Some 3)) (Some (Some 1)) ests with
         | Ok ci => Ok (ests, ci)
         | Raise e => Raise e
         end, s')
  end.
Proof.
  split.
  - reflexivity.
  - apply (@bootstrap_failure_aborts nat counter_generator singular_solver
             3%nat small_spec three_units (Some (Some 3)) (Some (Some 1))
             fresh).
Defined.

(** Two runs, of one replicate and of two: the reports are the same
    text, so the report does not tell how many replicates there were.
    And a table without any outcome: no resample can be fitted, and the
    bootstrap ends with the Fitter's own exception, not with a
    [DegenerateResampleError]. *)
Lemma bootstrap_report_counterexample :
  let rall := Some (Some 3) in
  let nall := Some (Some 1) in
  (length [Some 1] <> length [Some 1; Some 1] /\
   interval_report rall nall [Some 1]
   = interval_report rall nall [Some 1; Some 1] /\
   exists lines, interval_report rall nall [Some 1] = Ok lines) /\
  (fst (bootstrap mean_solver notebook_B small_spec no_outcome rall nall fresh)
   = Raise (InsufficientDataError "no complete case") /\
   forall msg,
     fst (bootstrap mean_solver notebook_B small_spec no_outcome rall nall fresh)
     <> Raise (DegenerateResampleError msg)).
Proof.
  intros rall nall. split.
  - split; [simpl; lia|].
    assert (E1 : np_std [Some 1] = Some 0).
    { unfold np_std. simpl. f_equal. unfold var_numbers. simpl.
      replace (((1 - (1 + 0) / 1) * (1 - (1 + 0) / 1) + 0) / 1) with 0
        by field.
      apply sqrt_0. }
    assert (E2 : np_std [Some 1; Some 1] = Some 0).
    { unfold np_std. simpl. f_equal. unfold var_numbers. simpl.
      replace (((1 - (1 + (1 + 0)) / (1 + 1)) * (1 - (1 + (1 + 0)) / (1 + 1)) +
                ((1 - (1 + (1 + 0)) / (1 + 1)) * (1 - (1 + (1 + 0)) / (1 + 1))
                 + 0))
               / (1 + 1)) with 0 by field.
      apply sqrt_0. }
    unfold interval_report, wald_interval. rewrite E1, E2.
    split; [reflexivity|]. eexists. reflexivity.
  - split; [reflexivity | intros msg; discriminate].
Qed.

End BootstrapFacts.


(* ================================================================== *)
(** * Selections: properties *)
(* ================================================================== *)

Module SelectFacts.

Import Frame FrameFacts Select.

Section WithCell.

Variable V : Type.

Implicit Types (df : DataFrame V) (c : Series V) (mask : list bool).

Lemma filter_mask_length mask c :
  length mask = length c ->
  length (filter_mask mask c) = count_true mask.
Proof.
  revert c. unfold count_true.
  induction mask as [|m ms IH]; intros [|x xs] H; simpl in *;
    try discriminate; auto.
  destruct m; simpl; rewrite IH by lia; reflexivity.
Qed.

Lemma filter_mask_map {W : Type} (f : V -> W) mask c :
  filter_mask mask (map f c) = map f (filter_mask mask c).
Proof.
  revert c. induction mask as [|m ms IH]; intros [|x xs]; simpl; auto.
  destruct m; simpl; now rewrite IH.
Qed.

Lemma filter_mask_all_true c :
  filter_mask (repeat true (length c)) c = c.
Proof. induction c as [|x xs IH]; simpl; [reflexivity | now rewrite IH]. Qed.

(** Selecting on the conjunction of two masks is selecting on the
    first and then, among the selected rows, on the second. *)
Lemma filter_mask_and (m1 m2 : list bool) c :
  filter_mask (NumPy.zip_with andb m1 m2) c
  = filter_mask (filter_mask m1 m2) (filter_mask m1 c).
Proof.
  revert m2 c. induction m1 as [|a m1 IH]; intros [|b m2] [|x xs];
    simpl; auto.
  - destruct a; simpl; auto. destruct (filter_mask m1 m2); reflexivity.
  - destruct a, b; simpl; now rewrite IH.
Qed.

Lemma filter_mask_In mask c x :
  In x (filter_mask mask c) -> In x c.
Proof.
  revert c. induction mask as [|m ms IH]; intros [|y ys]; simpl;
    try tauto.
  destruct m; simpl; intros H.
  - destruct H; auto.
  - right. auto.
Qed.

Lemma get_col_map_columns (f : Series V -> Series V) name df :
  get_col name (map (fun kc => (fst kc, f (snd kc))) df)
  = match get_col name df with
    | Ok c => Ok (f c)
    | Raise e => Raise e
    end.
Proof.
  induction df as [|[k c] rest IH]; simpl; [reflexivity|].
  destruct (String.eqb k name); auto.
Qed.

Lemma columns_map_columns (f : Series V -> Series V) df :
  columns (map (fun kc => (fst kc, f (snd kc))) df) = columns df.
Proof.
  unfold columns. rewrite map_map. reflexivity.
Qed.

Lemma shape0_masked mask df :
  length mask = shape0 df ->
  df <> [] ->
  shape0 (masked mask df) = count_true mask.
Proof.
  destruct df as [|[k c] rest]; [congruence|]. simpl. intros H _.
  now apply filter_mask_length.
Qed.

Lemma rectangular_masked mask df :
  rectangular df ->
  length mask = shape0 df ->
  rectangular (masked mask df).
Proof.
  intros R H. unfold rectangular, masked in *.
  destruct df as [|[k c] rest]; [constructor|].
  simpl in *. rewrite Forall_forall in *. intros kc Hin.
  change ((k, filter_mask mask c)
            :: map (fun kc => (fst kc, filter_mask mask (snd kc))) rest)
    with (map (fun kc => (fst kc, filter_mask mask (snd kc)))
            ((k, c) :: rest)) in Hin.
  apply in_map_iff in Hin. destruct Hin as [[k' c'] [<- Hin]]. simpl.
  pose proof (R _ Hin) as L. simpl in L.
  rewrite !filter_mask_length; auto; congruence.
Qed.

Lemma loc_rows_run mask df :
  length mask = shape0 df ->
  loc_rows mask df = Ok (masked mask df).
Proof.
  intros H. unfold loc_rows. rewrite H, Nat.eqb_refl. reflexivity.
Qed.

(** ** Records of a selection *)

Lemma row_at_rest (na : V) i df :
  row_at na i (rest_rows df) = row_at na (S i) df.
Proof.
  unfold row_at, rest_rows. rewrite map_map. apply map_ext.
  intros [k c]. simpl. destruct c; simpl; [now destruct i | reflexivity].
Qed.

Lemma row_at_first (na : V) df :
  row_at na 0 df = first_row na df.
Proof.
  unfold row_at, first_row. apply map_ext. intros [k c]. simpl.
  now destruct c.
Qed.

Lemma shape0_rest df n :
  shape0 df = S n -> shape0 (rest_rows df) = n.
Proof.
  destruct df as [|[k c] rest]; simpl; [discriminate|].
  destruct c; simpl; congruence.
Qed.

Lemma rectangular_rest df n :
  rectangular df -> shape0 df = S n -> rectangular (rest_rows df).
Proof.
  intros R H. pose proof (shape0_rest df H) as H'.
  unfold rectangular in *. rewrite H'. rewrite H in R.
  unfold rest_rows. rewrite Forall_forall in *. intros kc Hin.
  apply in_map_iff in Hin. destruct Hin as [[k c] [<- Hin]]. simpl.
  specialize (R _ Hin). simpl in R. destruct c; simpl in *; lia.
Qed.

Lemma rows_cons (na : V) df n :
  shape0 df = S n ->
  rows na df = first_row na df :: rows na (rest_rows df).
Proof.
  intros H. unfold rows. rewrite H, (shape0_rest df H).
  simpl. rewrite row_at_first. f_equal.
  rewrite <- seq_shift, map_map. apply map_ext. intros i.
  now rewrite row_at_rest.
Qed.

Lemma rows_nil (na : V) df : shape0 df = 0 -> rows na df = [].
Proof. intros H. unfold rows. now rewrite H. Qed.

Lemma masked_nil df :
  rectangular df -> shape0 df = 0 -> forall mask, masked mask df = df.
Proof.
  intros R H mask. unfold masked, rectangular in *. rewrite H in R.
  induction df as [|[k c] rest IH]; simpl; [reflexivity|].
  inversion R as [|? ? Hc Hrest]; subst. simpl in Hc.
  destruct c; [|discriminate].
  f_equal.
  - destruct mask; reflexivity.
  - destruct rest as [|[k' c'] rest']; [reflexivity|].
    apply IH; auto.
    inversion Hrest; subst. simpl in *. assumption.
Qed.

Lemma masked_false (ms : list bool) df n :
  rectangular df -> shape0 df = S n ->
  masked (false :: ms) df = masked ms (rest_rows df).
Proof.
  intros R H. unfold masked, rest_rows. rewrite map_map.
  apply map_ext_in. intros [k c] Hin. simpl.
  unfold rectangular in R. rewrite Forall_forall in R.
  specialize (R _ Hin). simpl in R. rewrite H in R.
  destruct c; [discriminate | reflexivity].
Qed.

Lemma masked_true (na : V) (ms : list bool) df n :
  rectangular df -> shape0 df = S n ->
  first_row na (masked (true :: ms) df) = first_row na df /\
  rest_rows (masked (true :: ms) df) = masked ms (rest_rows df) /\
  exists k, shape0 (masked (true :: ms) df) = S k.
Proof.
  intros R H. unfold masked, rest_rows, first_row. rewrite !map_map.
  unfold rectangular in R. rewrite Forall_forall in R. rewrite H in R.
  repeat split.
  - apply map_ext_in. intros [k c] Hin. simpl.
    specialize (R _ Hin). simpl in R.
    destruct c; [discriminate | reflexivity].
  - apply map_ext_in. intros [k c] Hin. simpl.
    specialize (R _ Hin). simpl in R.
    destruct c; [discriminate | reflexivity].
  - destruct df as [|[k c] rest]; [discriminate|]. simpl in *.
    destruct c; [discriminate|]. simpl. eauto.
Qed.

(** The records of a selection are the records of the frame in the
    selected rows: whole records, in their order. *)
Lemma rows_masked (na : V) mask df :
  rectangular df ->
  length mask = shape0 df ->
  rows na (masked mask df) = filter_mask mask (rows na df).
Proof.
  revert df. induction mask as [|m ms IH]; intros df R H; simpl in H.
  - rewrite (masked_nil R (eq_sym H)).
    rewrite (rows_nil na df (eq_sym H)). reflexivity.
  - symmetry in H.
    rewrite (rows_cons na df H).
    pose proof (rectangular_rest R H) as R'.
    pose proof (shape0_rest df H) as H'.
    specialize (IH (rest_rows df) R' (eq_sym H')).
    destruct m; simpl.
    + destruct (masked_true na ms R H) as (F & T & k & K).
      rewrite (rows_cons na _ K), F, T, IH. reflexivity.
    + rewrite (masked_false ms R H). exact IH.
Qed.

(** ** The first and the last rows *)

Lemma rows_head (na : V) n df :
  rectangular df ->
  rows na (head n df) = firstn n (rows na df).
Proof.
  revert df. induction n as [|n IH]; intros df R.
  - simpl. apply rows_nil. destruct df as [|[k c] rest]; reflexivity.
  - destruct (shape0 df) as [|N] eqn:H.
    + rewrite (rows_nil na df H). simpl.
      apply rows_nil. destruct df as [|[k c] rest]; [reflexivity|].
      simpl in *. destruct c; [reflexivity | discriminate].
    + rewrite (rows_cons na df H). simpl.
      assert (K : shape0 (head (S n) df) = S (shape0 (head n (rest_rows df)))).
      { destruct df as [|[k c] rest]; [discriminate|]. simpl in *.
        destruct c; [discriminate | reflexivity]. }
      rewrite (rows_cons na _ K).
      unfold rectangular in R. rewrite Forall_forall in R. rewrite H in R.
      f_equal.
      * unfold first_row, head. rewrite map_map.
        apply map_ext_in. intros [k c] Hin. simpl.
        specialize (R _ Hin). simpl in R.
        destruct c; [discriminate | reflexivity].
      * rewrite <- IH by (eapply rectangular_rest; eauto;
                          unfold rectangular; rewrite Forall_forall, H; auto).
        f_equal. unfold rest_rows, head. rewrite !map_map.
        apply map_ext_in. intros [k c] Hin. simpl.
        specialize (R _ Hin). simpl in R.
        destruct c; [discriminate | reflexivity].
Qed.

Lemma rows_skip (na : V) n df :
  rectangular df ->
  rows na (map (fun kc => (fst kc, skipn n (snd kc))) df)
  = skipn n (rows na df).
Proof.
  revert df. induction n as [|n IH]; intros df R.
  - simpl. f_equal. rewrite <- (map_id df) at 2. apply map_ext.
    now intros [k c].
  - destruct (shape0 df) as [|N] eqn:H.
    + rewrite (rows_nil na df H). simpl.
      apply rows_nil. destruct df as [|[k c] rest]; [reflexivity|].
      simpl in *. destruct c; [reflexivity | discriminate].
    + rewrite (rows_cons na df H). simpl.
      rewrite <- IH by (eapply rectangular_rest; eauto).
      f_equal. unfold rest_rows. rewrite !map_map.
      unfold rectangular in R. rewrite Forall_forall in R. rewrite H in R.
      apply map_ext_in. intros [k c] Hin. simpl.
      specialize (R _ Hin). simpl in R.
      destruct c; [discriminate | reflexivity].
Qed.

Lemma rows_tail (na : V) n df :
  rectangular df ->
  rows na (tail n df) = skipn (shape0 df - n) (rows na df).
Proof.
  intros R. rewrite <- rows_skip by assumption.
  f_equal. unfold tail, series_tail.
  unfold rectangular in R. rewrite Forall_forall in R.
  apply map_ext_in. intros [k c] Hin. simpl.
  specialize (R _ Hin). simpl in R. now rewrite R.
Qed.

Lemma has_col_map_columns (f : Series V -> Series V) name df :
  has_col name (map (fun kc => (fst kc, f (snd kc))) df) = has_col name df.
Proof.
  unfold has_col. rewrite get_col_map_columns.
  now destruct (get_col name df).
Qed.

Lemma take_columns_map_columns (f : Series V -> Series V) names df :
  take_columns names (map (fun kc => (fst kc, f (snd kc))) df)
  = match take_columns names df with
    | Ok d => Ok (map (fun kc => (fst kc, f (snd kc))) d)
    | Raise e => Raise e
    end.
Proof.
  induction names as [|n ns IH]; simpl; [reflexivity|].
  rewrite get_col_map_columns.
  destruct (get_col n df) as [c|e]; [|reflexivity].
  rewrite IH. destruct (take_columns ns df); reflexivity.
Qed.

Lemma select_map_columns (f : Series V -> Series V) names df :
  select names (map (fun kc => (fst kc, f (snd kc))) df)
  = match select names df with
    | Ok d => Ok (map (fun kc => (fst kc, f (snd kc))) d)
    | Raise e => Raise e
    end.
Proof.
  unfold select.
  rewrite (filter_ext (fun n => negb (has_col n (map _ df)))
             (fun n => negb (has_col n df)))
    by (intros n; now rewrite has_col_map_columns).
  destruct (filter _ names); [apply take_columns_map_columns | reflexivity].
Qed.

End WithCell.

Local Open Scope string_scope.

(** Labels that are no columns: one [KeyError] that lists them. *)
Example select_unknown_labels :
  select ["W"; "Z"] [("W", [1%nat]); ("L", [2%nat])]
  = Raise (KeyError "['Z'] not in index") /\
  select ["Z"; "V"] [("W", [1%nat]); ("L", [2%nat])]
  = Raise (KeyError
             "None of [Index(['Z', 'V'], dtype='object')] are in the [columns]") /\
  select ["L"; "W"] [("W", [1%nat]); ("L", [2%nat])]
  = Ok [("L", [2%nat]); ("W", [1%nat])].
Proof. repeat split. Qed.

End SelectFacts.


(* ================================================================== *)
(** * Facts about binary64 arithmetic *)
(* ================================================================== *)

Module FloatFacts.

(** ** Rounding never yields NaN *)

Lemma shr_1_nonneg r : (0 <= shr_m r)%Z -> (0 <= shr_m (shr_1 r))%Z.
Proof.
  destruct r as [m rr s]. simpl. destruct m as [|p|p]; simpl; try lia.
  destruct p; simpl; lia.
Qed.

Lemma iter_pos_shr_1_nonneg p r :
  (0 <= shr_m r)%Z -> (0 <= shr_m (iter_pos shr_1 p r))%Z.
Proof.
  revert r. induction p as [p IH|p IH|]; intros r H; simpl.
  - apply IH, IH, shr_1_nonneg, H.
  - apply IH, IH, H.
  - apply shr_1_nonneg, H.
Qed.

Lemma shr_fexp_nonneg prec emax m e l :
  (0 <= m)%Z -> (0 <= shr_m (fst (shr_fexp prec emax m e l)))%Z.
Proof.
  intros H. unfold shr_fexp, shr.
  assert (H0 : (0 <= shr_m (shr_record_of_loc m l))%Z).
  { destruct l as [|[ | | ]]; simpl; exact H. }
  destruct (fexp prec emax (Zdigits2 m + e) - e)%Z; simpl; auto.
  now apply iter_pos_shr_1_nonneg.
Qed.

Lemma round_nearest_even_nonneg m l :
  (0 <= m)%Z -> (0 <= round_nearest_even m l)%Z.
Proof.
  intros H. unfold round_nearest_even.
  destruct l as [|[ | | ]]; try lia.
  destruct (IntDef.Z.even m); lia.
Qed.

Lemma binary_round_aux_number prec emax sx mx ex lx :
  (0 <= mx)%Z -> binary_round_aux prec emax sx mx ex lx <> S754_nan.
Proof.
  intros H. unfold binary_round_aux.
  pose proof (@shr_fexp_nonneg prec emax mx ex lx H) as H1.
  destruct (shr_fexp prec emax mx ex lx) as [mrs' e']. simpl in H1.
  pose proof (@shr_fexp_nonneg prec emax
                (round_nearest_even (shr_m mrs') (loc_of_shr_record mrs'))
                e' loc_Exact
                (@round_nearest_even_nonneg _ _ H1)) as H2.
  destruct (shr_fexp prec emax _ e' loc_Exact) as [mrs'' e'']. simpl in H2.
  destruct (shr_m mrs''); try discriminate; try lia.
  destruct (e'' <=? emax - prec)%Z; discriminate.
Qed.

Lemma binary_normalize_number prec emax m e s :
  binary_normalize prec emax m e s <> S754_nan.
Proof.
  unfold binary_normalize, binary_round.
  destruct m; try discriminate;
    destruct (shl_align _ _ _); apply binary_round_aux_number; lia.
Qed.

Lemma SFadd_nan x y :
  SF64add x y = S754_nan ->
  x = S754_nan \/ y = S754_nan \/
  exists s, x = S754_infinity s /\ y = S754_infinity (negb s).
Proof.
  unfold SF64add, SFadd.
  destruct x as [sx|sx| |sx mx ex], y as [sy|sy| |sy my ey]; auto;
    try (destruct sx, sy; discriminate); try discriminate.
  - destruct sx, sy; try discriminate; intros _; right; right.
    + exists true; auto.
    + exists false; auto.
  - intros H. now apply binary_normalize_number in H.
Qed.

Lemma SFmul_nan x y :
  SF64mul x y = S754_nan ->
  x = S754_nan \/ y = S754_nan \/
  (exists s t, x = S754_zero s /\ y = S754_infinity t) \/
  (exists s t, x = S754_infinity s /\ y = S754_zero t).
Proof.
  unfold SF64mul, SFmul.
  destruct x as [sx|sx| |sx mx ex], y as [sy|sy| |sy my ey]; auto;
    try discriminate; eauto 7.
  intros H. apply binary_round_aux_number in H; [tauto | lia].
Qed.

Lemma SFdiv_nan x y :
  SF64div x y = S754_nan ->
  x = S754_nan \/ y = S754_nan \/
  (exists s t, x = S754_zero s /\ y = S754_zero t) \/
  (exists s t, x = S754_infinity s /\ y = S754_infinity t).
Proof.
  unfold SF64div, SFdiv.
  destruct x as [sx|sx| |sx mx ex], y as [sy|sy| |sy my ey]; auto;
    try discriminate; eauto 7.
  intros H. exfalso. revert H.
  unfold SFdiv_core_binary.
  set (m' := match _ with 0%Z => _ | Z.pos _ => _ | Z.neg _ => _ end).
  assert (Hm : (0 <= m')%Z).
  { unfold m'. destruct (_ - _ - _)%Z; try lia.
    apply Z.shiftl_nonneg. lia. }
  pose proof (Z.div_pos m' (Z.pos my) Hm ltac:(lia)) as Hq.
  unfold Z.div in Hq.
  change (IntDef.Z.div_eucl m' (Z.pos my)) with (Z.div_eucl m' (Z.pos my)).
  destruct (Z.div_eucl m' (Z.pos my)) as [q r].
  now apply binary_round_aux_number.
Qed.

Lemma SFsqrt_nan x :
  SF64sqrt x = S754_nan ->
  x = S754_nan \/ x = S754_infinity true \/ exists m e, x = S754_finite true m e.
Proof.
  unfold SF64sqrt, SFsqrt.
  destruct x as [sx|sx| |sx mx ex]; auto; try discriminate.
  - destruct sx; auto; discriminate.
  - destruct sx; eauto.
    intros H. exfalso. revert H.
    unfold SFsqrt_core_binary.
    set (m' := match _ with 0%Z => _ | Z.pos _ => _ | Z.neg _ => _ end).
    pose proof (Z.sqrtrem_sqrt m') as Hs.
    pose proof (Z.sqrt_nonneg m') as Hq.
    change (IntDef.Z.sqrtrem m') with (Z.sqrtrem m').
    destruct (Z.sqrtrem m') as [q r]. simpl in Hs. subst q.
    now apply binary_round_aux_number.
Qed.

(** ** The order of the comparison *)

Lemma SFcompare_Lt_trans (x y z : spec_float) :
  SFcompare x y = Some Lt -> SFcompare y z = Some Lt ->
  SFcompare x z = Some Lt.
Proof.
  destruct x as [s1|s1| |s1 m1 e1], y as [s2|s2| |s2 m2 e2],
           z as [s3|s3| |s3 m3 e3]; simpl;
    try discriminate;
    try (destruct s1; simpl; try discriminate; try reflexivity;
         destruct s2; simpl; try discriminate; try reflexivity;
         destruct s3; simpl; try discriminate; reflexivity);
    try (destruct s1, s2; simpl; try discriminate; reflexivity);
    try (destruct s2, s3; simpl; try discriminate; reflexivity);
    try (destruct s1, s3; simpl; try discriminate; reflexivity);
    try (destruct s1, s2, s3; simpl; try discriminate; reflexivity).
  change (PosDef.Pos.compare_cont Eq m1 m2) with (Pos.compare m1 m2).
  change (PosDef.Pos.compare_cont Eq m2 m3) with (Pos.compare m2 m3).
  change (PosDef.Pos.compare_cont Eq m1 m3) with (Pos.compare m1 m3).
  destruct s1, s2, s3; try discriminate; try reflexivity;
    destruct (Z.compare_spec e1 e2), (Z.compare_spec e2 e3),
             (Z.compare_spec e1 e3);
    try discriminate; try reflexivity; try lia;
    destruct (Pos.compare_spec m1 m2), (Pos.compare_spec m2 m3),
             (Pos.compare_spec m1 m3);
    simpl; try discriminate; try reflexivity; try lia.
Qed.

Lemma SFcompare_Eq_trans (x y z : spec_float) :
  SFcompare x y = Some Eq -> SFcompare y z = Some Eq ->
  SFcompare x z = Some Eq.
Proof.
  destruct x as [s1|s1| |s1 m1 e1], y as [s2|s2| |s2 m2 e2],
           z as [s3|s3| |s3 m3 e3]; simpl;
    try discriminate;
    try (destruct s1; simpl; try discriminate; try reflexivity;
         destruct s2; simpl; try discriminate; try reflexivity;
         destruct s3; simpl; try discriminate; reflexivity);
    try (destruct s1, s2; simpl; try discriminate; reflexivity);
    try (destruct s2, s3; simpl; try discriminate; reflexivity);
    try (destruct s1, s3; simpl; try discriminate; reflexivity);
    try (destruct s1, s2, s3; simpl; try discriminate; reflexivity).
  change (PosDef.Pos.compare_cont Eq m1 m2) with (Pos.compare m1 m2).
  change (PosDef.Pos.compare_cont Eq m2 m3) with (Pos.compare m2 m3).
  change (PosDef.Pos.compare_cont Eq m1 m3) with (Pos.compare m1 m3).
  destruct s1, s2, s3; try discriminate; try reflexivity;
    destruct (Z.compare_spec e1 e2), (Z.compare_spec e2 e3),
             (Z.compare_spec e1 e3);
    try discriminate; try reflexivity; try lia;
    destruct (Pos.compare_spec m1 m2), (Pos.compare_spec m2 m3),
             (Pos.compare_spec m1 m3);
    simpl; try discriminate; try reflexivity; try lia.
Qed.

End FloatFacts.


(* ================================================================== *)
(** * Missing values, selections and operations: properties *)
(* ================================================================== *)

Module DataManagementFacts.

Import Frame FrameFacts NumPy NumPyFacts Recode RecodeFacts Select SelectFacts
  FloatFacts DataManagement.

Local Open Scope float_scope.
Local Open Scope string_scope.
Local Open Scope list_scope.

(** ** IEEE equality and NaN *)

Lemma isnan_spec (x : float) : isnan x = true <-> x = nan.
Proof.
  unfold isnan. split.
  - intros H. apply nan_unique. destruct (Prim2SF x); congruence.
  - intros ->. reflexivity.
Qed.

Lemma SFcompare_refl (s : spec_float) :
  SFcompare s s = match s with S754_nan => None | _ => Some Eq end.
Proof.
  destruct s as [b|b| |b m e]; simpl; try reflexivity.
  - now destruct b.
  - destruct b; rewrite Z.compare_refl;
      change (PosDef.Pos.compare_cont Eq m m) with (Pos.compare m m);
      now rewrite Pos.compare_refl.
Qed.

Lemma np_eq_refl (x : float) : np_eq x x = negb (isnan x).
Proof.
  unfold np_eq, isnan. rewrite eqb_spec. unfold SFeqb.
  rewrite SFcompare_refl. now destruct (Prim2SF x).
Qed.

Lemma np_eq_sym (x y : float) : np_eq x y = np_eq y x.
Proof.
  unfold np_eq. rewrite !eqb_spec. unfold SFeqb.
  rewrite (SFcompare_antisym (Prim2SF y) (Prim2SF x)).
  now destruct (SFcompare (Prim2SF y) (Prim2SF x)) as [[ | | ]|].
Qed.

Lemma np_eq_nan_l (x y : float) : isnan x = true -> np_eq x y = false.
Proof.
  unfold np_eq, isnan. rewrite eqb_spec. unfold SFeqb.
  destruct (Prim2SF x); try discriminate. reflexivity.
Qed.

Lemma np_eq_nan_r (x y : float) : isnan y = true -> np_eq x y = false.
Proof. intros H. rewrite np_eq_sym. now apply np_eq_nan_l. Qed.

(** X1.  A missing value equals nothing, itself included: [x == x] is
    false exactly when [x] is NaN, so that a comparison never finds a
    missing value and [np.isnan] / [pd.isnull] has to be used; two
    values that compare equal are both present. *)
Theorem nan_is_not_equal_to_nan (x y : float) :
  np_eq nan nan = false /\
  isnan nan = true /\
  np_eq x x = negb (isnan x) /\
  (isnan x = true -> np_eq x y = false /\ np_eq y x = false) /\
  (np_eq x y = true -> isnan x = false /\ isnan y = false).
Proof.
  split; [reflexivity|]. split; [reflexivity|].
  split; [apply np_eq_refl|]. split.
  - intros H. split; [now apply np_eq_nan_l | now apply np_eq_nan_r].
  - intros H. split.
    + destruct (isnan x) eqn:E; [|reflexivity].
      rewrite (@np_eq_nan_l x y E) in H. discriminate.
    + destruct (isnan y) eqn:E; [|reflexivity].
      rewrite (@np_eq_nan_r x y E) in H. discriminate.
Qed.

(** ** Row selection *)

Lemma count_true_eq (c : Series float) (k : float) :
  count_true (eq c k) = value_count c k.
Proof.
  unfold count_true, value_count, eq.
  induction c as [|x c IH]; simpl; [reflexivity|].
  destruct (PrimFloat.eqb x k); simpl; now rewrite IH.
Qed.

Lemma filter_mask_eq (c : Series float) (k : float) :
  Forall (fun x => np_eq x k = true) (filter_mask (eq c k) c).
Proof.
  induction c as [|x c IH]; simpl; [constructor|].
  destruct (PrimFloat.eqb x k) eqn:E; [constructor|]; assumption.
Qed.

Lemma eq_length (c : Series float) (k : float) : length (eq c k) = length c.
Proof. apply length_map. Qed.

Lemma treated_run (df : DataFrame float) (art : Series float) :
  rectangular df ->
  get_col "art" df = Ok art ->
  treated df = Ok (masked (eq art 1) df).
Proof.
  intros R H. unfold treated. rewrite H. simpl.
  apply loc_rows_run. rewrite eq_length.
  exact (@rectangular_get_col _ _ _ _ R H).
Qed.

(** X2.  [df.loc[df['art']==1]] keeps the columns of the frame and
    selects whole records, in their order: the records of the result
    are the records of the frame in the rows where [art] equals 1.
    Their number is the count [value_counts()] gives for 1, every
    selected record has [art] equal to 1, and a record whose [art] is
    missing is never selected. *)
Theorem treated_selects_whole_rows (df : DataFrame float)
    (art : Series float) :
  rectangular df ->
  get_col "art" df = Ok art ->
  exists d,
    treated df = Ok d /\
    columns d = columns df /\
    rectangular d /\
    shape0 d = value_count art 1 /\
    rows nan d = filter_mask (eq art 1) (rows nan df) /\
    exists art',
      get_col "art" d = Ok art' /\
      Forall (fun x => np_eq x 1 = true /\ isnan x = false) art'.
Proof.
  intros R H.
  pose proof (@rectangular_get_col _ _ _ _ R H) as L.
  assert (Lm : length (eq art 1) = shape0 df) by now rewrite eq_length.
  exists (masked (eq art 1) df).
  split; [now apply treated_run|].
  split; [apply columns_map_columns|].
  split; [now apply rectangular_masked|].
  split.
  { rewrite shape0_masked; auto using count_true_eq.
    intros ->. discriminate. }
  split; [now apply rows_masked|].
  exists (filter_mask (eq art 1) art). split.
  - unfold masked. rewrite get_col_map_columns, H. reflexivity.
  - pose proof (filter_mask_eq art 1) as F.
    rewrite Forall_forall in *. intros x Hx. specialize (F x Hx).
    split; [assumption|].
    destruct (isnan x) eqn:E; [|reflexivity].
    rewrite (@np_eq_nan_l x 1 E) in F. discriminate.
Qed.

Lemma treated_selects_whole_rows_witness :
  exists d,
    treated cohort = Ok d /\
    columns d = columns cohort /\
    rectangular d /\
    shape0 d = value_count [1; 0; nan; 1] 1 /\
    rows nan d = filter_mask (eq [1; 0; nan; 1] 1) (rows nan cohort) /\
    exists art',
      get_col "art" d = Ok art' /\
      Forall (fun x => np_eq x 1 = true /\ isnan x = false) art'.
Proof.
  apply (@treated_selects_whole_rows cohort [1; 0; nan; 1]).
  - repeat constructor.
  - reflexivity.
Defined.


Lemma gt_filter_mask (mask : list bool) (c : Series float) (k : float) :
  gt (filter_mask mask c) k = filter_mask mask (gt c k).
Proof. unfold gt. now rewrite filter_mask_map. Qed.

Lemma masked_masked {V} (m1 m2 : list bool) (df : DataFrame V) :
  masked (filter_mask m1 m2) (masked m1 df) = masked (and_ m1 m2) df.
Proof.
  unfold masked, and_. rewrite map_map. apply map_ext. intros [k c]. simpl.
  now rewrite filter_mask_and.
Qed.

Lemma and_length (a b : list bool) :
  length b = length a -> length (and_ a b) = length a.
Proof. apply zip_with_length. Qed.

(** X3.  Selecting on the conjunction
    [(df['art'] == 1) & (df['age0'] > 48)] is selecting the rows with
    [art] equal to 1 and then, among those, the rows with [age0] above
    48; it fails with the same [KeyError] when a column is not
    there. *)
Theorem conjunction_is_successive_selection (df : DataFrame float) :
  rectangular df ->
  treated_above_48 df
  = (do d <- treated df;
     do age0 <- get_col "age0" d;
     loc_rows (gt age0 48) d)%py.
Proof.
  intros R. unfold treated_above_48.
  destruct (get_col "art" df) as [art|e] eqn:Ha.
  2:{ unfold treated. rewrite Ha. reflexivity. }
  rewrite (treated_run R Ha). simpl.
  pose proof (@rectangular_get_col _ _ _ _ R Ha) as La.
  unfold masked at 1. rewrite get_col_map_columns. fold (masked (eq art 1) df).
  destruct (get_col "age0" df) as [age0|e] eqn:Hg; [|reflexivity].
  simpl.
  pose proof (@rectangular_get_col _ _ _ _ R Hg) as Lg.
  assert (L1 : length (eq art 1) = shape0 df) by now rewrite eq_length.
  assert (L2 : length (gt age0 48) = length (eq art 1)).
  { rewrite gt_length, eq_length. congruence. }
  rewrite loc_rows_run by (rewrite and_length; auto).
  rewrite gt_filter_mask.
  rewrite loc_rows_run.
  - now rewrite masked_masked.
  - rewrite filter_mask_length by auto.
    destruct df as [|kc rest]; [discriminate|].
    rewrite shape0_masked; auto. discriminate.
Qed.

Lemma conjunction_is_successive_selection_witness :
  treated_above_48 cohort
  = (do d <- treated cohort;
     do age0 <- get_col "age0" d;
     loc_rows (gt age0 48) d)%py.
Proof.
  apply (@conjunction_is_successive_selection cohort).
  repeat constructor.
Defined.

(** On the four participants the conjunction selects the first one
    only: the fourth is on treatment but has no age. *)
Example treated_above_48_cohort :
  treated_above_48 cohort
  = Ok [("art", [1]); ("age0", [52]); ("cd40", [350]); ("dead", [0])].
Proof. reflexivity. Qed.


(** X4.  [df.loc[df['art'] == 1, 'cd40']] is the column [cd40] of the
    row selection [df.loc[df['art'] == 1]]: the same entries, and the
    same [KeyError] when [art] or [cd40] is not a column. *)
Theorem row_and_column_selection (df : DataFrame float) :
  rectangular df ->
  cd40_of_treated df = (do d <- treated df; get_col "cd40" d)%py.
Proof.
  intros R. unfold cd40_of_treated.
  destruct (get_col "art" df) as [art|e] eqn:Ha.
  2:{ unfold treated. rewrite Ha. reflexivity. }
  rewrite (treated_run R Ha). simpl.
  unfold masked. rewrite get_col_map_columns.
  unfold loc_rows_col.
  destruct (get_col "cd40" df) as [cd40|e] eqn:Hc; [|reflexivity].
  simpl.
  rewrite eq_length.
  rewrite (@rectangular_get_col _ _ _ _ R Ha).
  rewrite (@rectangular_get_col _ _ _ _ R Hc).
  now rewrite Nat.eqb_refl.
Qed.

Lemma row_and_column_selection_witness :
  cd40_of_treated cohort = (do d <- treated cohort; get_col "cd40" d)%py.
Proof.
  apply (@row_and_column_selection cohort).
  repeat constructor.
Defined.


(** X5.  [head(n)] and [tail(n)] return whole records: the first [n]
    and the last [n] records of the frame (all of them when the frame
    has fewer); the first [n] and the last [N - n] records together
    are the frame's records; and taking the last rows of the columns
    [art] and [dead] is selecting these columns from the last rows of
    the frame. *)
Theorem head_and_tail_rows (df : DataFrame float) (n : nat) :
  rectangular df ->
  rows nan (head n df) = firstn n (rows nan df) /\
  rows nan (tail n df) = skipn (shape0 df - n) (rows nan df) /\
  ((n <= shape0 df)%nat ->
   rows nan (head n df) ++ rows nan (tail (shape0 df - n) df)
   = rows nan df) /\
  art_dead_tail n df = select ["art"; "dead"] (tail n df).
Proof.
  intros R. split; [now apply rows_head|].
  split; [now apply rows_tail|]. split.
  - intros Hn. rewrite rows_head, rows_tail by assumption.
    replace (shape0 df - (shape0 df - n))%nat with n by lia.
    apply firstn_skipn.
  - unfold art_dead_tail, tail. rewrite select_map_columns.
    destruct (select ["art"; "dead"] df); reflexivity.
Qed.

Lemma head_and_tail_rows_witness :
  rows nan (head 3 cohort) = firstn 3 (rows nan cohort) /\
  rows nan (tail 3 cohort) = skipn (shape0 cohort - 3) (rows nan cohort) /\
  ((3 <= shape0 cohort)%nat ->
   rows nan (head 3 cohort) ++ rows nan (tail (shape0 cohort - 3) cohort)
   = rows nan cohort) /\
  art_dead_tail 3 cohort = select ["art"; "dead"] (tail 3 cohort).
Proof.
  apply (@head_and_tail_rows cohort 3).
  repeat constructor.
Defined.


(** ** Missing values through arithmetic *)

Lemma isnan_Prim2SF (x : float) : isnan x = true <-> Prim2SF x = S754_nan.
Proof. unfold isnan. destruct (Prim2SF x); split; congruence. Qed.

Lemma isnan_false_Prim2SF (x : float) :
  isnan x = false <-> Prim2SF x <> S754_nan.
Proof. unfold isnan. destruct (Prim2SF x); split; congruence. Qed.

Lemma isfinite_isnan (x : float) : isfinite x = true -> isnan x = false.
Proof. unfold isfinite, isnan. destruct (Prim2SF x); congruence. Qed.

Lemma bool_eq_iff (a b : bool) : (a = true <-> b = true) -> a = b.
Proof. destruct a, b; intuition congruence. Qed.

Lemma isnan_add_in (x y : float) :
  isnan x || isnan y = true -> isnan (x + y) = true.
Proof.
  unfold isnan. rewrite add_spec. unfold SF64add, SFadd.
  destruct (Prim2SF x) as [sx|sx| |sx mx ex], (Prim2SF y) as [sy|sy| |sy my ey];
    simpl; congruence.
Qed.

Lemma isnan_add_finite (x y : float) :
  isfinite x = true -> isfinite y = true -> isnan (x + y) = false.
Proof.
  intros Hx Hy. destruct (isnan (x + y)) eqn:E; [|reflexivity].
  apply isnan_Prim2SF in E. rewrite add_spec in E.
  apply SFadd_nan in E. unfold isfinite in *.
  destruct E as [E | [E | (s & E1 & E2)]].
  - rewrite E in Hx. discriminate.
  - rewrite E in Hy. discriminate.
  - rewrite E1 in Hx. discriminate.
Qed.

Lemma isnan_add_scalar (x k : float) :
  isfinite k = true -> isnan (x + k) = isnan x.
Proof.
  intros Hk. apply bool_eq_iff. split.
  - intros E. apply isnan_Prim2SF in E. rewrite add_spec in E.
    apply SFadd_nan in E. unfold isfinite in Hk.
    destruct E as [E | [E | (s & E1 & E2)]].
    + now apply isnan_Prim2SF.
    + rewrite E in Hk. discriminate.
    + rewrite E2 in Hk. discriminate.
  - intros E. apply isnan_add_in. now rewrite E.
Qed.

Lemma isnan_mul_in (x y : float) :
  isnan x || isnan y = true -> isnan (x * y) = true.
Proof.
  unfold isnan. rewrite mul_spec. unfold SF64mul, SFmul.
  destruct (Prim2SF x) as [sx|sx| |sx mx ex], (Prim2SF y) as [sy|sy| |sy my ey];
    simpl; congruence.
Qed.

Lemma isnan_square (x : float) : isnan (x * x) = isnan x.
Proof.
  apply bool_eq_iff. split.
  - intros E. apply isnan_Prim2SF in E. rewrite mul_spec in E.
    apply SFmul_nan in E. apply isnan_Prim2SF.
    destruct E as [E | [E | [(s & t & E1 & E2) | (s & t & E1 & E2)]]];
      congruence.
  - intros E. apply isnan_mul_in. now rewrite E.
Qed.

Lemma isnan_div_in (x y : float) :
  isnan x || isnan y = true -> isnan (x / y) = true.
Proof.
  unfold isnan. rewrite div_spec. unfold SF64div, SFdiv.
  destruct (Prim2SF x) as [sx|sx| |sx mx ex], (Prim2SF y) as [sy|sy| |sy my ey];
    simpl; congruence.
Qed.

(** A divisor that is a nonzero number. *)
Lemma isnan_div_scalar (x k : float) :
  (exists s m e, Prim2SF k = S754_finite s m e) ->
  isnan (x / k) = isnan x.
Proof.
  intros (s & m & e & Hk). apply bool_eq_iff. split.
  - intros E. apply isnan_Prim2SF in E. rewrite div_spec in E.
    apply SFdiv_nan in E. apply isnan_Prim2SF.
    destruct E as [E | [E | [(s' & t & E1 & E2) | (s' & t & E1 & E2)]]];
      congruence.
  - intros E. apply isnan_div_in. now rewrite E.
Qed.

Lemma isnan_sqrt (x : float) :
  isnan (PrimFloat.sqrt x) = isnan x || PrimFloat.ltb x 0.
Proof.
  unfold isnan. rewrite sqrt_spec, ltb_spec.
  change (Prim2SF 0) with (S754_zero false).
  destruct (Prim2SF x) as [sx|sx| |sx mx ex] eqn:E.
  - reflexivity.
  - now destruct sx.
  - reflexivity.
  - destruct sx; [reflexivity|].
    assert (Q : SF64sqrt (S754_finite false mx ex) <> S754_nan).
    { intros H. destruct (@SFsqrt_nan _ H) as [H'|[H'|(m & e & H')]];
        discriminate. }
    destruct (SF64sqrt (S754_finite false mx ex)); try reflexivity.
    congruence.
Qed.

(** ** Appending columns *)

Lemma put_col_new {V} (name : string) (c : Series V) (df : DataFrame V) :
  has_col name df = false -> put_col name c df = df ++ [(name, c)].
Proof.
  unfold has_col. induction df as [|[k old] rest IH]; simpl; [reflexivity|].
  destruct (String.eqb k name); [discriminate|].
  intros H. now rewrite IH.
Qed.

Lemma get_col_app {V} (name : string) (df more : DataFrame V) :
  get_col name (df ++ more)
  = match get_col name df with
    | Ok c => Ok c
    | Raise _ => get_col name more
    end.
Proof.
  induction df as [|[k c] rest IH]; simpl; [reflexivity|].
  destruct (String.eqb k name); auto.
Qed.

Lemma setitem_append {V} (name : string) (c : Series V)
    (df more : DataFrame V) :
  df <> [] ->
  length c = shape0 df ->
  has_col name (df ++ more) = false ->
  setitem name c (df ++ more) = Ok (df ++ (more ++ [(name, c)])).
Proof.
  intros Hne L H. unfold setitem.
  destruct df as [|[k0 c0] rest]; [congruence|].
  simpl app. cbn [shape0]. simpl in L. rewrite L, Nat.eqb_refl.
  change ((k0, c0) :: rest ++ more) with (((k0, c0) :: rest) ++ more).
  rewrite put_col_new by assumption.
  now rewrite <- app_assoc.
Qed.

Lemma has_col_app_false {V} (name : string) (df more : DataFrame V) :
  has_col name df = false -> has_col name more = false ->
  has_col name (df ++ more) = false.
Proof.
  unfold has_col. rewrite get_col_app.
  destruct (get_col name df); [discriminate | auto].
Qed.

(** ** The data operations *)

(** X6.  On a frame that has the columns [art], [cd40] and [age0] and
    none of the seven new labels, the data-operations cell leaves every
    existing column as it is and appends the seven columns in the
    order of its statements.  Row by row: [cd4_plus5] and [cd4_div12]
    are missing exactly where [cd40] is, [age_sq] exactly where [age0]
    is, [age_sqrt] exactly where [age0] is missing or negative;
    [age_plus_cd4] and [weird_age] are missing wherever one of the two
    inputs is, and [age_plus_cd4] is a value where both inputs are
    finite. *)
Theorem data_operations_missing_values (df : DataFrame float)
    (art cd40 age0 : Series float) :
  rectangular df ->
  get_col "art" df = Ok art ->
  get_col "cd40" df = Ok cd40 ->
  get_col "age0" df = Ok age0 ->
  Forall (fun l => has_col l df = false) operation_labels ->
  data_operations df
  = Ok (df ++ [("art_copy", art);
               ("cd4_plus5", add_scalar cd40 5);
               ("cd4_div12", div_scalar cd40 12);
               ("age_sq", square age0);
               ("age_sqrt", np_sqrt age0);
               ("age_plus_cd4", add_series age0 cd40);
               ("weird_age",
                add_series (square (mul_scalar age0 0.5))
                  (div_scalar cd40 1000))]) /\
  forall i, (i < shape0 df)%nat ->
    let a := nth i age0 nan in
    let c := nth i cd40 nan in
    isnan (nth i (add_scalar cd40 5) nan) = isnan c /\
    isnan (nth i (div_scalar cd40 12) nan) = isnan c /\
    isnan (nth i (square age0) nan) = isnan a /\
    isnan (nth i (np_sqrt age0) nan) = isnan a || PrimFloat.ltb a 0 /\
    (isnan a || isnan c = true ->
     isnan (nth i (add_series age0 cd40) nan) = true /\
     isnan (nth i (add_series (square (mul_scalar age0 0.5))
                     (div_scalar cd40 1000)) nan) = true) /\
    (isfinite a = true -> isfinite c = true ->
     isnan (nth i (add_series age0 cd40) nan) = false).
Proof.
  intros R Ha Hc Hg Hnew.
  pose proof (@rectangular_get_col _ _ _ _ R Ha) as La.
  pose proof (@rectangular_get_col _ _ _ _ R Hc) as Lc.
  pose proof (@rectangular_get_col _ _ _ _ R Hg) as Lg.
  assert (Hne : df <> []) by (intros ->; discriminate).
  unfold operation_labels in Hnew.
  repeat match goal with
         | H : Forall _ (_ :: _) |- _ =>
             let H1 := fresh "N" in
             let H2 := fresh "F" in
             inversion H as [|? ? H1 H2]; subst; clear H; rename H2 into Hnew
         end.
  split.
  - unfold data_operations. rewrite Ha. cbn [rbind].
    rewrite <- (app_nil_r df) at 1.
    rewrite setitem_append; auto;
      [|apply has_col_app_false; [assumption | reflexivity]].
    cbn [rbind app].
    repeat (rewrite ?get_col_app, ?Hc, ?Hg; cbn [rbind];
            rewrite setitem_append;
            [ cbn [rbind app]
            | assumption
            | unfold add_scalar, div_scalar, mul_scalar, square, np_sqrt,
                add_series;
              rewrite ?length_map, ?zip_with_length;
              rewrite ?length_map; congruence
            | apply has_col_app_false; [assumption | reflexivity] ]).
    reflexivity.
  - intros i Hi a c.
    assert (Hia : (i < length age0)%nat) by congruence.
    assert (Hic : (i < length cd40)%nat) by congruence.
    unfold add_scalar, div_scalar, square, np_sqrt, add_series, mul_scalar.
    rewrite !(@map_nth_in _ _ _ cd40 nan nan i Hic).
    rewrite !(@map_nth_in _ _ _ age0 nan nan i Hia).
    rewrite (@zip_with_nth _ _ _ PrimFloat.add age0 cd40 nan nan nan i Hia Hic).
    rewrite (@zip_with_nth _ _ _ PrimFloat.add _ _ nan nan nan i)
      by (rewrite ?length_map; assumption).
    rewrite (@map_nth_in _ _ _ _ nan nan i)
      by (rewrite ?length_map; assumption).
    rewrite (@map_nth_in _ _ _ age0 nan nan i Hia).
    rewrite (@map_nth_in _ _ _ cd40 nan nan i Hic).
    fold a c.
    split; [apply isnan_add_scalar; reflexivity|].
    split; [apply isnan_div_scalar; do 3 eexists; vm_compute; reflexivity|].
    split; [apply isnan_square|].
    split; [apply isnan_sqrt|].
    split.
    + intros H. split; [now apply isnan_add_in|].
      apply isnan_add_in. rewrite isnan_square.
      apply orb_true_iff in H. destruct H as [H|H].
      * rewrite (isnan_mul_in a 0.5) by (now rewrite H). reflexivity.
      * rewrite (isnan_div_in c 1000) by (now rewrite H).
        apply orb_true_r.
    + apply isnan_add_finite.
Qed.

Lemma data_operations_missing_values_witness :
  data_operations cohort
  = Ok (cohort ++ [("art_copy", [1; 0; nan; 1]);
                   ("cd4_plus5", add_scalar [350; nan; 12; 80] 5);
                   ("cd4_div12", div_scalar [350; nan; 12; 80] 12);
                   ("age_sq", square [52; 30; 47; nan]);
                   ("age_sqrt", np_sqrt [52; 30; 47; nan]);
                   ("age_plus_cd4",
                    add_series [52; 30; 47; nan] [350; nan; 12; 80]);
                   ("weird_age",
                    add_series (square (mul_scalar [52; 30; 47; nan] 0.5))
                      (div_scalar [350; nan; 12; 80] 1000))]).
Proof.
  apply (@data_operations_missing_values cohort [1; 0; nan; 1]
           [350; nan; 12; 80] [52; 30; 47; nan]).
  - repeat constructor.
  - reflexivity.
  - reflexivity.
  - reflexivity.
  - repeat constructor.
Defined.

(** The square root of a negative age is missing, and so is the sum
    of two infinities of opposite sign: the two ways the cell makes a
    missing value out of present ones. *)
Example operations_that_lose_a_value :
  isnan (PrimFloat.sqrt (-4)) = true /\
  isnan (infinity + neg_infinity) = true.
Proof. split; reflexivity. Qed.


(** ** The maximum of a column *)

Lemma ltb_irrefl (x : float) : PrimFloat.ltb x x = false.
Proof.
  rewrite ltb_spec. unfold SFltb. rewrite SFcompare_refl.
  now destruct (Prim2SF x).
Qed.

Lemma ltb_trans (x y z : float) :
  PrimFloat.ltb x y = true -> PrimFloat.ltb y z = true ->
  PrimFloat.ltb x z = true.
Proof.
  rewrite !ltb_spec. unfold SFltb.
  destruct (SFcompare (Prim2SF x) (Prim2SF y)) as [[ | | ]|] eqn:A;
    try discriminate.
  destruct (SFcompare (Prim2SF y) (Prim2SF z)) as [[ | | ]|] eqn:B;
    try discriminate.
  now rewrite (@SFcompare_Lt_trans _ _ _ A B).
Qed.

(** Neither below nor above, and both present: equal. *)
Lemma np_eq_of_not_ltb (x y : float) :
  isnan x = false -> isnan y = false ->
  PrimFloat.ltb x y = false -> PrimFloat.ltb y x = false ->
  np_eq x y = true.
Proof.
  unfold np_eq. rewrite !ltb_spec, eqb_spec. unfold SFltb, SFeqb.
  rewrite (SFcompare_antisym (Prim2SF x) (Prim2SF y)).
  intros Nx Ny.
  destruct (SFcompare (Prim2SF x) (Prim2SF y)) as [[ | | ]|] eqn:E;
    simpl; try congruence.
  apply isnan_false_Prim2SF in Nx, Ny.
  destruct (SFcompare_unordered _ _ E); congruence.
Qed.

Lemma fold_larger_In (xs : list float) (m : float) :
  In (fold_left larger xs m) (m :: xs).
Proof.
  revert m. induction xs as [|y ys IH]; intros m; simpl; [auto|].
  destruct (IH (larger m y)) as [H|H]; [|auto].
  rewrite <- H. unfold larger. destruct (PrimFloat.ltb m y); auto.
Qed.

Lemma fold_larger_upper (xs : list float) (m z : float) :
  PrimFloat.ltb m z = false \/ In z xs ->
  PrimFloat.ltb (fold_left larger xs m) z = false.
Proof.
  revert m. induction xs as [|y ys IH]; intros m H; simpl.
  - destruct H as [H|[]]. exact H.
  - apply IH. unfold larger.
    destruct H as [H|[H|H]]; [| |now right]; left.
    + destruct (PrimFloat.ltb m y) eqn:E; [|exact H].
      destruct (PrimFloat.ltb y z) eqn:E'; [|reflexivity].
      rewrite (@ltb_trans m y z E E') in H. discriminate.
    + subst z. destruct (PrimFloat.ltb m y) eqn:E; [|exact E].
      apply ltb_irrefl.
Qed.

Lemma series_max_fold (c : Series float) :
  series_max c
  = match filter (fun x => negb (isnan x)) c with
    | [] => nan
    | x :: xs => fold_left larger xs x
    end.
Proof. reflexivity. Qed.

(** The maximum is one of the present entries, and no present entry
    is above it. *)
Lemma series_max_spec (c : Series float) :
  (Forall (fun x => isnan x = true) c /\ series_max c = nan) \/
  (In (series_max c) c /\ isnan (series_max c) = false /\
   forall z, In z c -> PrimFloat.ltb (series_max c) z = false).
Proof.
  rewrite series_max_fold.
  destruct (filter (fun x => negb (isnan x)) c) as [|x xs] eqn:F.
  - left. split; [|reflexivity].
    rewrite Forall_forall. intros z Hz.
    destruct (isnan z) eqn:E; [reflexivity|].
    assert (In z (filter (fun x => negb (isnan x)) c)).
    { apply filter_In. split; [assumption|]. now rewrite E. }
    rewrite F in H. destruct H.
  - right.
    pose proof (fold_larger_In xs x) as Hin.
    rewrite <- F in Hin. apply filter_In in Hin. destruct Hin as [Hin Hn].
    split; [exact Hin|]. split; [now destruct (isnan _)|].
    intros z Hz. destruct (isnan z) eqn:E.
    + rewrite ltb_spec. unfold SFltb.
      apply isnan_Prim2SF in E. rewrite E.
      now destruct (Prim2SF (fold_left larger xs x)).
    + assert (Hz' : In z (x :: xs)).
      { rewrite <- F. apply filter_In. split; [assumption|]. now rewrite E. }
      apply fold_larger_upper. destruct Hz' as [->|Hz']; [|now right].
      left. apply ltb_irrefl.
Qed.

Lemma cap50_not_above (x : float) : PrimFloat.ltb 50 (cap50 x) = false.
Proof.
  unfold cap50. destruct (PrimFloat.ltb 50 x) eqn:E; [reflexivity | exact E].
Qed.

Lemma map_cap50_id (c : Series float) :
  Forall (fun x => PrimFloat.ltb 50 x = false) c -> map cap50 c = c.
Proof.
  induction 1 as [|x c H _ IH]; simpl; [reflexivity|].
  unfold cap50 at 1. now rewrite H, IH.
Qed.

Lemma capped_maximum (c : Series float) :
  PrimFloat.ltb 50 (series_max (map cap50 c)) = false /\
  ((exists x, In x c /\ PrimFloat.ltb 50 x = true) ->
   np_eq (series_max (map cap50 c)) 50 = true) /\
  (Forall (fun x => PrimFloat.ltb 50 x = false) c ->
   series_max (map cap50 c) = series_max c).
Proof.
  assert (A : PrimFloat.ltb 50 (series_max (map cap50 c)) = false).
  { destruct (series_max_spec (map cap50 c)) as [[_ ->]|(Hin & _ & _)];
      [reflexivity|].
    apply in_map_iff in Hin. destruct Hin as (x & <- & _).
    apply cap50_not_above. }
  split; [exact A|]. split.
  - intros (x & Hx & Habove).
    assert (Hin : In 50 (map cap50 c)).
    { apply in_map_iff. exists x. split; [|assumption].
      unfold cap50. now rewrite Habove. }
    destruct (series_max_spec (map cap50 c)) as [[Hall _]|(_ & Hn & Hup)].
    + rewrite Forall_forall in Hall. specialize (Hall _ Hin). discriminate.
    + apply np_eq_of_not_ltb; auto.
  - intros H. now rewrite map_cap50_id.
Qed.

(** X7.  On a frame with at least one row, after either recoding
    idiom the printed maximum of the new column is never above 50; it
    is exactly 50 as soon as one age is above 50, and the maximum of
    the ages themselves when none is.  Both idioms print the same
    maximum.  (On a frame without rows the [.loc] idiom raises and
    prints nothing.) *)
Theorem recoded_maximum_is_50 (df : DataFrame float) (c : Series float) :
  rectangular df ->
  get_col "age0" df = Ok c ->
  has_col "age2_pandas" df = false ->
  shape0 df <> 0%nat ->
  exists d1 d2 c1 c2,
    recode_numpy df = Ok d1 /\ get_col "age2_numpy" d1 = Ok c1 /\
    recode_pandas df = Ok d2 /\ get_col "age2_pandas" d2 = Ok c2 /\
    series_max c2 = series_max c1 /\
    PrimFloat.ltb 50 (series_max c1) = false /\
    ((exists x, In x c /\ PrimFloat.ltb 50 x = true) ->
     np_eq (series_max c1) 50 = true) /\
    (Forall (fun x => PrimFloat.ltb 50 x = false) c ->
     series_max c1 = series_max c).
Proof.
  intros R Hc Hnew Hrows.
  exists (put_col "age2_numpy" (map cap50 c) df),
         (put_col "age2_pandas" (map cap50 c) df),
         (map cap50 c), (map cap50 c).
  split; [now apply recode_numpy_run|].
  split; [apply get_col_put_col_same|].
  split; [now apply recode_pandas_run|].
  split; [apply get_col_put_col_same|].
  split; [reflexivity|].
  apply capped_maximum.
Qed.

Lemma recoded_maximum_is_50_witness :
  exists d1 d2 c1 c2,
    recode_numpy cohort = Ok d1 /\ get_col "age2_numpy" d1 = Ok c1 /\
    recode_pandas cohort = Ok d2 /\ get_col "age2_pandas" d2 = Ok c2 /\
    series_max c2 = series_max c1 /\
    PrimFloat.ltb 50 (series_max c1) = false /\
    ((exists x, In x [52; 30; 47; nan] /\ PrimFloat.ltb 50 x = true) ->
     np_eq (series_max c1) 50 = true) /\
    (Forall (fun x => PrimFloat.ltb 50 x = false) [52; 30; 47; nan] ->
     series_max c1 = series_max [52; 30; 47; nan]).
Proof.
  apply (@recoded_maximum_is_50 cohort [52; 30; 47; nan]).
  - repeat constructor.
  - reflexivity.
  - reflexivity.
  - discriminate.
Defined.


(** ** Filling missing values *)

Lemma fill_number (v x : float) :
  isnan v = false -> isnan (fill v x) = false.
Proof. intros H. unfold fill. destruct (isnan x) eqn:E; assumption. Qed.

Lemma fill_fill (v x : float) : fill v (fill v x) = fill v x.
Proof.
  unfold fill. destruct (isnan x) eqn:E; [|now rewrite E].
  now destruct (isnan v).
Qed.

(** X8.  [df.fillna(v, inplace=True)] with a value [v] that is not NaN
    keeps the columns, their order and their lengths, leaves no missing
    entry in any column, and changes no entry that was present; doing
    it twice changes nothing more.  A filled entry cannot be told from
    an entry that held [v] already. *)
Theorem fillna_leaves_no_missing_value (v : float) (df : DataFrame float) :
  isnan v = false ->
  columns (fillna v df) = columns df /\
  shape0 (fillna v df) = shape0 df /\
  fillna v (fillna v df) = fillna v df /\
  fill v nan = fill v v /\
  forall name c,
    get_col name df = Ok c ->
    exists c',
      get_col name (fillna v df) = Ok c' /\
      length c' = length c /\
      Forall (fun x => isnan x = false) c' /\
      forall i, (i < length c)%nat ->
        nth i c' nan = if isnan (nth i c nan) then v else nth i c nan.
Proof.
  intros Hv. split; [apply columns_map_columns|].
  split.
  { destruct df as [|[k c] rest]; simpl; [reflexivity | apply length_map]. }
  split.
  { unfold fillna. rewrite map_map. apply map_ext. intros [k c]. simpl.
    f_equal. rewrite map_map. apply map_ext. intros x. apply fill_fill. }
  split.
  { unfold fill. now rewrite Hv. }
  intros name c Hc. exists (map (fill v) c).
  split; [unfold fillna; now rewrite get_col_map_columns, Hc|].
  split; [apply length_map|].
  split.
  - rewrite Forall_forall. intros x Hx. apply in_map_iff in Hx.
    destruct Hx as (y & <- & _). now apply fill_number.
  - intros i Hi. now rewrite (@map_nth_in _ _ (fill v) c nan nan i Hi).
Qed.

Lemma fillna_leaves_no_missing_value_witness :
  fillna (-99999) (fillna (-99999) cohort) = fillna (-99999) cohort.
Proof.
  apply (@fillna_leaves_no_missing_value (-99999) cohort).
  reflexivity.
Defined.


(** ** Counting after filling *)

Lemma eqb_fill_other (s x u : float) :
  np_eq x s = false -> np_eq (fill s u) x = np_eq u x.
Proof.
  intros H. unfold fill. destruct (isnan u) eqn:E; [|reflexivity].
  rewrite (@np_eq_nan_l u x E). now rewrite np_eq_sym.
Qed.

Lemma eqb_fill_sentinel (s u : float) :
  isnan s = false -> np_eq u s = false -> np_eq (fill s u) s = isnan u.
Proof.
  intros Hs H. unfold fill. destruct (isnan u) eqn:E; [|exact H].
  now rewrite np_eq_refl, Hs.
Qed.

Lemma zip_with_map {A B A' B' C} (f : A' -> B' -> C) (g : A -> A')
    (h : B -> B') (a : list A) (b : list B) :
  zip_with f (map g a) (map h b) = zip_with (fun x y => f (g x) (h y)) a b.
Proof.
  revert b. induction a as [|x a IH]; intros [|y b]; simpl; auto.
  now rewrite IH.
Qed.

Lemma zip_with_ext_Forall {A B C} (P : A -> Prop) (Q : B -> Prop)
    (f g : A -> B -> C) (a : list A) (b : list B) :
  (forall x y, P x -> Q y -> f x y = g x y) ->
  Forall P a -> Forall Q b ->
  zip_with f a b = zip_with g a b.
Proof.
  intros E Ha. revert b. induction Ha as [|x a Px Ha IH]; intros b Hb;
    [reflexivity|].
  destruct Hb as [|y b Qy Hb]; [reflexivity|]. simpl.
  rewrite E by assumption. f_equal. now apply IH.
Qed.

(** X9.  The missing-data pattern of the last cell.  When the value
    [-99999] occurs in neither [art] nor [dead], filling and
    cross-tabulating gives, for labels [x] and [y] other than the
    fill value, the count of the rows with [art] equal to [x] and
    [dead] equal to [y], which is the count of the table before
    filling; in the column of the fill value it gives the rows with
    [art] equal to [x] whose [dead] is missing.  Before filling the
    table has no count for a missing label. *)
Theorem fillna_shows_missing_pattern (df : DataFrame float)
    (art dead : Series float) (x y : float) :
  get_col "art" df = Ok art ->
  get_col "dead" df = Ok dead ->
  Forall (fun u => np_eq u (-99999) = false) art ->
  Forall (fun u => np_eq u (-99999) = false) dead ->
  np_eq x (-99999) = false ->
  np_eq y (-99999) = false ->
  missing_pattern_count df x y = Ok (crosstab_count art dead x y) /\
  missing_pattern_count df x (-99999) = Ok (missing_count art dead x) /\
  crosstab_count art dead x nan = 0%nat /\
  crosstab_count art dead nan y = 0%nat.
Proof.
  intros Ha Hd Fa Fd Hx Hy.
  unfold missing_pattern_count, fillna.
  rewrite !get_col_map_columns, Ha, Hd. cbn [rbind].
  unfold crosstab_count, missing_count.
  rewrite !zip_with_map.
  repeat split.
  - do 3 f_equal.
    apply (@zip_with_ext_Forall _ _ _ (fun _ => True) (fun _ => True)).
    + intros u v _ _.
      change (PrimFloat.eqb (fill (-99999) u) x) with (np_eq (fill (-99999) u) x).
      change (PrimFloat.eqb (fill (-99999) v) y) with (np_eq (fill (-99999) v) y).
      now rewrite !eqb_fill_other.
    + rewrite Forall_forall; auto.
    + rewrite Forall_forall; auto.
  - do 3 f_equal.
    apply (@zip_with_ext_Forall _ _ _ (fun _ => True)
             (fun u => np_eq u (-99999) = false)).
    + intros u v _ Hv.
      change (PrimFloat.eqb (fill (-99999) u) x) with (np_eq (fill (-99999) u) x).
      change (PrimFloat.eqb (fill (-99999) v) (-99999))
        with (np_eq (fill (-99999) v) (-99999)).
      rewrite eqb_fill_other by assumption.
      rewrite eqb_fill_sentinel by (auto; reflexivity). reflexivity.
    + rewrite Forall_forall; auto.
    + assumption.
  - clear. revert dead. induction art as [|u a IH]; intros [|v b]; simpl; auto.
    change (PrimFloat.eqb v nan) with (np_eq v nan).
    rewrite (@np_eq_nan_r v nan eq_refl), andb_false_r. apply IH.
  - clear. revert dead. induction art as [|u a IH]; intros [|v b]; simpl; auto.
    change (PrimFloat.eqb u nan) with (np_eq u nan).
    rewrite (@np_eq_nan_r u nan eq_refl). apply IH.
Qed.

Lemma fillna_shows_missing_pattern_witness :
  missing_pattern_count cohort 1 0
  = Ok (crosstab_count [1; 0; nan; 1] [0; 1; nan; nan] 1 0) /\
  missing_pattern_count cohort 1 (-99999)
  = Ok (missing_count [1; 0; nan; 1] [0; 1; nan; nan] 1) /\
  crosstab_count [1; 0; nan; 1] [0; 1; nan; nan] 1 nan = 0%nat /\
  crosstab_count [1; 0; nan; 1] [0; 1; nan; nan] nan 0 = 0%nat.
Proof.
  apply (@fillna_shows_missing_pattern cohort [1; 0; nan; 1]
           [0; 1; nan; nan] 1 0).
  - reflexivity.
  - reflexivity.
  - repeat constructor.
  - repeat constructor.
  - reflexivity.
  - reflexivity.
Defined.

(** When the fill value does occur in the data the pattern is wrong:
    a participant recorded with [dead = -99999] is counted as
    missing. *)
Example fill_value_in_the_data :
  missing_pattern_count [("art", [1; 1]); ("dead", [-99999; nan])] 1 (-99999)
  = Ok 2%nat /\
  missing_count [1; 1] [-99999; nan] 1 = 1%nat.
Proof. split; reflexivity. Qed.


(** ** Counts add up *)

Lemma np_eq_trans (x y z : float) :
  np_eq x y = true -> np_eq y z = true -> np_eq x z = true.
Proof.
  unfold np_eq. rewrite !eqb_spec. unfold SFeqb.
  destruct (SFcompare (Prim2SF x) (Prim2SF y)) as [[ | | ]|] eqn:A;
    try discriminate.
  destruct (SFcompare (Prim2SF y) (Prim2SF z)) as [[ | | ]|] eqn:B;
    try discriminate.
  now rewrite (@SFcompare_Eq_trans _ _ _ A B).
Qed.

Lemma same_value_present (x y : float) :
  isnan x = false -> same_value x y = np_eq x y.
Proof.
  intros H. unfold same_value, np_eq. rewrite H. apply orb_false_r.
Qed.

Lemma same_value_refl (x : float) : same_value x x = true.
Proof.
  unfold same_value. change (PrimFloat.eqb x x) with (np_eq x x).
  rewrite np_eq_refl. now destruct (isnan x).
Qed.

(** The values of [unique] are pairwise different, and every entry of
    the column is one of them. *)
Lemma unique_from_distinct (seen : list float) (c : Series float) :
  Forall (fun y => forall s, In s seen -> same_value y s = false)
    (unique_from seen c) /\
  ForallOrdPairs (fun y z => same_value z y = false) (unique_from seen c).
Proof.
  revert seen. induction c as [|x xs IH]; intros seen; simpl.
  - split; constructor.
  - destruct (existsb (same_value x) seen) eqn:E; [apply IH|].
    destruct (IH (x :: seen)) as [F P].
    split.
    + constructor.
      * intros s Hs. destruct (same_value x s) eqn:Q; [|reflexivity].
        assert (existsb (same_value x) seen = true)
          by (apply existsb_exists; eauto).
        congruence.
      * revert F. apply Forall_impl. intros y Hy s Hs. apply Hy. now right.
    + constructor; [|exact P].
      revert F. apply Forall_impl. intros y Hy. apply Hy. now left.
Qed.

Lemma unique_from_covers (seen : list float) (c : Series float) (v : float) :
  In v c ->
  exists y, In y (seen ++ unique_from seen c) /\ same_value v y = true.
Proof.
  revert seen. induction c as [|x xs IH]; intros seen; simpl; [intros []|].
  intros [<- | Hv].
  - destruct (existsb (same_value x) seen) eqn:E.
    + apply existsb_exists in E. destruct E as (s & Hs & Q).
      exists s. split; [apply in_or_app; now left | exact Q].
    + exists x. split; [apply in_or_app; right; now left|].
      apply same_value_refl.
  - destruct (existsb (same_value x) seen) eqn:E.
    + now apply IH.
    + destruct (IH (x :: seen) Hv) as (y & Hy & Q).
      exists y. split; [|exact Q].
      simpl in Hy. destruct Hy as [<- | Hy].
      * apply in_or_app. right. now left.
      * apply in_app_or in Hy. apply in_or_app.
        destruct Hy as [Hy | Hy]; [now left | right; now right].
Qed.

Lemma ForallOrdPairs_filter {A} (R : A -> A -> Prop) (f : A -> bool)
    (l : list A) :
  ForallOrdPairs R l -> ForallOrdPairs R (filter f l).
Proof.
  induction 1 as [|y l Hy _ IH]; simpl; [constructor|].
  destruct (f y); [|exact IH].
  constructor; [|exact IH].
  rewrite Forall_forall in *. intros z Hz. apply filter_In in Hz.
  now apply Hy.
Qed.

Lemma np_eq_present (x y : float) :
  np_eq x y = true -> isnan x = false /\ isnan y = false.
Proof.
  intros H. split.
  - destruct (isnan x) eqn:E; [|reflexivity].
    rewrite (@np_eq_nan_l x y E) in H. discriminate.
  - destruct (isnan y) eqn:E; [|reflexivity].
    rewrite (@np_eq_nan_r x y E) in H. discriminate.
Qed.

(** Among pairwise different labels, a value equals at most one. *)
Lemma one_label_matches (L : list float) (v y : float) :
  ForallOrdPairs (fun y z => same_value z y = false) L ->
  In y L -> np_eq v y = true ->
  length (filter (np_eq v) L) = 1%nat.
Proof.
  intros P. revert y. induction P as [|h t Hh _ IH]; intros y Hy Hv;
    [destruct Hy|].
  simpl. destruct (np_eq v h) eqn:E.
  - simpl. f_equal.
    assert (Hnone : forall z, In z t -> np_eq v z = false).
    { intros z Hz. destruct (np_eq v z) eqn:Q; [|reflexivity].
      rewrite Forall_forall in Hh. specialize (Hh z Hz).
      assert (Hzh : np_eq z h = true).
      { apply (@np_eq_trans z v h); [now rewrite np_eq_sym | exact E]. }
      rewrite same_value_present in Hh
        by (apply (np_eq_present Hzh)).
      congruence. }
    clear -Hnone. induction t as [|z t IH]; [reflexivity|].
    simpl. rewrite Hnone by now left.
    apply IH. intros w Hw. apply Hnone. now right.
  - destruct Hy as [<- | Hy]; [congruence|].
    now apply (IH y).
Qed.

Lemma labels_match_once (c : Series float) (v : float) :
  In v c ->
  length (filter (np_eq v) (value_labels c))
  = if isnan v then 0%nat else 1%nat.
Proof.
  intros Hv. destruct (isnan v) eqn:E.
  - induction (value_labels c) as [|y l IH]; [reflexivity|].
    simpl. now rewrite (@np_eq_nan_l v y E).
  - destruct (@unique_from_covers [] c v Hv) as (y & Hy & Q).
    simpl in Hy. rewrite same_value_present in Q by assumption.
    apply (@one_label_matches _ v y).
    + apply ForallOrdPairs_filter. apply (unique_from_distinct [] c).
    + apply filter_In. split; [exact Hy|].
      now rewrite (proj2 (np_eq_present Q)).
    + exact Q.
Qed.

Lemma list_sum_map_add {A} (f g : A -> nat) (l : list A) :
  list_sum (map (fun y => (f y + g y)%nat) l)
  = (list_sum (map f l) + list_sum (map g l))%nat.
Proof. induction l as [|y l IH]; simpl; [reflexivity | lia]. Qed.

Lemma list_sum_map_zero {A} (l : list A) :
  list_sum (map (fun _ => 0%nat) l) = 0%nat.
Proof. induction l as [|y l IH]; simpl; auto. Qed.

Lemma list_sum_indicator {A} (b : bool) (q : A -> bool) (l : list A) :
  list_sum (map (fun y => if b && q y then 1%nat else 0%nat) l)
  = if b then length (filter q l) else 0%nat.
Proof.
  induction l as [|y l IH]; simpl; [now destruct b|].
  rewrite IH. destruct b; simpl; [|reflexivity].
  destruct (q y); reflexivity.
Qed.

(** Summing, over pairwise different labels that cover the present
    values, the rows counted under each label counts every row with a
    present value once. *)
Lemma counts_by_label (p : float -> bool) (L : list float)
    (a b : Series float) :
  (forall v, In v b ->
     length (filter (np_eq v) L) = if isnan v then 0%nat else 1%nat) ->
  list_sum
    (map (fun y =>
            length (filter (fun t : bool => t)
                      (zip_with (fun u v => p u && PrimFloat.eqb v y) a b)))
       L)
  = length (filter (fun t : bool => t)
              (zip_with (fun u v => p u && negb (isnan v)) a b)).
Proof.
  revert b. induction a as [|u a IH]; intros [|v b] H; simpl;
    try apply list_sum_map_zero.
  rewrite (map_ext
             (fun y => length (filter (fun t : bool => t)
                                 ((p u && PrimFloat.eqb v y)
                                    :: zip_with
                                         (fun u0 v0 => p u0 && PrimFloat.eqb v0 y)
                                         a b)))
             (fun y => ((if p u && np_eq v y then 1 else 0)
                        + length (filter (fun t : bool => t)
                                    (zip_with
                                       (fun u0 v0 => p u0 && PrimFloat.eqb v0 y)
                                       a b)))%nat)).
  2:{ intros y. unfold np_eq. simpl.
      destruct (p u && PrimFloat.eqb v y); reflexivity. }
  rewrite list_sum_map_add, list_sum_indicator.
  rewrite IH by (intros w Hw; apply H; now right).
  rewrite (H v) by now left.
  destruct (p u), (isnan v); simpl; reflexivity.
Qed.

Lemma zip_with_same {A B} (f : A -> B) (c : list A) :
  zip_with (fun _ v => f v) c c = map f c.
Proof. induction c as [|x c IH]; simpl; [reflexivity | now rewrite IH]. Qed.

Lemma length_filter_map {A} (f : A -> bool) (c : list A) :
  length (filter (fun t : bool => t) (map f c)) = length (filter f c).
Proof.
  induction c as [|x c IH]; simpl; [reflexivity|].
  destruct (f x); simpl; now rewrite IH.
Qed.

Lemma split_by_missing (p : float -> bool) (a b : Series float) :
  length a = length b ->
  length (filter p a)
  = (length (filter (fun t : bool => t)
               (zip_with (fun u v => p u && isnan v) a b))
     + length (filter (fun t : bool => t)
                 (zip_with (fun u v => p u && negb (isnan v)) a b)))%nat.
Proof.
  revert b. induction a as [|u a IH]; intros [|v b] H; simpl in *;
    try discriminate; [reflexivity|].
  injection H as H. specialize (IH b H).
  destruct (p u), (isnan v); simpl; lia.
Qed.

(** X19.  Counts add up.  The counts of [value_counts()] on [art],
    over its distinct values, sum to the number of rows where [art] is
    not missing.  For every label [x], the count of [x] in [art] is
    the number of rows with [art] equal to [x] whose [dead] is missing
    plus the counts of row [x] of [pd.crosstab(art, dead)] over the
    distinct values of [dead]: the table loses exactly the rows with a
    missing value, which is what the fill value brings back. *)
Theorem counts_add_up (df : DataFrame float) (art dead : Series float)
    (x : float) :
  rectangular df ->
  get_col "art" df = Ok art ->
  get_col "dead" df = Ok dead ->
  list_sum (map (value_count art) (value_labels art)) = count art /\
  value_count art x
  = (missing_count art dead x
     + list_sum (map (crosstab_count art dead x) (value_labels dead)))%nat.
Proof.
  intros R Ha Hd.
  assert (L : length art = length dead).
  { rewrite (@rectangular_get_col _ _ _ _ R Ha).
    now rewrite (@rectangular_get_col _ _ _ _ R Hd). }
  split.
  - pose proof (@counts_by_label (fun _ => true) (value_labels art) art art
                  (labels_match_once art)) as H.
    cbn [andb] in H.
    rewrite (zip_with_same (fun v => negb (isnan v))) in H.
    rewrite length_filter_map in H.
    unfold count. rewrite <- H.
    f_equal. apply map_ext. intros y. unfold value_count.
    rewrite (zip_with_same (fun v => PrimFloat.eqb v y)).
    now rewrite length_filter_map.
  - unfold value_count, missing_count, crosstab_count.
    rewrite (@split_by_missing (fun u => PrimFloat.eqb u x) art dead L).
    f_equal. symmetry.
    apply (@counts_by_label (fun u => PrimFloat.eqb u x)).
    apply labels_match_once.
Qed.

Lemma counts_add_up_witness :
  list_sum (map (value_count [1; 0; nan; 1]) (value_labels [1; 0; nan; 1]))
  = count [1; 0; nan; 1] /\
  value_count [1; 0; nan; 1] 1
  = Nat.add (missing_count [1; 0; nan; 1] [0; 1; nan; nan] 1)
      (list_sum (map (crosstab_count [1; 0; nan; 1] [0; 1; nan; nan] 1)
                   (value_labels [0; 1; nan; nan]))).
Proof.
  apply (@counts_add_up cohort [1; 0; nan; 1] [0; 1; nan; nan] 1).
  - repeat constructor.
  - reflexivity.
  - reflexivity.
Defined.

(** On the four participants: two are on treatment, one of them with
    a recorded outcome. *)
Example counts_cohort :
  unique [0; 1; nan; nan] = [0; 1; nan] /\
  value_labels [0; 1; nan; nan] = [0; 1] /\
  value_count [1; 0; nan; 1] 1 = 2%nat /\
  missing_count [1; 0; nan; 1] [0; 1; nan; nan] 1 = 1%nat /\
  crosstab_count [1; 0; nan; 1] [0; 1; nan; nan] 1 0 = 1%nat.
Proof. repeat split; reflexivity. Qed.

End DataManagementFacts.


(* ================================================================== *)
(** * The seeded cells: properties *)
(* ================================================================== *)

Module CellsFacts.

Import Frame FrameFacts NumPy NumPyFacts Random RandomFacts Simulate
  SimulateFacts Cells.

Local Open Scope R_scope.
Local Open Scope string_scope.

#[export] Instance counter_seedable : Seedable nat := {
  seed := counter_seed
}.

(** ** The probabilities given to the Bernoulli draws *)

Lemma valid_p_true (p : R) : 0 <= p <= 1 -> valid_p p = true.
Proof.
  intros [H0 H1]. unfold valid_p.
  destruct (Rle_dec 0 p); [|contradiction].
  destruct (Rle_dec p 1); [reflexivity | contradiction].
Qed.

Lemma forallb_valid_p (ps : list R) :
  Forall (fun p => 0 <= p <= 1) ps -> forallb valid_p ps = true.
Proof.
  induction 1 as [|p ps Hp _ IH]; simpl; [reflexivity|].
  now rewrite (valid_p_true Hp), IH.
Qed.

(** The logistic function takes its values strictly between 0 and
    1. *)
Lemma logistic_cdf_range (x : R) : 0 < logistic_cdf x < 1.
Proof.
  unfold logistic_cdf. pose proof (exp_pos (- x)) as E.
  assert (D : 0 < 1 + exp (- x)) by lra.
  split.
  - apply Rdiv_lt_0_compat; lra.
  - apply (Rmult_lt_reg_r (1 + exp (- x))); [assumption|].
    unfold Rdiv. rewrite Rmult_assoc, Rinv_l by lra. lra.
Qed.

Lemma valid_logistic (xs : list R) :
  forallb valid_p (map logistic_cdf xs) = true.
Proof.
  apply forallb_valid_p. rewrite Forall_forall. intros p Hp.
  apply in_map_iff in Hp. destruct Hp as (x & <- & _).
  pose proof (logistic_cdf_range x). lra.
Qed.

Lemma valid_half (n : nat) : forallb valid_p (repeat 0.5 n) = true.
Proof.
  apply forallb_valid_p. rewrite Forall_forall. intros p Hp.
  apply repeat_spec in Hp. subst p. lra.
Qed.

(** With [W] 0 or 1, [0.05 + 0.45*W] is 0.05 or 0.5. *)
Lemma valid_linear (cw : list Z) :
  Forall (fun a => a = 0%Z \/ a = 1%Z) cw ->
  forallb valid_p (shift 0.05 (scale 0.45 (map IZR cw))) = true.
Proof.
  intros H. apply forallb_valid_p. unfold shift, scale.
  rewrite !Forall_map. revert H. apply Forall_impl.
  intros a [-> | ->]; simpl; lra.
Qed.

Section WithGenerator.

Context {G : Type} {RV : RandomVariate G} {SD : Seedable G}.

Lemma np_random_binomial_valid (ps : list R) (w : World G) :
  forallb valid_p ps = true ->
  np_random_binomial ps w = draw (binomial ps) w.
Proof. intros H. unfold np_random_binomial. now rewrite H. Qed.

Lemma binomial_eq (ps : list R) (g g' : G) (l : list Z) :
  binomial ps g = (l, g') -> length l = length ps /\ binary l.
Proof.
  intros E. pose proof (binomial_length ps g) as L.
  pose proof (binomial_values ps g) as V.
  rewrite E in L, V. simpl in *. now split.
Qed.

Lemma normal_eq (n : nat) (g g' : G) (l : list R) :
  normal n g = (l, g') -> length l = n.
Proof.
  intros E. pose proof (normal_length n g) as L.
  now rewrite E in L.
Qed.

(** ** What each cell computes, draw by draw *)

Lemma treatment_by_W_run (n : nat) (w : World G) cw g1 ca g2 :
  binomial (repeat 0.5 n) (seed 1859031) = (cw, g1) ->
  binomial (shift 0.05 (scale 0.45 (map IZR cw))) g1 = (ca, g2) ->
  treatment_by_W n w
  = (Ok [("W", map IZR cw); ("A", map IZR ca)], mkWorld g2 (stdout w)).
Proof.
  intros E1 E2.
  destruct (binomial_eq _ _ E1) as [L1 B1]. rewrite repeat_length in L1.
  destruct (binomial_eq _ _ E2) as [L2 B2].
  assert (L2' : length ca = n).
  { rewrite L2. unfold shift, scale. now rewrite !length_map. }
  unfold treatment_by_W, bind, np_random_seed, modify, lift.
  rewrite np_random_binomial_valid by apply valid_half.
  unfold draw at 1. cbn [rng stdout]. rewrite E1.
  cbn [setitem empty get_col]. simpl (String.eqb _ _). cbn iota.
  rewrite np_random_binomial_valid by now apply valid_linear.
  unfold draw. cbn [rng stdout]. rewrite E2.
  cbn [setitem shape0]. rewrite !length_map, L1, L2', Nat.eqb_refl.
  reflexivity.
Qed.

Ltac checked_draw E :=
  rewrite np_random_binomial_valid
    by first [apply valid_half | apply valid_logistic];
  unfold draw at 1; cbn [rng stdout]; rewrite E.

Ltac assign :=
  cbn [setitem empty get_col shape0 put_col]; simpl (String.eqb _ _);
  cbn iota.

Lemma logistic_length (xs : list R) (n : nat) :
  length xs = n -> length (map logistic_cdf xs) = n.
Proof. intros. now rewrite length_map. Qed.

Lemma treatment_by_W_L_run (n : nat) (w : World G) cw g1 cl g2 ca g3 :
  binomial (repeat 0.5 n) (seed 1859031) = (cw, g1) ->
  normal n g1 = (cl, g2) ->
  binomial (map logistic_cdf
              (ssub (rsub (-2.94) (scale 1.73 (map IZR cw))) (scale 1.93 cl)))
    g2 = (ca, g3) ->
  treatment_by_W_L n w
  = (Ok [("W", map IZR cw); ("L", cl); ("A", map IZR ca)],
     mkWorld g3 (stdout w)).
Proof.
  intros E1 E2 E3.
  destruct (binomial_eq _ _ E1) as [L1 B1]. rewrite repeat_length in L1.
  pose proof (normal_eq _ _ E2) as L2.
  destruct (binomial_eq _ _ E3) as [L3 B3].
  assert (LW : length (map IZR cw) = n) by now rewrite length_map.
  rewrite (@logistic_length _ n) in L3
    by (apply ssub_length; [apply rsub_length|]; now apply scale_length).
  unfold treatment_by_W_L, bind, np_random_seed, modify, lift.
  checked_draw E1. assign.
  unfold draw at 1. cbn [rng stdout]. rewrite E2. assign.
  rewrite L2, LW, Nat.eqb_refl. assign.
  checked_draw E3. assign.
  rewrite length_map, L3, LW, Nat.eqb_refl.
  reflexivity.
Qed.

Lemma binary_outcomes_run (bits : Z) (n : nat) (w : World G)
    cw g1 cl g2 ca g3 y0 g4 y1 g5 :
  binomial (repeat 0.5 n) (seed 1859031) = (cw, g1) ->
  normal n g1 = (cl, g2) ->
  binomial (map logistic_cdf
              (ssub (shift (-3) (scale 3 (map IZR cw))) (scale 1.5 cl)))
    g2 = (ca, g3) ->
  binomial (map logistic_cdf
              (sadd (shift (-3) (scale 3 (map IZR cw))) (scale 1.5 cl)))
    g3 = (y0, g4) ->
  binomial (map logistic_cdf
              (sadd (shift (-3 + 2.5) (scale 3 (map IZR cw))) (scale 1.5 cl)))
    g4 = (y1, g5) ->
  binary_outcomes bits n w
  = (Ok [("W", map IZR cw); ("L", cl); ("A", map IZR ca);
         ("Y0", map IZR y0); ("Y1", map IZR y1);
         ("Y", map IZR (observed_outcome_int bits ca y1 y0))],
     mkWorld g5 (stdout w)).
Proof.
  intros E1 E2 E3 E4 E5.
  destruct (binomial_eq _ _ E1) as [L1 B1]. rewrite repeat_length in L1.
  pose proof (normal_eq _ _ E2) as L2.
  destruct (binomial_eq _ _ E3) as [L3 B3].
  destruct (binomial_eq _ _ E4) as [L4 B4].
  destruct (binomial_eq _ _ E5) as [L5 B5].
  assert (LW : length (map IZR cw) = n) by now rewrite length_map.
  rewrite (@logistic_length _ n) in L3
    by (apply ssub_length; [apply shift_length|]; now apply scale_length).
  rewrite (@logistic_length _ n) in L4
    by (apply sadd_length; [apply shift_length|]; now apply scale_length).
  rewrite (@logistic_length _ n) in L5
    by (apply sadd_length; [apply shift_length|]; now apply scale_length).
  assert (LY : length (observed_outcome_int bits ca y1 y0) = n).
  { unfold observed_outcome_int, zadd, zmul, zrsub.
    assert (Ha : length (zip_with (fun x y => wrap bits (x * y)) ca y1) = n)
      by (rewrite zip_with_length; congruence).
    assert (Hb : length (zip_with (fun x y => wrap bits (x * y))
                           (map (fun x => wrap bits (1 - x)) ca) y0) = n)
      by (rewrite zip_with_length; rewrite length_map; congruence).
    rewrite zip_with_length; congruence. }
  unfold binary_outcomes, bind, np_random_seed, modify, lift.
  checked_draw E1. assign.
  unfold draw at 1. cbn [rng stdout]. rewrite E2. assign.
  rewrite L2, LW, Nat.eqb_refl. assign.
  checked_draw E3. assign.
  rewrite length_map, L3, LW, Nat.eqb_refl. assign.
  checked_draw E4. assign.
  rewrite length_map, L4, LW, Nat.eqb_refl. assign.
  checked_draw E5. assign.
  rewrite length_map, L5, LW, Nat.eqb_refl. assign.
  rewrite length_map, LY, LW, Nat.eqb_refl.
  reflexivity.
Qed.

(** X10.  The three seeded cells never fail, whatever the generator
    draws: every probability they give to [np.random.binomial] lies
    between 0 and 1 (0.05 or 0.5 in the first cell, because [W] is 0 or
    1; a value of the logistic function in the others).  Each returns
    a frame of [n] rows with its columns in the order of the
    assignments, and every Bernoulli column holds zeros and ones. *)
Theorem seeded_cells_never_fail (bits : Z) (n : nat) (w : World G) :
  (exists cw ca,
      fst (treatment_by_W n w) = Ok [("W", map IZR cw); ("A", map IZR ca)] /\
      length cw = n /\ length ca = n /\ binary cw /\ binary ca) /\
  (exists cw cl ca,
      fst (treatment_by_W_L n w)
      = Ok [("W", map IZR cw); ("L", cl); ("A", map IZR ca)] /\
      length cw = n /\ length cl = n /\ length ca = n /\
      binary cw /\ binary ca) /\
  (exists cw cl ca y0 y1,
      fst (binary_outcomes bits n w)
      = Ok [("W", map IZR cw); ("L", cl); ("A", map IZR ca);
            ("Y0", map IZR y0); ("Y1", map IZR y1);
            ("Y", map IZR (observed_outcome_int bits ca y1 y0))] /\
      length cw = n /\ length cl = n /\ length ca = n /\
      length y0 = n /\ length y1 = n /\
      binary cw /\ binary ca /\ binary y0 /\ binary y1).
Proof.
  destruct (binomial (repeat 0.5 n) (seed 1859031)) as [cw g1] eqn:E1.
  destruct (binomial_eq _ _ E1) as [L1 B1]. rewrite repeat_length in L1.
  destruct (normal n g1) as [cl g2] eqn:E2.
  pose proof (normal_eq _ _ E2) as L2.
  assert (LW : length (map IZR cw) = n) by now rewrite length_map.
  split; [|split].
  - destruct (binomial (shift 0.05 (scale 0.45 (map IZR cw))) g1)
      as [ca g'] eqn:E3.
    destruct (binomial_eq _ _ E3) as [L3 B3].
    exists cw, ca. rewrite (treatment_by_W_run n w E1 E3).
    repeat split; auto.
    rewrite L3. unfold shift, scale. now rewrite !length_map.
  - destruct (binomial
                (map logistic_cdf
                   (ssub (rsub (-2.94) (scale 1.73 (map IZR cw)))
                      (scale 1.93 cl))) g2) as [ca g3] eqn:E3.
    destruct (binomial_eq _ _ E3) as [L3 B3].
    rewrite (@logistic_length _ n) in L3
      by (apply ssub_length; [apply rsub_length|]; now apply scale_length).
    exists cw, cl, ca. rewrite (treatment_by_W_L_run n w E1 E2 E3).
    repeat split; auto.
  - destruct (binomial
                (map logistic_cdf
                   (ssub (shift (-3) (scale 3 (map IZR cw))) (scale 1.5 cl)))
                g2) as [ca g3] eqn:E3.
    destruct (binomial
                (map logistic_cdf
                   (sadd (shift (-3) (scale 3 (map IZR cw))) (scale 1.5 cl)))
                g3) as [y0 g4] eqn:E4.
    destruct (binomial
                (map logistic_cdf
                   (sadd (shift (-3 + 2.5) (scale 3 (map IZR cw)))
                      (scale 1.5 cl)))
                g4) as [y1 g5] eqn:E5.
    destruct (binomial_eq _ _ E3) as [L3 B3].
    destruct (binomial_eq _ _ E4) as [L4 B4].
    destruct (binomial_eq _ _ E5) as [L5 B5].
    rewrite (@logistic_length _ n) in L3
      by (apply ssub_length; [apply shift_length|]; now apply scale_length).
    rewrite (@logistic_length _ n) in L4
      by (apply sadd_length; [apply shift_length|]; now apply scale_length).
    rewrite (@logistic_length _ n) in L5
      by (apply sadd_length; [apply shift_length|]; now apply scale_length).
    exists cw, cl, ca, y0, y1.
    rewrite (binary_outcomes_run bits n w E1 E2 E3 E4 E5).
    repeat split; auto.
Qed.

(** X11.  Each seeded cell is reproducible: the frame it returns and
    the generator state it leaves do not depend on the generator state
    it starts from.  As the three cells use one seed and begin with
    the same draws, they generate the same column [W], and the second
    and the third the same column [L]. *)
Theorem seeded_cells_are_reproducible (bits : Z) (n : nat) (w w' : World G) :
  (fst (treatment_by_W n w) = fst (treatment_by_W n w') /\
   rng (snd (treatment_by_W n w)) = rng (snd (treatment_by_W n w'))) /\
  (fst (treatment_by_W_L n w) = fst (treatment_by_W_L n w') /\
   rng (snd (treatment_by_W_L n w)) = rng (snd (treatment_by_W_L n w'))) /\
  (fst (binary_outcomes bits n w) = fst (binary_outcomes bits n w') /\
   rng (snd (binary_outcomes bits n w))
   = rng (snd (binary_outcomes bits n w'))) /\
  exists d1 d2 d3 cW cL,
    fst (treatment_by_W n w) = Ok d1 /\
    fst (treatment_by_W_L n w) = Ok d2 /\
    fst (binary_outcomes bits n w) = Ok d3 /\
    get_col "W" d1 = Ok cW /\ get_col "W" d2 = Ok cW /\
    get_col "W" d3 = Ok cW /\
    get_col "L" d2 = Ok cL /\ get_col "L" d3 = Ok cL.
Proof.
  destruct (binomial (repeat 0.5 n) (seed 1859031)) as [cw g1] eqn:E1.
  destruct (normal n g1) as [cl g2] eqn:E2.
  destruct (binomial (shift 0.05 (scale 0.45 (map IZR cw))) g1)
    as [a1 h1] eqn:A1.
  destruct (binomial
              (map logistic_cdf
                 (ssub (rsub (-2.94) (scale 1.73 (map IZR cw)))
                    (scale 1.93 cl))) g2) as [a2 h2] eqn:A2.
  destruct (binomial
              (map logistic_cdf
                 (ssub (shift (-3) (scale 3 (map IZR cw))) (scale 1.5 cl)))
              g2) as [ca g3] eqn:E3.
  destruct (binomial
              (map logistic_cdf
                 (sadd (shift (-3) (scale 3 (map IZR cw))) (scale 1.5 cl)))
              g3) as [y0 g4] eqn:E4.
  destruct (binomial
              (map logistic_cdf
                 (sadd (shift (-3 + 2.5) (scale 3 (map IZR cw)))
                    (scale 1.5 cl)))
              g4) as [y1 g5] eqn:E5.
  rewrite !(treatment_by_W_run n _ E1 A1).
  rewrite !(treatment_by_W_L_run n _ E1 E2 A2).
  rewrite !(binary_outcomes_run bits n _ E1 E2 E3 E4 E5).
  cbn [fst snd rng].
  repeat split.
  do 5 eexists. repeat split; reflexivity.
Qed.

End WithGenerator.

End CellsFacts.


(* ================================================================== *)
(** * [simulate_data]: what it prints and what it returns *)
(* ================================================================== *)

Module SimulateDataFacts.

Import Frame FrameFacts NumPy NumPyFacts Random RandomFacts Simulate
  SimulateFacts.

Local Open Scope R_scope.
Local Open Scope string_scope.
Local Open Scope list_scope.

#[local] Hint Resolve sadd_length ssub_length smul_length scale_length
  shift_length rsub_length map_IZR_length : len.

(** The difference of the two potential outcomes, summed over the
    units: the systematic parts cancel except for the constant. *)
Lemma potential_outcome_difference (cW cL e0 e1 : list R) (n : nat) :
  length cW = n -> length cL = n -> length e0 = n -> length e1 = n ->
  rsum (ssub
          (sadd (sadd (sadd (shift (-10) (scale 2 cW)) (scale 6 cL))
                   (smul (scale 0.3 cW) cL)) (scale 5 e1))
          (sadd (sadd (sadd (scale 2 cW) (scale 6 cL))
                   (smul (scale 0.3 cW) cL)) (scale 5 e0)))
  = -10 * INR n + 5 * (rsum e1 - rsum e0) /\
  length (ssub
          (sadd (sadd (sadd (shift (-10) (scale 2 cW)) (scale 6 cL))
                   (smul (scale 0.3 cW) cL)) (scale 5 e1))
          (sadd (sadd (sadd (scale 2 cW) (scale 6 cL))
                   (smul (scale 0.3 cW) cL)) (scale 5 e0))) = n.
Proof.
  revert cL e0 e1 n.
  induction cW as [|a cW IH]; intros [|l cL] [|x0 e0] [|x1 e1] n;
    simpl; intros HW HL H0 H1; subst n; try discriminate.
  - split; [simpl; lra | reflexivity].
  - injection HL as HL. injection H0 as H0. injection H1 as H1.
    destruct (IH cL e0 e1 (length cW) eq_refl HL H0 H1) as [S L].
    unfold ssub, sadd, smul, scale, shift in *.
    split.
    + change (rsum (?h :: ?t)) with (h + rsum t).
      rewrite S.
      destruct (length cW); [simpl; lra|].
      rewrite !S_INR. lra.
    + simpl. now rewrite L.
Qed.

Section WithGenerator.

Context {G : Type} {RV : RandomVariate G}.

(** X12.  The line [simulate_data] prints.  For an accepted [n] the
    function appends one line to the output, [ATE* =] followed by the
    mean of [Y1 - Y0]; that mean is -10 plus five times the difference
    between the means of the two noise draws (the fourth and the fifth
    draw of the call), whatever [W], [L] and [A] were drawn, and NaN
    when [n = 0].  The generator is left in the state after the fifth
    draw. *)
Theorem printed_ate_is_minus_10_plus_noise (z : Z) (w : World G)
    cw g1 cl g2 ca g3 e0 g4 e1 g5 :
  (0 <= z)%Z ->
  binomial (repeat 0.5 (Z.to_nat z)) (rng w) = (cw, g1) ->
  normal (Z.to_nat z) g1 = (cl, g2) ->
  binomial (map logistic_cdf
              (ssub (shift (-3) (scale 3 (map IZR cw))) (scale 1.5 cl)))
    g2 = (ca, g3) ->
  normal (Z.to_nat z) g3 = (e0, g4) ->
  normal (Z.to_nat z) g4 = (e1, g5) ->
  stdout (snd (simulate_data (PyInt z) true w))
  = stdout w ++
    [[PStr "ATE* =";
      PNum (match Z.to_nat z with
            | O => None
            | S _ => Some (-10 + 5 * (rsum e1 / INR (Z.to_nat z)
                                      - rsum e0 / INR (Z.to_nat z)))
            end)]] /\
  rng (snd (simulate_data (PyInt z) true w)) = g5.
Proof.
  intros Hz E1 E2 E3 E4 E5.
  pose proof (simulate_columns_draws (Z.to_nat z) w E1 E2 E3 E4 E5) as Hrun.
  cbv zeta in Hrun.
  pose proof (binomial_length (repeat 0.5 (Z.to_nat z)) (rng w)) as Lw.
  rewrite E1 in Lw. simpl in Lw. rewrite repeat_length in Lw.
  pose proof (normal_length (Z.to_nat z) g1) as Ll.
  rewrite E2 in Ll. simpl in Ll.
  pose proof (normal_length (Z.to_nat z) g3) as L0.
  rewrite E4 in L0. simpl in L0.
  pose proof (normal_length (Z.to_nat z) g4) as L1.
  rewrite E5 in L1. simpl in L1.
  assert (LW : length (map IZR cw) = Z.to_nat z) by auto with len.
  destruct (potential_outcome_difference (map IZR cw) cl e0 e1 LW Ll L0 L1)
    as [Hsum Hlen].
  assert (Hcall : exists sel d,
             simulate_data (PyInt z) true w
             = (Ok sel,
                mkWorld g5 (stdout w ++ [[PStr "ATE* ="; PNum (np_mean d)]]))
             /\ rsum d = -10 * INR (Z.to_nat z) + 5 * (rsum e1 - rsum e0)
             /\ length d = Z.to_nat z).
  { do 2 eexists. split; [|split; [exact Hsum | exact Hlen]].
    unfold simulate_data.
    unfold bind at 1. unfold lift at 1. unfold invalid_n, lt_zero.
    cbn [rbind isinstance_int negb].
    replace (z <? 0)%Z with false by (symmetry; apply Z.ltb_ge; lia).
    unfold bind at 1. unfold lift at 1. cbn [as_size].
    unfold bind at 1. rewrite Hrun.
    unfold bind, lift, print, modify. simpl. reflexivity. }
  clear Hsum Hlen.
  destruct Hcall as (sel & d & Hcall & Hsum & Hlen).
  rewrite Hcall. cbn [snd stdout rng].
  split; [|reflexivity].
  enough (Hm : np_mean d
               = match Z.to_nat z with
                 | O => None
                 | S _ => Some (-10 + 5 * (rsum e1 / INR (Z.to_nat z)
                                           - rsum e0 / INR (Z.to_nat z)))
                 end) by now rewrite Hm.
  unfold np_mean.
  destruct (Z.to_nat z) as [|k] eqn:Ek.
  - destruct d; [reflexivity | discriminate].
  - destruct d as [|x d'] eqn:Ed; [discriminate|].
    rewrite Hsum, Hlen. f_equal.
    assert (INR (S k) <> 0) by (apply not_0_INR; discriminate).
    field. assumption.
Qed.

(** X13.  [print_ate] only prints.  For every argument, the call with
    [print_ate=False] returns what the call with [print_ate=True]
    returns (the same table or the same exception) and leaves the
    generator in the same state; it writes nothing, while the call
    with [print_ate=True] writes exactly one line when it returns a
    table and nothing when it raises. *)
Theorem print_ate_only_prints (n : pyval) (w : World G) :
  fst (simulate_data n false w) = fst (simulate_data n true w) /\
  rng (snd (simulate_data n false w)) = rng (snd (simulate_data n true w)) /\
  stdout (snd (simulate_data n false w)) = stdout w /\
  exists lines,
    stdout (snd (simulate_data n true w)) = stdout w ++ lines /\
    length lines
    = if is_ok (fst (simulate_data n true w)) then 1%nat else 0%nat.
Proof.
  assert (Hraise : forall e,
             invalid_n n = Raise e \/
             (invalid_n n = Ok true /\
              e = ValueError "n must be a positive integer") ->
             forall b, simulate_data n b w = (Raise e, w)).
  { intros e [H | [H ->]] b; unfold simulate_data, bind, lift; rewrite H;
      reflexivity. }
  assert (Hok : forall size,
             invalid_n n = Ok false -> as_size n = Ok size ->
             exists df w',
               simulate_columns size w = (Ok df, w') /\
               stdout w' = stdout w /\
               exists cY1 cY0 sel,
                 get_col "Y1" df = Ok cY1 /\ get_col "Y0" df = Ok cY0 /\
                 select ["Y"; "A"; "W"; "L"] df = Ok sel).
  { intros size _ _.
    destruct (simulate_columns_run size w)
      as (cw & ca & cl & e0 & e1 & g & _ & _ & _ & _ & _ & _ & Hrun).
    cbv zeta in Hrun. rewrite Hrun.
    do 2 eexists. split; [reflexivity|]. split; [reflexivity|].
    do 3 eexists. repeat split; reflexivity. }
  assert (Hgood : forall size,
             invalid_n n = Ok false -> as_size n = Ok size ->
             fst (simulate_data n false w) = fst (simulate_data n true w) /\
             rng (snd (simulate_data n false w))
             = rng (snd (simulate_data n true w)) /\
             stdout (snd (simulate_data n false w)) = stdout w /\
             exists lines,
               stdout (snd (simulate_data n true w)) = stdout w ++ lines /\
               length lines
               = if is_ok (fst (simulate_data n true w))
                 then 1%nat else 0%nat).
  { intros size Hv Hs.
    destruct (Hok size Hv Hs)
      as (df & w' & Hrun & Hout & cY1 & cY0 & sel & H1 & H0 & Hsel).
    unfold simulate_data, bind, lift. rewrite Hv, Hs, Hrun.
    unfold print, modify, ret. rewrite H1, H0, Hsel. cbn [fst snd rng stdout is_ok].
    repeat split; auto.
    eexists. rewrite Hout. split; reflexivity. }
  assert (Hbad : forall e,
             (forall b, simulate_data n b w = (Raise e, w)) ->
             fst (simulate_data n false w) = fst (simulate_data n true w) /\
             rng (snd (simulate_data n false w))
             = rng (snd (simulate_data n true w)) /\
             stdout (snd (simulate_data n false w)) = stdout w /\
             exists lines,
               stdout (snd (simulate_data n true w)) = stdout w ++ lines /\
               length lines
               = if is_ok (fst (simulate_data n true w))
                 then 1%nat else 0%nat).
  { intros e H. rewrite !H. cbn [fst snd is_ok].
    repeat split. exists []. now rewrite app_nil_r. }
  destruct n as [z|b|f| |].
  - destruct (z <? 0)%Z eqn:E.
    + apply (Hbad (ValueError "n must be a positive integer")).
      apply Hraise. right. split; [|reflexivity].
      unfold invalid_n, lt_zero. cbn [rbind]. now rewrite E.
    + apply (Hgood (Z.to_nat z)); [|reflexivity].
      unfold invalid_n, lt_zero. cbn [rbind]. now rewrite E.
  - eapply Hbad. intros b'. unfold simulate_data, bind, lift. reflexivity.
  - apply (Hbad (ValueError "n must be a positive integer")).
    apply Hraise. right. split; [|reflexivity].
    unfold invalid_n, lt_zero. cbn [rbind].
    destruct (PrimFloat.ltb f 0); reflexivity.
  - eapply Hbad. apply Hraise. left. reflexivity.
  - eapply Hbad. apply Hraise. left. reflexivity.
Qed.

End WithGenerator.

End SimulateDataFacts.

Module SimulateDataExamples.

Import Frame NumPy Random RandomFacts Simulate SimulateDataFacts.

Local Open Scope R_scope.
Local Open Scope string_scope.
Local Open Scope list_scope.

Lemma printed_ate_is_minus_10_plus_noise_witness :
  stdout (snd (simulate_data (PyInt 2) true (mkWorld 0%nat [])))
  = [] ++
    [[PStr "ATE* =";
      PNum (match Z.to_nat 2 with
            | O => None
            | S _ => Some (-10 + 5 * (rsum [INR 8; INR 9] / INR (Z.to_nat 2)
                                      - rsum [INR 6; INR 7] / INR (Z.to_nat 2)))
            end)]] /\
  rng (snd (simulate_data (PyInt 2) true (mkWorld 0%nat []))) = 10%nat.
Proof.
  apply (@printed_ate_is_minus_10_plus_noise nat counter_generator 2
           (mkWorld 0%nat []) [0; 1]%Z 2%nat [INR 2; INR 3] 4%nat
           [0; 1]%Z 6%nat [INR 6; INR 7] 8%nat [INR 8; INR 9] 10%nat).
  - lia.
  - reflexivity.
  - reflexivity.
  - reflexivity.
  - reflexivity.
  - reflexivity.
Defined.

End SimulateDataExamples.


(* ================================================================== *)
(** * Preparing the NHEFS data: properties *)
(* ================================================================== *)

Module DataPrepFacts.

Import Frame FrameFacts NumPy NumPyFacts Select SelectFacts DataPrep.

Local Open Scope R_scope.
Local Open Scope string_scope.
Local Open Scope list_scope.

(** ** Masks over the positions of a frame *)

Lemma map_seq_true (f : nat -> bool) (s n : nat) :
  (forall i, (s <= i < s + n)%nat -> f i = true) ->
  map f (seq s n) = repeat true n.
Proof.
  revert s. induction n as [|n IH]; intros s H; simpl; [reflexivity|].
  rewrite H by lia. f_equal. apply IH. intros i Hi. apply H. lia.
Qed.

Lemma complete_on_length (cols : list (Series cell)) (n : nat) :
  length (complete_on cols n) = n.
Proof. unfold complete_on. now rewrite length_map, length_seq. Qed.

Lemma complete_on_nth (cols : list (Series cell)) (n i : nat) :
  (i < n)%nat ->
  nth i (complete_on cols n) false = forallb (notna_at i) cols.
Proof.
  intros Hi. unfold complete_on.
  rewrite (@map_nth_in _ _ _ (seq 0 n) 0%nat false i)
    by now rewrite length_seq.
  now rewrite seq_nth.
Qed.

Lemma filter_mask_Forall_nth {V} (P : V -> Prop) (d : V) (mask : list bool)
    (c : list V) :
  (forall i, (i < length c)%nat -> nth i mask false = true -> P (nth i c d)) ->
  Forall P (filter_mask mask c).
Proof.
  revert c. induction mask as [|m ms IH]; intros [|x xs] H; simpl;
    try constructor.
  assert (Hrest : Forall P (filter_mask ms xs)).
  { apply IH. intros i Hi Hm. apply (H (S i)); simpl; [lia | assumption]. }
  destruct m; [|assumption].
  constructor; [|assumption].
  apply (H 0%nat); simpl; [lia | reflexivity].
Qed.

Lemma notna_at_spec (i : nat) (c : Series cell) :
  notna_at i c = true <-> nth i c None <> None.
Proof.
  unfold notna_at. destruct (nth i c None); split; congruence.
Qed.

(** ** The listed columns *)

Lemma no_unknown (names : list string) (df : DataFrame cell) :
  Forall (fun n => has_col n df = true) names ->
  filter (fun n => negb (has_col n df)) names = [].
Proof.
  induction 1 as [|n names Hn _ IH]; simpl; [reflexivity|].
  now rewrite Hn.
Qed.

Lemma select_listed (names : list string) (df : DataFrame cell) :
  Forall (fun n => has_col n df = true) names ->
  exists cols,
    select names df = Ok cols /\
    length cols = length names /\
    forall c, In c (map snd cols) <->
              exists n, In n names /\ get_col n df = Ok c.
Proof.
  intros Hall. unfold select. rewrite (@no_unknown names df Hall).
  induction Hall as [|n names Hn _ (cols & Hsel & Hlen & Hin)]; simpl.
  - exists []. split; [reflexivity|]. split; [reflexivity|].
    intros c. split; [intros [] | intros (n & [] & _)].
  - unfold has_col in Hn.
    destruct (get_col n df) as [c0|e] eqn:E; [|discriminate].
    rewrite Hsel. exists ((n, c0) :: cols).
    split; [reflexivity|]. split; [simpl; now rewrite Hlen|].
    intros c. simpl. rewrite Hin. split.
    + intros [<- | (m & Hm & Hc)]; [exists n | exists m]; auto.
    + intros (m & [<- | Hm] & Hc); [left; congruence | right; eauto].
Qed.

Lemma has_col_masked {V} (mask : list bool) (name : string)
    (df : DataFrame V) :
  has_col name (masked mask df) = has_col name df.
Proof.
  unfold has_col, masked. rewrite get_col_map_columns.
  now destruct (get_col name df).
Qed.

Lemma masked_all_true {V} (df : DataFrame V) :
  rectangular df -> masked (repeat true (shape0 df)) df = df.
Proof.
  intros R. unfold masked. rewrite <- (map_id df) at 2.
  apply map_ext_in. intros [k c] Hin. simpl.
  unfold rectangular in R. rewrite Forall_forall in R.
  specialize (R _ Hin). simpl in R. rewrite <- R.
  now rewrite filter_mask_all_true.
Qed.

Lemma all_true_repeat (mask : list bool) :
  (forall i, (i < length mask)%nat -> nth i mask false = true) ->
  mask = repeat true (length mask).
Proof.
  induction mask as [|m ms IH]; intros H; simpl; [reflexivity|].
  pose proof (H 0%nat ltac:(simpl; lia)) as H0. simpl in H0. subst m.
  f_equal. apply IH. intros i Hi. apply (H (S i)). simpl. lia.
Qed.

(** What [dropna] computes: the selection of the rows that are
    complete on the listed columns. *)
Lemma dropna_spec (subset : list string) (df : DataFrame cell) :
  rectangular df ->
  Forall (fun n => has_col n df = true) subset ->
  exists mask,
    dropna subset df = Ok (masked mask df) /\
    length mask = shape0 df /\
    (forall i, (i < shape0 df)%nat ->
       (nth i mask false = true <->
        forall n c, In n subset -> get_col n df = Ok c ->
                    nth i c None <> None)) /\
    (forall n c', In n subset -> get_col n (masked mask df) = Ok c' ->
                  Forall (fun x => x <> None) c').
Proof.
  intros R Hcols.
  destruct (@select_listed subset df Hcols) as (cols & Hsel & _ & Hin).
  set (mask := complete_on (map snd cols) (shape0 df)).
  assert (Lm : length mask = shape0 df) by apply complete_on_length.
  assert (Hmask : forall i, (i < shape0 df)%nat ->
            (nth i mask false = true <->
             forall n c, In n subset -> get_col n df = Ok c ->
                         nth i c None <> None)).
  { intros i Hi. unfold mask. rewrite complete_on_nth by assumption.
    rewrite forallb_forall. split.
    - intros H n c Hn Hc. apply notna_at_spec. apply H. apply Hin. eauto.
    - intros H c Hc. apply Hin in Hc. destruct Hc as (n & Hn & Hc).
      apply notna_at_spec. eauto. }
  exists mask.
  split.
  { unfold dropna. rewrite (@no_unknown subset df Hcols), Hsel. cbn [rbind].
    now apply loc_rows_run. }
  split; [exact Lm|]. split; [exact Hmask|].
  intros n c' Hn Hc'. unfold masked in Hc'.
  rewrite get_col_map_columns in Hc'.
  destruct (get_col n df) as [c|e] eqn:Hc; [|discriminate].
  injection Hc' as <-.
  pose proof (@rectangular_get_col _ _ _ _ R Hc) as Lc.
  apply (@filter_mask_Forall_nth _ _ None). intros i Hi Hm.
  assert (Hi' : (i < shape0 df)%nat) by (rewrite <- Lc; exact Hi).
  apply (proj1 (Hmask i Hi') Hm n c Hn Hc).
Qed.

(** X14.  [df.dropna(subset=names, inplace=True)] on a frame that has
    the listed columns keeps a row exactly when none of the listed
    columns is missing there.  It drops whole records and keeps the
    others in their order, with every column of the frame; afterwards
    no listed column has a missing value, and dropping again changes
    nothing. *)
Theorem dropna_keeps_complete_rows (subset : list string)
    (df : DataFrame cell) :
  rectangular df ->
  Forall (fun n => has_col n df = true) subset ->
  exists d mask,
    dropna subset df = Ok d /\
    length mask = shape0 df /\
    (forall i, (i < shape0 df)%nat ->
       (nth i mask false = true <->
        forall n c, In n subset -> get_col n df = Ok c ->
                    nth i c None <> None)) /\
    columns d = columns df /\
    rectangular d /\
    rows None d = filter_mask mask (rows None df) /\
    (forall n c', In n subset -> get_col n d = Ok c' ->
                  Forall (fun x => x <> None) c') /\
    dropna subset d = Ok d.
Proof.
  intros R Hcols.
  destruct (dropna_spec R Hcols) as (mask & Hrun & Lm & Hmask & Hcomplete).
  assert (Rd : rectangular (masked mask df)) by now apply rectangular_masked.
  exists (masked mask df), mask.
  split; [exact Hrun|]. split; [exact Lm|]. split; [exact Hmask|].
  split; [apply columns_map_columns|]. split; [exact Rd|].
  split; [now apply rows_masked|]. split; [exact Hcomplete|].
  (* dropping again *)
  assert (Hcols' : Forall (fun n => has_col n (masked mask df) = true) subset).
  { revert Hcols. apply Forall_impl. intros n. now rewrite has_col_masked. }
  destruct (dropna_spec Rd Hcols') as (mask' & Hrun' & Lm' & Hmask' & _).
  rewrite Hrun'.
  rewrite (all_true_repeat mask'), Lm'.
  - now rewrite masked_all_true.
  - intros i Hi. rewrite Lm' in Hi. apply (Hmask' i Hi).
    intros n c' Hn Hc'.
    pose proof (@Hcomplete n c' Hn Hc') as Hsome.
    pose proof (@rectangular_get_col _ _ _ _ Rd Hc') as Lc.
    rewrite Forall_forall in Hsome. apply Hsome. apply nth_In.
    rewrite Lc. exact Hi.
Qed.

Lemma dropna_keeps_complete_rows_witness :
  exists d mask,
    dropna complete_columns nhefs_sample = Ok d /\
    length mask = shape0 nhefs_sample /\
    (forall i, (i < shape0 nhefs_sample)%nat ->
       (nth i mask false = true <->
        forall n c, In n complete_columns -> get_col n nhefs_sample = Ok c ->
                    nth i c None <> None)) /\
    columns d = columns nhefs_sample /\
    rectangular d /\
    rows None d = filter_mask mask (rows None nhefs_sample) /\
    (forall n c', In n complete_columns -> get_col n d = Ok c' ->
                  Forall (fun x => x <> None) c') /\
    dropna complete_columns d = Ok d.
Proof.
  apply (@dropna_keeps_complete_rows complete_columns nhefs_sample).
  - repeat constructor.
  - repeat constructor.
Defined.

(** The participant without a recorded height is dropped; the one
    without a recorded activity stays, as [active] is not among the
    listed columns. *)
Example dropna_nhefs_sample :
  exists d,
    dropna complete_columns nhefs_sample = Ok d /\
    get_col "ht" d = Ok [Some 174; Some 168] /\
    get_col "active" d = Ok [Some 0; None].
Proof. eexists. repeat split; reflexivity. Qed.

(** A label that is not a column is reported, with every such
    label. *)
Example dropna_unknown_labels :
  dropna ["sex"; "height"; "age"; "weight"] nhefs_sample
  = Raise (KeyError "['height', 'weight']").
Proof. reflexivity. Qed.

(** ** Recoding a level *)

Lemma np_where_eq (c : Series cell) (level : R) :
  np_where (eq c level) (Some 1) (Some 0) = map (level_code level) c.
Proof.
  unfold np_where, eq. rewrite map_map. apply map_ext.
  intros [v|]; simpl; [|reflexivity].
  now destruct (Req_dec_T v level).
Qed.

Lemma level_code_one (level : R) (x : cell) :
  level_code level x = Some 1 <-> x = Some level.
Proof.
  unfold level_code. destruct x as [v|].
  - destruct (Req_dec_T v level) as [->|Hne]; split; intros H;
      try reflexivity.
    + injection H as H. lra.
    + injection H as H. contradiction.
  - split; intros H; [injection H as H; lra | discriminate].
Qed.

Lemma recode_level_run (name source : string) (level : R)
    (df : DataFrame cell) (c : Series cell) :
  rectangular df ->
  get_col source df = Ok c ->
  recode_level name source level df
  = Ok (put_col name (map (level_code level) c) df).
Proof.
  intros R Hc. unfold recode_level. rewrite Hc. cbn [rbind].
  rewrite np_where_eq. unfold setitem.
  destruct df as [|kc rest]; [discriminate|].
  rewrite length_map, (@rectangular_get_col _ _ _ _ R Hc), Nat.eqb_refl.
  reflexivity.
Qed.

(** X15.  [df[name] = np.where(df[source] == level, 1, 0)] never
    yields a missing value: the new column is 1 in the rows where the
    source equals the level and 0 in every other row, the rows where
    the source is missing included.  No other column changes. *)
Theorem recode_level_is_never_missing (name source : string) (level : R)
    (df : DataFrame cell) (c : Series cell) :
  rectangular df ->
  get_col source df = Ok c ->
  exists d c',
    recode_level name source level df = Ok d /\
    get_col name d = Ok c' /\
    rectangular d /\ shape0 d = shape0 df /\
    length c' = shape0 df /\
    Forall (fun x => x = Some 1 \/ x = Some 0) c' /\
    (forall i, (i < shape0 df)%nat ->
       (nth i c' None = Some 1 <-> nth i c None = Some level) /\
       (nth i c None = None -> nth i c' None = Some 0)) /\
    (forall other, other <> name -> get_col other d = get_col other df).
Proof.
  intros R Hc.
  pose proof (@rectangular_get_col _ _ _ _ R Hc) as Lc.
  assert (L' : length (map (level_code level) c) = shape0 df)
    by now rewrite length_map.
  exists (put_col name (map (level_code level) c) df),
         (map (level_code level) c).
  split; [now apply recode_level_run|].
  split; [apply get_col_put_col_same|].
  split; [now apply rectangular_put_col|].
  split; [now apply shape0_put_col|].
  split; [exact L'|].
  split.
  { rewrite Forall_forall. intros x Hx. apply in_map_iff in Hx.
    destruct Hx as ([v|] & <- & _); simpl; auto.
    destruct (Req_dec_T v level); auto. }
  split.
  - intros i Hi.
    assert (Hi' : (i < length c)%nat) by (rewrite Lc; exact Hi).
    rewrite (@map_nth_in _ _ (level_code level) c None None i Hi').
    split; [apply level_code_one|].
    intros ->. reflexivity.
  - intros other Hne. apply get_col_put_col_other. congruence.
Qed.

Lemma recode_level_is_never_missing_witness :
  exists d c',
    recode_level "inactive" "active" 2 nhefs_sample = Ok d /\
    get_col "inactive" d = Ok c' /\
    rectangular d /\ shape0 d = shape0 nhefs_sample /\
    length c' = shape0 nhefs_sample /\
    Forall (fun x => x = Some 1 \/ x = Some 0) c' /\
    (forall i, (i < shape0 nhefs_sample)%nat ->
       (nth i c' None = Some 1 <-> nth i [Some 0; Some 2; None] None = Some 2) /\
       (nth i [Some 0; Some 2; None] None = None -> nth i c' None = Some 0)) /\
    (forall other, other <> "inactive" ->
                   get_col other d = get_col other nhefs_sample).
Proof.
  apply (@recode_level_is_never_missing "inactive" "active" 2 nhefs_sample
           [Some 0; Some 2; None]).
  - repeat constructor.
  - reflexivity.
Defined.


(** ** Quadratic terms *)

Lemma zip_with_diag (c : Series cell) :
  zip_with cmul c c = map square_cell c.
Proof. induction c as [|x c IH]; simpl; [reflexivity | now rewrite IH]. Qed.

Lemma quadratic_term_run (col : string) (df : DataFrame cell)
    (c : Series cell) :
  rectangular df ->
  get_col col df = Ok c ->
  quadratic_term col df = Ok (put_col (col ++ "_sq") (map square_cell c) df).
Proof.
  intros R Hc. unfold quadratic_term. rewrite Hc. cbn [rbind].
  rewrite zip_with_diag. unfold setitem.
  destruct df as [|kc rest]; [discriminate|].
  rewrite length_map, (@rectangular_get_col _ _ _ _ R Hc), Nat.eqb_refl.
  reflexivity.
Qed.

Lemma square_cell_spec (x : cell) :
  (square_cell x = None <-> x = None) /\
  (forall v, square_cell x = Some v -> 0 <= v).
Proof.
  destruct x as [a|]; simpl; split; try (split; congruence).
  - intros v [= <-]. nra.
  - intros v H. discriminate.
Qed.

Lemma quadratic_terms_run (df : DataFrame cell) (c1 c2 c3 c4 : Series cell) :
  rectangular df ->
  get_col "age" df = Ok c1 ->
  get_col "wt71" df = Ok c2 ->
  get_col "smokeintensity" df = Ok c3 ->
  get_col "smokeyrs" df = Ok c4 ->
  for_each quadratic_term squared_columns df
  = Ok (put_col "smokeyrs_sq" (map square_cell c4)
          (put_col "smokeintensity_sq" (map square_cell c3)
             (put_col "wt71_sq" (map square_cell c2)
                (put_col "age_sq" (map square_cell c1) df)))) /\
  rectangular
    (put_col "smokeyrs_sq" (map square_cell c4)
       (put_col "smokeintensity_sq" (map square_cell c3)
          (put_col "wt71_sq" (map square_cell c2)
             (put_col "age_sq" (map square_cell c1) df)))) /\
  shape0
    (put_col "smokeyrs_sq" (map square_cell c4)
       (put_col "smokeintensity_sq" (map square_cell c3)
          (put_col "wt71_sq" (map square_cell c2)
             (put_col "age_sq" (map square_cell c1) df))))
  = shape0 df.
Proof.
  intros R E1 E2 E3 E4.
  pose proof (@rectangular_get_col _ _ _ _ R E1) as L1.
  pose proof (@rectangular_get_col _ _ _ _ R E2) as L2.
  pose proof (@rectangular_get_col _ _ _ _ R E3) as L3.
  pose proof (@rectangular_get_col _ _ _ _ R E4) as L4.
  set (d1 := put_col "age_sq" (map square_cell c1) df).
  set (d2 := put_col "wt71_sq" (map square_cell c2) d1).
  set (d3 := put_col "smokeintensity_sq" (map square_cell c3) d2).
  set (d4 := put_col "smokeyrs_sq" (map square_cell c4) d3).
  assert (S1 : shape0 d1 = shape0 df)
    by (apply shape0_put_col; now rewrite length_map).
  assert (R1 : rectangular d1)
    by (apply rectangular_put_col; [assumption | now rewrite length_map]).
  assert (S2 : shape0 d2 = shape0 df)
    by (unfold d2; rewrite shape0_put_col; [assumption|];
        rewrite length_map; congruence).
  assert (R2 : rectangular d2)
    by (apply rectangular_put_col; [assumption|];
        rewrite length_map; congruence).
  assert (S3 : shape0 d3 = shape0 df)
    by (unfold d3; rewrite shape0_put_col; [assumption|];
        rewrite length_map; congruence).
  assert (R3 : rectangular d3)
    by (apply rectangular_put_col; [assumption|];
        rewrite length_map; congruence).
  assert (S4 : shape0 d4 = shape0 df)
    by (unfold d4; rewrite shape0_put_col; [assumption|];
        rewrite length_map; congruence).
  assert (R4 : rectangular d4)
    by (apply rectangular_put_col; [assumption|];
        rewrite length_map; congruence).
  split; [|split; assumption].
  unfold squared_columns, for_each.
  rewrite (@quadratic_term_run "age" df c1 R E1). cbn [rbind].
  simpl append. fold d1.
  rewrite (@quadratic_term_run "wt71" d1 c2 R1)
    by (unfold d1; rewrite get_col_put_col_other by discriminate;
        exact E2).
  cbn [rbind]. simpl append. fold d2.
  rewrite (@quadratic_term_run "smokeintensity" d2 c3 R2)
    by (unfold d2, d1; rewrite !get_col_put_col_other by discriminate;
        exact E3).
  cbn [rbind]. simpl append. fold d3.
  rewrite (@quadratic_term_run "smokeyrs" d3 c4 R3)
    by (unfold d3, d2, d1; rewrite !get_col_put_col_other by discriminate;
        exact E4).
  reflexivity.
Qed.

(** X16.  The loop over [age], [wt71], [smokeintensity] and [smokeyrs]
    succeeds on a frame that has these four columns; in the frame it
    leaves, each [col_sq] holds the squares of the entries of [col],
    row by row (missing exactly where [col] is missing, and never
    negative), the four columns themselves and every column other
    than the four [_sq] labels are as before, and the number of rows
    is the same. *)
Theorem quadratic_terms_are_squares (df : DataFrame cell) :
  rectangular df ->
  Forall (fun n => has_col n df = true) squared_columns ->
  exists d,
    for_each quadratic_term squared_columns df = Ok d /\
    rectangular d /\ shape0 d = shape0 df /\
    (forall col c,
       In col squared_columns -> get_col col df = Ok c ->
       get_col col d = Ok c /\
       get_col (col ++ "_sq") d = Ok (map square_cell c) /\
       Forall (fun x => (square_cell x = None <-> x = None) /\
                        forall v, square_cell x = Some v -> 0 <= v) c) /\
    (forall other,
       ~ In other (map (fun col => (col ++ "_sq")%string) squared_columns) ->
       get_col other d = get_col other df).
Proof.
  intros R Hcols. unfold squared_columns in Hcols.
  inversion Hcols as [|? ? H1 Hc1]; subst.
  inversion Hc1 as [|? ? H2 Hc2]; subst.
  inversion Hc2 as [|? ? H3 Hc3]; subst.
  inversion Hc3 as [|? ? H4 _]; subst.
  unfold has_col in H1, H2, H3, H4.
  destruct (get_col "age" df) as [c1|] eqn:E1; [|discriminate].
  destruct (get_col "wt71" df) as [c2|] eqn:E2; [|discriminate].
  destruct (get_col "smokeintensity" df) as [c3|] eqn:E3; [|discriminate].
  destruct (get_col "smokeyrs" df) as [c4|] eqn:E4; [|discriminate].
  destruct (quadratic_terms_run R E1 E2 E3 E4) as (Hrun & R4 & S4).
  set (d4 := put_col "smokeyrs_sq" _ _) in *.
  assert (Hother : forall other,
             other <> "age_sq" -> other <> "wt71_sq" ->
             other <> "smokeintensity_sq" -> other <> "smokeyrs_sq" ->
             get_col other d4 = get_col other df).
  { intros other N1 N2 N3 N4. unfold d4.
    rewrite !get_col_put_col_other by congruence. reflexivity. }
  exists d4.
  split; [exact Hrun|].
  split; [exact R4|]. split; [exact S4|]. split.
  - intros col c Hin Hc.
    assert (Hsq : Forall (fun x => (square_cell x = None <-> x = None) /\
                            forall v, square_cell x = Some v -> 0 <= v) c).
    { rewrite Forall_forall. intros x _. apply square_cell_spec. }
    unfold squared_columns in Hin. simpl in Hin.
    destruct Hin as [<- | [<- | [<- | [<- | []]]]];
      (split; [rewrite Hother by discriminate; exact Hc|]);
      (split; [|exact Hsq]);
      first [rewrite E1 in Hc | rewrite E2 in Hc | rewrite E3 in Hc
            | rewrite E4 in Hc];
      injection Hc as <-;
      unfold d4; simpl append;
      rewrite ?get_col_put_col_same;
      rewrite ?(get_col_put_col_other) by discriminate;
      rewrite ?get_col_put_col_same; reflexivity.
  - intros other Hnot. unfold squared_columns in Hnot. simpl in Hnot.
    apply Hother; intros ->; apply Hnot; auto.
Qed.

Lemma quadratic_terms_are_squares_witness :
  exists d,
    for_each quadratic_term squared_columns nhefs_sample = Ok d /\
    rectangular d /\ shape0 d = shape0 nhefs_sample /\
    (forall col c,
       In col squared_columns -> get_col col nhefs_sample = Ok c ->
       get_col col d = Ok c /\
       get_col (col ++ "_sq") d = Ok (map square_cell c) /\
       Forall (fun x => (square_cell x = None <-> x = None) /\
                        forall v, square_cell x = Some v -> 0 <= v) c) /\
    (forall other,
       ~ In other (map (fun col => (col ++ "_sq")%string) squared_columns) ->
       get_col other d = get_col other nhefs_sample).
Proof.
  apply (@quadratic_terms_are_squares nhefs_sample).
  - repeat constructor.
  - repeat constructor.
Defined.

(** The loop stops at the first column that is not there, with its
    [KeyError]; the columns before it have been squared. *)
Example quadratic_terms_missing_column :
  for_each quadratic_term squared_columns
    [("age", [Some 2]); ("smokeyrs", [Some 3])]
  = Raise (KeyError "wt71").
Proof. reflexivity. Qed.

(** ** The whole cell *)

(** X17.  The data-preparation cell as a whole, on a frame that has
    the columns it reads.  The frame it leaves holds the records that
    are complete on the eight listed columns, in their order: every
    column it did not assign holds its original entries in the kept
    rows.  The three recoded columns are the level codes of [active],
    [exercise] and [education] in the kept rows, and each [_sq] column
    holds the squares of its column in the kept rows; the eight listed
    columns have no missing value. *)
Theorem prepare_keeps_complete_records (df : DataFrame cell) :
  rectangular df ->
  Forall (fun n => has_col n df = true) required_columns ->
  exists d mask,
    prepare df = Ok d /\
    length mask = shape0 df /\
    (forall i, (i < shape0 df)%nat ->
       (nth i mask false = true <->
        forall n c, In n complete_columns -> get_col n df = Ok c ->
                    nth i c None <> None)) /\
    rectangular d /\
    shape0 d = count_true mask /\
    (forall name c,
       ~ In name new_labels -> get_col name df = Ok c ->
       get_col name d = Ok (filter_mask mask c)) /\
    (forall n c, In n complete_columns -> get_col n d = Ok c ->
                 Forall (fun x => x <> None) c) /\
    Forall (fun t =>
              exists c, get_col (snd (fst t)) d = Ok c /\
                        get_col (fst (fst t)) d
                        = Ok (map (level_code (snd t)) c))
      [("inactive", "active", 2); ("no_exercise", "exercise", 2);
       ("university", "education", 5)] /\
    Forall (fun col =>
              exists c, get_col col d = Ok c /\
                        get_col (col ++ "_sq") d = Ok (map square_cell c))
      squared_columns.
Proof.
  intros R Hcols.
  assert (Hhas : forall n, In n required_columns ->
                           exists c, get_col n df = Ok c).
  { rewrite Forall_forall in Hcols. intros n Hn.
    specialize (Hcols n Hn). unfold has_col in Hcols.
    destruct (get_col n df) as [c|]; [eauto | discriminate]. }
  assert (Hsub : Forall (fun n => has_col n df = true) complete_columns).
  { rewrite Forall_forall in *. intros n Hn. apply Hcols.
    unfold required_columns. apply in_or_app. now left. }
  destruct (Hhas "active") as [ca Ea]; [unfold required_columns; simpl; tauto|].
  destruct (Hhas "exercise") as [ce Ee];
    [unfold required_columns; simpl; tauto|].
  destruct (Hhas "education") as [cu Eu];
    [unfold required_columns; simpl; tauto|].
  destruct (Hhas "age") as [c1 E1]; [unfold required_columns; simpl; tauto|].
  destruct (Hhas "wt71") as [c2 E2]; [unfold required_columns; simpl; tauto|].
  destruct (Hhas "smokeintensity") as [c3 E3];
    [unfold required_columns; simpl; tauto|].
  destruct (Hhas "smokeyrs") as [c4 E4];
    [unfold required_columns; simpl; tauto|].
  destruct (dropna_spec R Hsub) as (mask & Hrun & Lm & Hmask & Hcomplete).
  set (d0 := masked mask df) in *.
  assert (R0 : rectangular d0) by now apply rectangular_masked.
  assert (S0 : shape0 d0 = count_true mask).
  { apply shape0_masked; [assumption|]. intros ->. discriminate. }
  assert (G0 : forall name c, get_col name df = Ok c ->
                              get_col name d0 = Ok (filter_mask mask c)).
  { intros name c Hc. unfold d0, masked.
    now rewrite get_col_map_columns, Hc. }
  set (d1 := put_col "inactive" (map (level_code 2) (filter_mask mask ca)) d0).
  set (d2 := put_col "no_exercise"
               (map (level_code 2) (filter_mask mask ce)) d1).
  set (d3 := put_col "university"
               (map (level_code 5) (filter_mask mask cu)) d2).
  assert (Lcol : forall name c, get_col name df = Ok c ->
                   length (filter_mask mask c) = shape0 d0).
  { intros name c Hc. apply (@rectangular_get_col _ name _ d0 R0).
    now apply G0. }
  assert (S1 : shape0 d1 = shape0 d0)
    by (apply shape0_put_col; rewrite length_map; eapply Lcol; eauto).
  assert (R1 : rectangular d1)
    by (apply rectangular_put_col; [assumption|];
        rewrite length_map; eapply Lcol; eauto).
  assert (S2 : shape0 d2 = shape0 d0).
  { unfold d2. rewrite shape0_put_col; [assumption|].
    rewrite length_map, S1. eapply Lcol; eauto. }
  assert (R2 : rectangular d2).
  { apply rectangular_put_col; [assumption|].
    rewrite length_map, S1. eapply Lcol; eauto. }
  assert (S3 : shape0 d3 = shape0 d0).
  { unfold d3. rewrite shape0_put_col; [assumption|].
    rewrite length_map, S2. eapply Lcol; eauto. }
  assert (R3 : rectangular d3).
  { apply rectangular_put_col; [assumption|].
    rewrite length_map, S2. eapply Lcol; eauto. }
  assert (G3 : forall name, name <> "inactive" -> name <> "no_exercise" ->
                 name <> "university" -> get_col name d3 = get_col name d0).
  { intros name N1 N2 N3. unfold d3, d2, d1.
    rewrite !get_col_put_col_other by congruence. reflexivity. }
  destruct (@quadratic_terms_run d3 (filter_mask mask c1) (filter_mask mask c2)
              (filter_mask mask c3) (filter_mask mask c4) R3)
    as (Hloop & R7 & S7);
    try (rewrite G3 by discriminate; now apply G0).
  set (d7 := put_col "smokeyrs_sq" _ _) in *.
  assert (G7 : forall name, name <> "age_sq" -> name <> "wt71_sq" ->
                 name <> "smokeintensity_sq" -> name <> "smokeyrs_sq" ->
                 get_col name d7 = get_col name d3).
  { intros name N1 N2 N3 N4. unfold d7.
    rewrite !get_col_put_col_other by congruence. reflexivity. }
  assert (Gold : forall name c, ~ In name new_labels ->
                   get_col name df = Ok c ->
                   get_col name d7 = Ok (filter_mask mask c)).
  { intros name c Hnew Hc. unfold new_labels in Hnew. simpl in Hnew.
    rewrite G7, G3 by (intros ->; apply Hnew; tauto).
    now apply G0. }
  exists d7, mask.
  split.
  { unfold prepare. rewrite Hrun. cbn [rbind]. fold d0.
    rewrite (@recode_level_run "inactive" "active" 2 d0 _ R0 (G0 _ _ Ea)).
    cbn [rbind]. fold d1.
    rewrite (@recode_level_run "no_exercise" "exercise" 2 d1
               (filter_mask mask ce) R1)
      by (unfold d1; rewrite get_col_put_col_other by discriminate;
          now apply G0).
    cbn [rbind]. fold d2.
    rewrite (@recode_level_run "university" "education" 5 d2
               (filter_mask mask cu) R2)
      by (unfold d2, d1; rewrite !get_col_put_col_other by discriminate;
          now apply G0).
    cbn [rbind]. fold d3. exact Hloop. }
  split; [exact Lm|]. split; [exact Hmask|]. split; [exact R7|].
  split; [congruence|].
  split; [exact Gold|].
  split.
  { intros n c Hn Hc. apply (Hcomplete n c Hn).
    rewrite <- Hc. symmetry.
    rewrite G7, G3; [reflexivity | | | | | | |];
      intros ->; unfold complete_columns in Hn; simpl in Hn;
      repeat (destruct Hn as [Hn|Hn]; [discriminate|]); exact Hn. }
  split.
  - repeat constructor; cbn [fst snd].
    + exists (filter_mask mask ca). split.
      * apply Gold; [unfold new_labels; simpl; intuition discriminate | exact Ea].
      * rewrite G7 by discriminate. unfold d3, d2, d1.
        rewrite !get_col_put_col_other by discriminate.
        apply get_col_put_col_same.
    + exists (filter_mask mask ce). split.
      * apply Gold; [unfold new_labels; simpl; intuition discriminate | exact Ee].
      * rewrite G7 by discriminate. unfold d3, d2.
        rewrite !get_col_put_col_other by discriminate.
        apply get_col_put_col_same.
    + exists (filter_mask mask cu). split.
      * apply Gold; [unfold new_labels; simpl; intuition discriminate | exact Eu].
      * rewrite G7 by discriminate. unfold d3.
        apply get_col_put_col_same.
  - unfold squared_columns. repeat constructor; simpl append.
    + exists (filter_mask mask c1). split.
      * apply Gold; [unfold new_labels; simpl; intuition discriminate | exact E1].
      * unfold d7. rewrite !get_col_put_col_other by discriminate.
        apply get_col_put_col_same.
    + exists (filter_mask mask c2). split.
      * apply Gold; [unfold new_labels; simpl; intuition discriminate | exact E2].
      * unfold d7. rewrite !get_col_put_col_other by discriminate.
        apply get_col_put_col_same.
    + exists (filter_mask mask c3). split.
      * apply Gold; [unfold new_labels; simpl; intuition discriminate | exact E3].
      * unfold d7. rewrite !get_col_put_col_other by discriminate.
        apply get_col_put_col_same.
    + exists (filter_mask mask c4). split.
      * apply Gold; [unfold new_labels; simpl; intuition discriminate | exact E4].
      * unfold d7. apply get_col_put_col_same.
Qed.

Lemma prepare_keeps_complete_records_witness :
  exists d mask,
    prepare nhefs_sample = Ok d /\
    length mask = shape0 nhefs_sample /\
    (forall i, (i < shape0 nhefs_sample)%nat ->
       (nth i mask false = true <->
        forall n c, In n complete_columns -> get_col n nhefs_sample = Ok c ->
                    nth i c None <> None)) /\
    rectangular d /\
    shape0 d = count_true mask /\
    (forall name c,
       ~ In name new_labels -> get_col name nhefs_sample = Ok c ->
       get_col name d = Ok (filter_mask mask c)) /\
    (forall n c, In n complete_columns -> get_col n d = Ok c ->
                 Forall (fun x => x <> None) c) /\
    Forall (fun t =>
              exists c, get_col (snd (fst t)) d = Ok c /\
                        get_col (fst (fst t)) d
                        = Ok (map (level_code (snd t)) c))
      [("inactive", "active", 2); ("no_exercise", "exercise", 2);
       ("university", "education", 5)] /\
    Forall (fun col =>
              exists c, get_col col d = Ok c /\
                        get_col (col ++ "_sq") d = Ok (map square_cell c))
      squared_columns.
Proof.
  apply (@prepare_keeps_complete_records nhefs_sample).
  - repeat constructor.
  - repeat constructor.
Defined.

(** On the three participants: the second is dropped, and the third,
    whose activity is not recorded, is coded as not inactive. *)
Example prepare_nhefs_sample :
  exists d,
    prepare nhefs_sample = Ok d /\
    get_col "active" d = Ok [Some 0; None] /\
    get_col "age" d = Ok [Some 42; Some 56] /\
    get_col "age_sq" d = Ok [Some (42 * 42); Some (56 * 56)] /\
    exists inactive,
      get_col "inactive" d = Ok inactive /\ nth 1 inactive None = Some 0.
Proof.
  eexists. split; [reflexivity|].
  split; [reflexivity|]. split; [reflexivity|]. split; [reflexivity|].
  eexists. split; reflexivity.
Qed.

End DataPrepFacts.


(* ================================================================== *)
(** * The confidence limits around the estimate *)
(* ================================================================== *)

Module IntervalOrderFacts.

Import Frame NumPy NumPyFacts GFormula IntervalFacts.

Local Open Scope R_scope.

Lemma all_numbers_nan (l : list cell) : In None l -> all_numbers l = None.
Proof.
  induction l as [|[v|] l IH]; simpl; intros H; try reflexivity.
  - destruct H.
  - destruct H as [H|H]; [discriminate|]. now rewrite IH.
Qed.

Lemma population_sd_nonneg (xs : list R) : 0 <= population_sd xs.
Proof. unfold population_sd. apply sqrt_pos. Qed.

(** A single replicate has no spread. *)
Lemma population_sd_single (x : R) : population_sd [x] = 0.
Proof.
  unfold population_sd. simpl.
  replace ((x - (x + 0) / 1) * ((x - (x + 0) / 1) * 1) + 0) with 0 by field.
  unfold Rdiv. rewrite Rmult_0_l. apply sqrt_0.
Qed.

(** X18.  The confidence limits bracket the point estimate.  For at
    least one replicate and no NaN among them, the standard error is
    not negative and [lcl <= rall - nall <= ucl]; a single replicate
    gives a standard error of zero and an interval of width zero.  One
    NaN replicate makes the standard error and both limits NaN. *)
Theorem interval_brackets_the_estimate (rall nall x : R) (xs : list R)
    (ests : list cell) :
  (exists se,
      wald_interval (Some (Some rall)) (Some (Some nall)) (map Some (x :: xs))
      = Ok (Some se, Some (rall - nall - 1.96 * se),
            Some (rall - nall + 1.96 * se)) /\
      0 <= se /\
      rall - nall - 1.96 * se <= rall - nall <= rall - nall + 1.96 * se) /\
  wald_interval (Some (Some rall)) (Some (Some nall)) [Some x]
  = Ok (Some 0, Some (rall - nall - 1.96 * 0), Some (rall - nall + 1.96 * 0)) /\
  (In None ests ->
   wald_interval (Some (Some rall)) (Some (Some nall)) ests
   = Ok (None, None, None)).
Proof.
  assert (Hrun : forall y ys,
             wald_interval (Some (Some rall)) (Some (Some nall))
               (map Some (y :: ys))
             = Ok (Some (population_sd (y :: ys)),
                   Some (rall - nall - 1.96 * population_sd (y :: ys)),
                   Some (rall - nall + 1.96 * population_sd (y :: ys)))).
  { intros y ys. unfold wald_interval. rewrite np_std_numbers. reflexivity. }
  split; [|split].
  - exists (population_sd (x :: xs)).
    pose proof (population_sd_nonneg (x :: xs)) as Hpos.
    split; [apply Hrun|]. split; [exact Hpos | lra].
  - change [Some x] with (map Some [x]). rewrite Hrun.
    now rewrite population_sd_single.
  - intros Hnan. unfold wald_interval, np_std.
    rewrite (all_numbers_nan _ Hnan). reflexivity.
Qed.

End IntervalOrderFacts.
